(** * TypeTele: speech / vision / retrieval fusion for a LEAP hand

    A shallow embedding of the parts of the pipeline that carry the
    behavioural contracts: the single-slot result mailboxes
    ([retrieve/retrieve.py], [asr/typing_asr.py]), the voice segmenter
    ([asr/tencent_asr.py]), the gesture retriever ([retrieve/retrieve.py]),
    the free-drag controller ([leap_hand_utils/leap_node.py]), the finger
    detector ([hand_detect/detectFinger.py]) and the real-time runner with
    its gesture file codec ([leap_3_realtime.py], [leap_1_create_type.py],
    [leap_2_test_type.py]).

    Conventions.
    - Python [float] values are modelled by rationals ([Q]); every comparison
      and arithmetic operation of the source is kept, rounding is not
      modelled.  The one place where rounding is observable, the gesture file
      codec, is also instantiated on binary64 ([PrimFloat]).
    - A method that mutates [self] becomes a function from the old object to
      the new one; a method that may raise returns the object it leaves
      behind together with the outcome.
    - Code run under a [threading.Lock] is one atomic step. *)

From Stdlib Require Import QArith Qminmax Qabs Lqa ZArith Lia List String Ascii Bool PrimFloat.
From stdpp Require Import gmap strings list.
Import ListNotations.

Set Warnings "-inexact-float".
Open Scope Q_scope.

(** ** Single-slot mailboxes *)

Module Mailbox.

(** *** [Retrieve]: the attributes [have_new_result] and [result]. *)

Record retrieve_box : Type := RetrieveBox {
  have_new_result : bool;
  result : option string  (* a gesture id, or Python's [None] *)
}.

(** [Retrieve.__init__]: [have_new_result = False], [result = ""]. *)
Definition retrieve_init : retrieve_box :=
  {| have_new_result := false; result := Some ""%string |}.

(** The locked block that ends an iteration of [Retrieve.spin]:
    [self.result = type_name; self.have_new_result = True]. *)
Definition spin_publish (type_name : option string) (b : retrieve_box) : retrieve_box :=
  {| have_new_result := true; result := type_name |}.

(** [Retrieve.get]. *)
Definition retrieve_get (b : retrieve_box) : option string * retrieve_box :=
  if have_new_result b
  then (result b, {| have_new_result := false; result := result b |})
  else (None, b).

(** [Retrieve.has_new_result]. *)
Definition retrieve_has_new_result (b : retrieve_box) : bool := have_new_result b.

(** Number of values published and not yet read. *)
Definition retrieve_unread (b : retrieve_box) : nat :=
  if have_new_result b then 1 else 0.

Definition spin_publish_all (vs : list (option string)) (b : retrieve_box) : retrieve_box :=
  fold_left (fun b v => spin_publish v b) vs b.

(** [n] calls of [get] in a row: the values returned and the final box. *)
Fixpoint retrieve_gets (n : nat) (b : retrieve_box) : list (option string) * retrieve_box :=
  match n with
  | O => ([], b)
  | S n' =>
      let '(r, b1) := retrieve_get b in
      let '(rs, b2) := retrieve_gets n' b1 in
      (r :: rs, b2)
  end.

(** *** [queue.Queue]: the operations the keyboard source uses. *)

Record queue : Type := Queue { maxsize : nat; items : list string }.

Definition queue_empty (q : queue) : bool :=
  match items q with [] => true | _ => false end.

Definition queue_full (q : queue) : bool :=
  (0 <? maxsize q)%nat && (maxsize q <=? length (items q))%nat.

(** [Queue.get_nowait]: [None] stands for the [Empty] exception. *)
Definition get_nowait (q : queue) : option (string * queue) :=
  match items q with
  | [] => None
  | x :: rest => Some (x, {| maxsize := maxsize q; items := rest |})
  end.

(** [Queue.put] with its default [block=True]: on a full queue the caller
    waits for a consumer; [None] stands for a call that does not return. *)
Definition put (x : string) (q : queue) : option queue :=
  if queue_full q then None
  else Some {| maxsize := maxsize q; items := items q ++ [x] |}.

(** *** [KeyboardAsrServer]: [result_queue] and [have_new_result]. *)

Record keyboard_box : Type := KeyboardBox {
  result_queue : queue;
  kb_have_new_result : bool
}.

(** [KeyboardAsrServer.__init__]: [Queue(maxsize=1)], flag cleared. *)
Definition keyboard_init : keyboard_box :=
  {| result_queue := {| maxsize := 1; items := [] |}; kb_have_new_result := false |}.

(** [KeyboardAsrServer._put_result]: drop the stale entry if there is one,
    then [put] the text and raise the flag. [None]: the [put] blocks. *)
Definition _put_result (text : string) (b : keyboard_box) : option keyboard_box :=
  let q1 :=
    if negb (queue_empty (result_queue b))
    then match get_nowait (result_queue b) with
         | Some (_, q') => q'
         | None => result_queue b          (* [except: pass] *)
         end
    else result_queue b in
  match put text q1 with
  | Some q2 => Some {| result_queue := q2; kb_have_new_result := true |}
  | None => None
  end.

(** [KeyboardAsrServer.get]: an [Empty] raised by [get_nowait] is caught by
    the outer handler, which returns [None] and leaves the flag as it was. *)
Definition keyboard_get (b : keyboard_box) : option string * keyboard_box :=
  if kb_have_new_result b
  then match get_nowait (result_queue b) with
       | Some (r, q') => (Some r, {| result_queue := q'; kb_have_new_result := false |})
       | None => (None, b)
       end
  else (None, b).

Definition keyboard_unread (b : keyboard_box) : nat := length (items (result_queue b)).

(** A client of the box: the producer thread publishes, the main loop reads. *)
Inductive op : Type :=
| Publish (text : string)
| Read.

Definition keyboard_step (o : op) (b : keyboard_box) : option keyboard_box :=
  match o with
  | Publish text => _put_result text b
  | Read => Some (snd (keyboard_get b))
  end.

Fixpoint keyboard_run (ops : list op) (b : keyboard_box) : option keyboard_box :=
  match ops with
  | [] => Some b
  | o :: rest =>
      match keyboard_step o b with
      | Some b' => keyboard_run rest b'
      | None => None
      end
  end.

Fixpoint keyboard_gets (n : nat) (b : keyboard_box) : list (option string) * keyboard_box :=
  match n with
  | O => ([], b)
  | S n' =>
      let '(r, b1) := keyboard_get b in
      let '(rs, b2) := keyboard_gets n' b1 in
      (r :: rs, b2)
  end.

(** The shape every reachable keyboard box has: either empty with the flag
    down, or holding one text with the flag up. *)
Definition keyboard_ok (b : keyboard_box) : Prop :=
  maxsize (result_queue b) = 1%nat /\
  ((kb_have_new_result b = false /\ items (result_queue b) = []) \/
   (kb_have_new_result b = true /\ exists v, items (result_queue b) = [v])).

Lemma spin_publish_all_snoc vs v b :
  spin_publish_all (vs ++ [v]) b = spin_publish v (spin_publish_all vs b).
Proof. unfold spin_publish_all. now rewrite fold_left_app. Qed.

Lemma retrieve_gets_idle n b :
  have_new_result b = false ->
  retrieve_gets n b = (repeat None n, b).
Proof.
  intros Hb. induction n as [|n IH]; simpl; [reflexivity|].
  unfold retrieve_get. rewrite Hb. now rewrite IH.
Qed.

Lemma retrieve_unread_le_1 b : (retrieve_unread b <= 1)%nat.
Proof. unfold retrieve_unread. destruct (have_new_result b); lia. Qed.

Lemma keyboard_ok_init : keyboard_ok keyboard_init.
Proof. split; [reflexivity|]. left. split; reflexivity. Qed.

Lemma _put_result_ok text b :
  keyboard_ok b ->
  exists b', _put_result text b = Some b' /\ keyboard_ok b' /\
             items (result_queue b') = [text] /\ kb_have_new_result b' = true.
Proof.
  intros [Hmax [[Hf Hi] | [Hf [v Hi]]]];
    destruct b as [[m its] f]; simpl in *; subst;
    eexists; (split; [reflexivity|]);
    (split; [split; [reflexivity | right; split; [reflexivity | eexists; reflexivity]] | split; reflexivity]).
Qed.

Lemma keyboard_get_ok b :
  keyboard_ok b -> keyboard_ok (snd (keyboard_get b)).
Proof.
  intros [Hmax [[Hf Hi] | [Hf [v Hi]]]];
    destruct b as [[m its] f]; simpl in *; subst; simpl;
    (split; [reflexivity | left; split; reflexivity]).
Qed.

Lemma keyboard_run_ok ops : forall b,
  keyboard_ok b -> exists b', keyboard_run ops b = Some b' /\ keyboard_ok b'.
Proof.
  induction ops as [|o ops IH]; intros b Hb; simpl.
  - eauto.
  - destruct o as [text|]; simpl.
    + destruct (_put_result_ok text b Hb) as (b1 & -> & Hb1 & _). now apply IH.
    + apply IH. now apply keyboard_get_ok.
Qed.

Lemma keyboard_run_app ops1 ops2 b :
  keyboard_run (ops1 ++ ops2) b =
  match keyboard_run ops1 b with
  | Some b' => keyboard_run ops2 b'
  | None => None
  end.
Proof.
  revert b. induction ops1 as [|o ops1 IH]; intros b; simpl; [reflexivity|].
  destruct (keyboard_step o b); [apply IH | reflexivity].
Qed.

Lemma keyboard_gets_idle n b :
  kb_have_new_result b = false ->
  keyboard_gets n b = (repeat None n, b).
Proof.
  intros Hb. induction n as [|n IH]; simpl; [reflexivity|].
  unfold keyboard_get. rewrite Hb. now rewrite IH.
Qed.

Lemma keyboard_ok_unread b : keyboard_ok b -> (keyboard_unread b <= 1)%nat.
Proof.
  unfold keyboard_unread.
  intros [_ [[_ ->] | [_ [v ->]]]]; simpl; lia.
Qed.

(** C3. After N >= 1 consecutive publishes with no read in between, [get]
    returns the N-th (last) published value and every later [get] returns
    [None] until the next publish; no box ever holds more than one unread
    value.  Stated for both mailboxes: [Retrieve]'s result (from any box
    state [b]) and [KeyboardAsrServer]'s (after any history [history] of
    publishes and reads since construction, where in addition no
    [_put_result] blocks). *)
Theorem mailbox_latest_value_wins :
  (forall (b : retrieve_box) (vs : list (option string)) (v : option string) (n : nat),
      let b1 := spin_publish_all (vs ++ [v]) b in
      fst (retrieve_get b1) = v /\
      fst (retrieve_gets n (snd (retrieve_get b1))) = repeat None n /\
      (retrieve_unread b <= 1)%nat /\ (retrieve_unread b1 <= 1)%nat /\
      retrieve_unread (snd (retrieve_get b1)) = 0%nat) /\
  (forall (history : list op) (vs : list string) (v : string) (n : nat),
      exists b1,
        keyboard_run (history ++ map Publish (vs ++ [v])) keyboard_init = Some b1 /\
        fst (keyboard_get b1) = Some v /\
        fst (keyboard_gets n (snd (keyboard_get b1))) = repeat None n /\
        (keyboard_unread b1 <= 1)%nat /\
        keyboard_unread (snd (keyboard_get b1)) = 0%nat) /\
  (forall (ops : list op),
      exists b, keyboard_run ops keyboard_init = Some b /\ (keyboard_unread b <= 1)%nat).
Proof.
  split; [|split].
  - intros b vs v n b1. subst b1. rewrite spin_publish_all_snoc.
    unfold retrieve_get at 1 2 3; simpl.
    split; [reflexivity|].
    split; [now rewrite retrieve_gets_idle|].
    split; [apply retrieve_unread_le_1|].
    split; [apply retrieve_unread_le_1 | reflexivity].
  - intros history vs v n.
    rewrite map_app, app_assoc. simpl.
    destruct (keyboard_run_ok (history ++ map Publish vs) keyboard_init keyboard_ok_init)
      as (b0 & Hrun & Hok0).
    destruct (_put_result_ok v b0 Hok0) as (b1 & Hput & Hok1 & Hitems & Hflag).
    exists b1. rewrite keyboard_run_app, Hrun. simpl. rewrite Hput.
    split; [reflexivity|].
    destruct b1 as [[m its] f]; simpl in *; subst. unfold keyboard_get; simpl.
    split; [reflexivity|].
    split; [now rewrite keyboard_gets_idle|].
    split; [unfold keyboard_unread; simpl; lia | reflexivity].
  - intros ops.
    destruct (keyboard_run_ok ops keyboard_init keyboard_ok_init) as (b & Hrun & Hok).
    exists b. split; [exact Hrun | now apply keyboard_ok_unread].
Qed.

End Mailbox.

(** ** Comparisons on rationals, as booleans *)

Definition Qltb (x y : Q) : bool := negb (Qle_bool y x).

Lemma Qltb_true x y : Qltb x y = true <-> x < y.
Proof.
  unfold Qltb. rewrite negb_true_iff, <- not_true_iff_false, Qle_bool_iff.
  split; [apply Qnot_le_lt | apply Qlt_not_le].
Qed.

Lemma Qltb_false x y : Qltb x y = false <-> y <= x.
Proof.
  unfold Qltb. rewrite negb_false_iff. apply Qle_bool_iff.
Qed.

Lemma Qle_bool_false x y : Qle_bool x y = false <-> y < x.
Proof.
  rewrite <- not_true_iff_false, Qle_bool_iff.
  split; [apply Qnot_le_lt | apply Qlt_not_le].
Qed.

(** ** Voice segmenter: [AsrServer.audio_callback] *)

Module Vad.

(** The attributes of [AsrServer] that [audio_callback] reads or writes.
    [audio_queue] is the unbounded [Queue()] feeding the recognition thread;
    here it records, in order, every utterance [put] on it. *)
Record AsrServer : Type := mkAsrServer {
  RATE : Z;
  SILENCE_THRESHOLD : Q;
  MIN_AUDIO_LENGTH : Q;
  MAX_SILENCE_DURATION : Q;
  voice_detected : bool;
  voice_start_time : Q;
  silence_start_time : Q;
  current_recording : list (list Z);
  audio_queue : list (list Z)
}.

(** One invocation of the stream callback: the block of int16 samples and
    the value [time.time()] returns inside it. *)
Record frame : Type := mkFrame { indata : list Z; current_time : Q }.

Definition with_voice_onset (s : AsrServer) (t : Q) : AsrServer :=
  mkAsrServer (RATE s) (SILENCE_THRESHOLD s) (MIN_AUDIO_LENGTH s) (MAX_SILENCE_DURATION s)
    true t 0 (current_recording s) (audio_queue s).

Definition with_silence_start_time (s : AsrServer) (t : Q) : AsrServer :=
  mkAsrServer (RATE s) (SILENCE_THRESHOLD s) (MIN_AUDIO_LENGTH s) (MAX_SILENCE_DURATION s)
    (voice_detected s) (voice_start_time s) t (current_recording s) (audio_queue s).

Definition recording_append (s : AsrServer) (block : list Z) : AsrServer :=
  mkAsrServer (RATE s) (SILENCE_THRESHOLD s) (MIN_AUDIO_LENGTH s) (MAX_SILENCE_DURATION s)
    (voice_detected s) (voice_start_time s) (silence_start_time s)
    (current_recording s ++ [block]) (audio_queue s).

Definition audio_queue_put (s : AsrServer) (audio_data : list Z) : AsrServer :=
  mkAsrServer (RATE s) (SILENCE_THRESHOLD s) (MIN_AUDIO_LENGTH s) (MAX_SILENCE_DURATION s)
    (voice_detected s) (voice_start_time s) (silence_start_time s)
    (current_recording s) (audio_queue s ++ [audio_data]).

(** [current_recording = []; voice_detected = False; silence_start_time = 0]. *)
Definition reset_recording (s : AsrServer) : AsrServer :=
  mkAsrServer (RATE s) (SILENCE_THRESHOLD s) (MIN_AUDIO_LENGTH s) (MAX_SILENCE_DURATION s)
    false (voice_start_time s) 0 [] (audio_queue s).

(** [len(audio_data) / self.RATE]. *)
Definition duration_of (rate : Z) (audio_data : list Z) : Q :=
  inject_Z (Z.of_nat (length audio_data)) / inject_Z rate.

Section Segmenter.

(** [_calculate_volume]: the RMS of a block, computed by numpy in floating
    point; the segmenter only compares it with the threshold. *)
Variable _calculate_volume : list Z -> Q.

Definition _is_silence (s : AsrServer) (audio_data : list Z) : bool :=
  Qltb (_calculate_volume audio_data) (SILENCE_THRESHOLD s).

Definition audio_callback (s : AsrServer) (f : frame) : AsrServer :=
  let is_silent := _is_silence s (indata f) in
  if negb is_silent then
    let s1 := if negb (voice_detected s) then with_voice_onset s (current_time f) else s in
    with_silence_start_time (recording_append s1 (indata f)) 0
  else
    if voice_detected s then
      let s1 :=
        if Qeq_bool (silence_start_time s) 0
        then with_silence_start_time s (current_time f) else s in
      let silence_duration := current_time f - silence_start_time s1 in
      if Qltb silence_duration (MAX_SILENCE_DURATION s1) then
        recording_append s1 (indata f)
      else
        let s2 :=
          match current_recording s1 with
          | [] => s1
          | _ :: _ =>
              let audio_data := concat (current_recording s1) in
              let total_duration := duration_of (RATE s1) audio_data in
              if Qle_bool (MIN_AUDIO_LENGTH s1) total_duration
              then audio_queue_put s1 audio_data
              else s1
          end in
        reset_recording s2
    else s.

(** The callback applied to a stream of frames, oldest first. *)
Definition feed (s : AsrServer) (frames : list frame) : AsrServer :=
  fold_left audio_callback frames s.

(** The state [_record_audio] sets up before it opens the input stream. *)
Definition listening (rate : Z) (threshold min_len max_sil : Q) : AsrServer :=
  mkAsrServer rate threshold min_len max_sil false 0 0 [] [].

Definition voiced (threshold : Q) (f : frame) : Prop :=
  threshold <= _calculate_volume (indata f).

Definition silent (threshold : Q) (f : frame) : Prop :=
  _calculate_volume (indata f) < threshold.

Definition voicedb (threshold : Q) (f : frame) : bool :=
  Qle_bool threshold (_calculate_volume (indata f)).

Definition silentb (threshold : Q) (f : frame) : bool :=
  Qltb (_calculate_volume (indata f)) threshold.

(** The silent frames that are still buffered: those that arrive less than
    [max_sil] after the first silent frame (time [t0]). *)
Fixpoint buffered_silence (max_sil t0 : Q) (frames : list frame) : list frame :=
  match frames with
  | [] => []
  | f :: rest =>
      if Qltb (current_time f - t0) max_sil
      then f :: buffered_silence max_sil t0 rest
      else []
  end.

Definition first_time (frames : list frame) : Q :=
  match frames with
  | [] => 0
  | f :: _ => current_time f
  end.

Definition samples (frames : list frame) : list Z := concat (map indata frames).

(** The utterances a fresh segmenter has queued after a stream of frames. *)
Definition emitted (rate : Z) (threshold min_len max_sil : Q) (frames : list frame)
  : list (list Z) :=
  audio_queue (feed (listening rate threshold min_len max_sil) frames).

(** The rule as the specification words it: a voiced run of duration [D]
    followed by silence lasting at least [max_sil] gives one utterance when
    [D] reaches [min_len] and none when it does not. *)
Definition voiced_length_rule : Prop :=
  forall (rate : Z) (threshold min_len max_sil : Q) (vs ss : list frame),
    (0 < rate)%Z -> vs <> [] ->
    Forall (voiced threshold) vs -> Forall (silent threshold) ss ->
    Forall (fun f => 0 < current_time f) (vs ++ ss) ->
    Exists (fun f => max_sil <= current_time f - first_time ss) ss ->
    (min_len <= duration_of rate (samples vs) ->
       length (emitted rate threshold min_len max_sil (vs ++ ss)) = 1%nat) /\
    (duration_of rate (samples vs) < min_len ->
       length (emitted rate threshold min_len max_sil (vs ++ ss)) = 0%nat).

End Segmenter.

(** An executable volume for the examples: the RMS rounded down to an
    integer, which is below an integer threshold exactly when the RMS is. *)
Definition rms_floor (block : list Z) : Q :=
  match block with
  | [] => 0
  | _ => inject_Z (Z.sqrt (fold_right (fun x acc => x * x + acc)%Z 0%Z block
                           / Z.of_nat (length block)))
  end.

(** The default configuration: 16 kHz, blocks of 0.1 s. *)
Definition loud_block : list Z := repeat 1000%Z 1600.
Definition quiet_block : list Z := repeat 0%Z 1600.

(** One loud block at t = 1 s, then quiet blocks every 0.1 s from 1.1 s to
    3.5 s. *)
Definition blip : list frame := [mkFrame loud_block 1].
Definition long_pause : list frame :=
  map (fun k => mkFrame quiet_block (inject_Z (Z.of_nat k) / 10)) (seq 11 25).

(** Five loud blocks from t = 1 s: half a second of speech. *)
Definition speech : list frame :=
  map (fun k => mkFrame loud_block (inject_Z (Z.of_nat k) / 10)) (seq 10 5).

(** A capture stream that stalls: one quiet block at 1.1 s, the next at
    3.2 s. *)
Definition stalled_pause : list frame :=
  [mkFrame quiet_block (11 # 10); mkFrame quiet_block (32 # 10)].

(** What the cut-off does with the buffer. *)
Definition close_utterance (rate : Z) (mn : Q) (rec : list (list Z)) (q : list (list Z))
  : list (list Z) :=
  if Qle_bool mn (duration_of rate (concat rec)) then q ++ [concat rec] else q.

Section SegmenterFacts.

Variable vol : list Z -> Q.

Lemma voicedb_voiced thr f : voicedb vol thr f = true -> voiced vol thr f.
Proof. unfold voicedb, voiced. apply Qle_bool_iff. Qed.

Lemma silentb_silent thr f : silentb vol thr f = true -> silent vol thr f.
Proof. unfold silentb, silent. apply Qltb_true. Qed.

Lemma voiced_not_silence s f :
  voiced vol (SILENCE_THRESHOLD s) f -> _is_silence vol s (indata f) = false.
Proof. unfold voiced, _is_silence. intros H. now apply Qltb_false. Qed.

Lemma silent_is_silence s f :
  silent vol (SILENCE_THRESHOLD s) f -> _is_silence vol s (indata f) = true.
Proof. unfold silent, _is_silence. intros H. now apply Qltb_true. Qed.

Lemma feed_cons s f frames :
  feed vol s (f :: frames) = feed vol (audio_callback vol s f) frames.
Proof. reflexivity. Qed.

(** One loud frame: it is appended and the silence timer is cleared. *)
Lemma audio_callback_voiced rate thr mn mx vd vst sst rec q f :
  voiced vol thr f ->
  exists vst',
    audio_callback vol (mkAsrServer rate thr mn mx vd vst sst rec q) f =
    mkAsrServer rate thr mn mx true vst' 0 (rec ++ [indata f]) q.
Proof.
  intros Hf. unfold audio_callback.
  rewrite voiced_not_silence by exact Hf. simpl.
  destruct vd; simpl; eexists; reflexivity.
Qed.

(** Voicing: every loud frame is appended and the silence timer stays at 0. *)
Lemma feed_voicing frames : forall rate thr mn mx vd vst sst rec q,
  Forall (voiced vol thr) frames -> frames <> [] ->
  exists vst',
    feed vol (mkAsrServer rate thr mn mx vd vst sst rec q) frames =
    mkAsrServer rate thr mn mx true vst' 0 (rec ++ map indata frames) q.
Proof.
  induction frames as [|f frames IH]; intros rate thr mn mx vd vst sst rec q Hv Hne;
    [congruence|].
  inversion Hv as [|? ? Hf Hrest]; subst.
  rewrite feed_cons.
  destruct (audio_callback_voiced rate thr mn mx vd vst sst rec q f Hf) as [vst1 ->].
  destruct frames as [|g frames].
  - exists vst1. reflexivity.
  - destruct (IH rate thr mn mx true vst1 0 (rec ++ [indata f]) q Hrest) as [vst' ->];
      [discriminate|].
    exists vst'. now rewrite <- app_assoc.
Qed.

(** Idle: silent frames leave a segmenter that is not recording unchanged. *)
Lemma feed_idle frames : forall s,
  voice_detected s = false ->
  Forall (silent vol (SILENCE_THRESHOLD s)) frames ->
  feed vol s frames = s.
Proof.
  induction frames as [|f frames IH]; intros s Hvd Hs; [reflexivity|].
  inversion Hs as [|? ? Hf Hrest]; subst.
  rewrite feed_cons.
  replace (audio_callback vol s f) with s; [now apply IH|].
  unfold audio_callback.
  rewrite silent_is_silence by exact Hf. simpl. now rewrite Hvd.
Qed.

(** Trailing silence: with the timer running since [t0], silent frames are
    buffered until one arrives [mx] or more after [t0]; that frame closes
    the utterance. *)
Lemma feed_trailing frames : forall rate thr mn mx vst t0 rec q,
  Forall (silent vol thr) frames ->
  ~ t0 == 0 -> rec <> [] ->
  Exists (fun f => mx <= current_time f - t0) frames ->
  feed vol (mkAsrServer rate thr mn mx true vst t0 rec q) frames =
  mkAsrServer rate thr mn mx false vst 0 []
    (close_utterance rate mn (rec ++ map indata (buffered_silence mx t0 frames)) q).
Proof.
  induction frames as [|f frames IH]; intros rate thr mn mx vst t0 rec q Hs Ht0 Hrec Hex.
  - inversion Hex.
  - inversion Hs as [|? ? Hf Hrest]; subst.
    rewrite feed_cons. unfold audio_callback.
    rewrite silent_is_silence by exact Hf. simpl.
    assert (Hz : Qeq_bool t0 0 = false).
    { apply not_true_iff_false. intros E. apply Ht0. now apply Qeq_bool_iff. }
    rewrite Hz. simpl.
    destruct (Qltb (current_time f - t0) mx) eqn:Hlt.
    + apply Qltb_true in Hlt.
      inversion Hex as [? ? Hnow | ? ? Hlater]; subst; [lra|].
      unfold recording_append; simpl.
      rewrite IH; try assumption.
      * now rewrite <- app_assoc.
      * intros E. now apply app_eq_nil in E as [_ E].
    + rewrite app_nil_r.
      destruct rec as [|r rec]; [congruence|].
      unfold close_utterance.
      destruct (Qle_bool mn (duration_of rate (concat (r :: rec)))) eqn:Hd;
        unfold reset_recording; simpl; apply feed_idle; auto.
Qed.

(** The first silent frame starts the timer at its own time stamp. *)
Lemma audio_callback_silence_onset rate thr mn mx vst rec q f :
  silent vol thr f -> ~ current_time f == 0 ->
  audio_callback vol (mkAsrServer rate thr mn mx true vst 0 rec q) f =
  audio_callback vol (mkAsrServer rate thr mn mx true vst (current_time f) rec q) f.
Proof.
  intros Hf Ht. unfold audio_callback.
  rewrite !silent_is_silence by exact Hf. simpl.
  assert (Hz : Qeq_bool (current_time f) 0 = false).
  { apply not_true_iff_false. intros E. apply Ht. now apply Qeq_bool_iff. }
  rewrite Hz. reflexivity.
Qed.

Lemma duration_of_mono rate (l1 l2 : list Z) :
  (0 < rate)%Z -> (length l1 <= length l2)%nat ->
  duration_of rate l1 <= duration_of rate l2.
Proof.
  intros Hr Hl. unfold duration_of, Qdiv.
  apply Qmult_le_compat_r.
  - rewrite <- Zle_Qle. lia.
  - apply Qlt_le_weak, Qinv_lt_0_compat. now rewrite <- (Zlt_Qlt 0).
Qed.

(** The queue after a voiced run followed by a long enough silence. *)
Lemma emitted_voiced_then_silence rate thr mn mx vs ss :
  vs <> [] ->
  Forall (voiced vol thr) vs -> Forall (silent vol thr) ss ->
  Forall (fun f => 0 < current_time f) (vs ++ ss) ->
  Exists (fun f => mx <= current_time f - first_time ss) ss ->
  emitted vol rate thr mn mx (vs ++ ss) =
  close_utterance rate mn
    (map indata (vs ++ buffered_silence mx (first_time ss) ss)) [].
Proof.
  intros Hne Hv Hs Hpos Hex.
  unfold emitted, feed. rewrite fold_left_app.
  change (fold_left (audio_callback vol) vs ?s) with (feed vol s vs).
  change (fold_left (audio_callback vol) ss ?s) with (feed vol s ss).
  destruct (feed_voicing vs rate thr mn mx false 0 0 [] [] Hv Hne) as [vst Hfeed].
  unfold listening. rewrite Hfeed. simpl app.
  destruct ss as [|f ss]; [inversion Hex|].
  assert (Hf0 : ~ current_time f == 0).
  { apply Forall_app in Hpos as [_ Hpos]. inversion Hpos; subst. lra. }
  rewrite feed_cons, audio_callback_silence_onset; [|now inversion Hs|exact Hf0].
  rewrite <- feed_cons.
  rewrite feed_trailing; try assumption.
  - simpl audio_queue. now rewrite map_app.
  - intros E. apply map_eq_nil in E. contradiction.
Qed.

End SegmenterFacts.

Lemma Forall_forallb {A} (P : A -> Prop) (b : A -> bool) (l : list A) :
  (forall x, b x = true -> P x) -> forallb b l = true -> Forall P l.
Proof.
  intros Hb H. apply Forall_forall. intros x Hx.
  apply Hb. rewrite forallb_forall in H. apply H.
  now apply list_elem_of_In.
Qed.

Lemma Exists_existsb {A} (P : A -> Prop) (b : A -> bool) (l : list A) :
  (forall x, b x = true -> P x) -> existsb b l = true -> Exists P l.
Proof.
  intros Hb H. apply existsb_exists in H as (x & Hx & Hbx).
  apply Exists_exists. exists x. split; [now apply list_elem_of_In | now apply Hb].
Qed.

(** C1 (as the code has it). A voiced run [vs] of duration D followed by
    silent frames [ss] that last at least the max-silence duration yields
    exactly one utterance when D is at least the minimum audio length.  The
    length test is made on the whole buffered span, the voiced frames
    together with the silent frames buffered before the cut-off: when D is
    below the minimum, the span is still emitted if the buffered span
    reaches the minimum, and discarded only if the buffered span is shorter
    than the minimum. *)
Theorem segmenter_emits_by_buffered_length
    (vol : list Z -> Q) (rate : Z) (thr mn mx : Q) (vs ss : list frame) :
  (0 < rate)%Z -> vs <> [] ->
  Forall (voiced vol thr) vs -> Forall (silent vol thr) ss ->
  Forall (fun f => 0 < current_time f) (vs ++ ss) ->
  Exists (fun f => mx <= current_time f - first_time ss) ss ->
  let buffered := samples (vs ++ buffered_silence mx (first_time ss) ss) in
  let out := emitted vol rate thr mn mx (vs ++ ss) in
  (mn <= duration_of rate (samples vs) -> out = [buffered]) /\
  (mn <= duration_of rate buffered -> out = [buffered]) /\
  (duration_of rate buffered < mn -> out = []).
Proof.
  intros Hrate Hne Hv Hs Hpos Hex buffered out.
  assert (Hout : out = close_utterance rate mn
            (map indata (vs ++ buffered_silence mx (first_time ss) ss)) []).
  { now apply emitted_voiced_then_silence. }
  unfold close_utterance in Hout. fold (samples (vs ++ buffered_silence mx (first_time ss) ss)) in Hout.
  fold buffered in Hout.
  assert (Hmono : duration_of rate (samples vs) <= duration_of rate buffered).
  { apply duration_of_mono; [exact Hrate|].
    unfold buffered, samples. rewrite map_app, concat_app, length_app. lia. }
  destruct (Qle_bool mn (duration_of rate buffered)) eqn:Hd.
  - apply Qle_bool_iff in Hd. rewrite Hout.
    repeat split; intros; try reflexivity. lra.
  - apply Qle_bool_false in Hd. rewrite Hout.
    repeat split; intros; try reflexivity; lra.
Qed.

Lemma speech_voiced : Forall (voiced rms_floor 500) speech.
Proof.
  apply (Forall_forallb _ (voicedb rms_floor 500));
    [apply voicedb_voiced | vm_compute; reflexivity].
Qed.

Lemma blip_voiced : Forall (voiced rms_floor 500) blip.
Proof.
  apply (Forall_forallb _ (voicedb rms_floor 500));
    [apply voicedb_voiced | vm_compute; reflexivity].
Qed.

Lemma long_pause_silent : Forall (silent rms_floor 500) long_pause.
Proof.
  apply (Forall_forallb _ (silentb rms_floor 500));
    [apply silentb_silent | vm_compute; reflexivity].
Qed.

Lemma stalled_pause_silent : Forall (silent rms_floor 500) stalled_pause.
Proof.
  apply (Forall_forallb _ (silentb rms_floor 500));
    [apply silentb_silent | vm_compute; reflexivity].
Qed.

Lemma times_positive (frames : list frame) :
  forallb (fun f => Qltb 0 (current_time f)) frames = true ->
  Forall (fun f => 0 < current_time f) frames.
Proof. apply Forall_forallb. intros x. apply Qltb_true. Qed.

Lemma silence_lasts (mx : Q) (ss : list frame) :
  existsb (fun f => Qle_bool mx (current_time f - first_time ss)) ss = true ->
  Exists (fun f => mx <= current_time f - first_time ss) ss.
Proof. apply Exists_existsb. intros x. apply Qle_bool_iff. Qed.

Lemma segmenter_emits_by_buffered_length_witness :
  emitted rms_floor 16000 500 (1 # 2) 2 (speech ++ long_pause)
    = [samples (speech ++ buffered_silence 2 (first_time long_pause) long_pause)] /\
  emitted rms_floor 16000 500 (1 # 2) 2 (blip ++ stalled_pause) = [].
Proof.
  split.
  - refine (proj1 (segmenter_emits_by_buffered_length rms_floor 16000 500 (1 # 2) 2
                     speech long_pause _ _ speech_voiced long_pause_silent _ _) _).
    + reflexivity.
    + discriminate.
    + apply times_positive. vm_compute. reflexivity.
    + apply silence_lasts. vm_compute. reflexivity.
    + apply Qle_bool_iff. vm_compute. reflexivity.
  - refine (proj2 (proj2 (segmenter_emits_by_buffered_length rms_floor 16000 500 (1 # 2) 2
                     blip stalled_pause _ _ blip_voiced stalled_pause_silent _ _)) _).
    + reflexivity.
    + discriminate.
    + apply times_positive. vm_compute. reflexivity.
    + apply silence_lasts. vm_compute. reflexivity.
    + apply Qltb_true. vm_compute. reflexivity.
Defined.

(** C1 (as the specification words it) fails: a single loud block of 0.1 s,
    below the 0.5 s minimum, followed by 2 s of silence is emitted, because
    the 2 s of buffered silence count towards its length. *)
Lemma voiced_length_rule_fails : ~ voiced_length_rule rms_floor.
Proof.
  intros H.
  destruct (H 16000%Z 500 (1 # 2) 2 blip long_pause) as [_ Hshort].
  - reflexivity.
  - discriminate.
  - exact blip_voiced.
  - exact long_pause_silent.
  - apply times_positive. vm_compute. reflexivity.
  - apply silence_lasts. vm_compute. reflexivity.
  - assert (Hd : duration_of 16000 (samples blip) < 1 # 2).
    { apply Qltb_true. vm_compute. reflexivity. }
    specialize (Hshort Hd).
    assert (Hone : length (emitted rms_floor 16000 500 (1 # 2) 2 (blip ++ long_pause)) = 1%nat).
    { vm_compute. reflexivity. }
    rewrite Hone in Hshort. discriminate Hshort.
Qed.

End Vad.

(** ** Gesture file codec: recorder encoding and player/runner decoding *)

Module Codec.

(** [_REORDER_INDEX] / [reorder_index], the same literal in the three
    scripts. *)
Definition _REORDER_INDEX : list nat :=
  [9; 8; 10; 11; 5; 4; 6; 7; 1; 0; 2; 3; 12; 13; 14; 15]%nat.

(** [np.argsort]: the positions of the entries in increasing order of
    value (an insertion sort that carries the positions along). *)
Fixpoint insert_by_key (x : nat * nat) (l : list (nat * nat)) : list (nat * nat) :=
  match l with
  | [] => [x]
  | y :: rest =>
      if (fst x <? fst y)%nat then x :: y :: rest
      else y :: insert_by_key x rest
  end.

Definition argsort (a : list nat) : list nat :=
  map snd (fold_right insert_by_key [] (combine a (seq 0 (length a)))).

Definition _INVERSE_INDEX : list nat := argsort _REORDER_INDEX.

Section Numeric.

(** The element type of the arrays with the two operations the codec uses:
    instantiated below with exact rationals and with binary64 floats. *)
Context {T : Type}.
Variable zero : T.
Variable add sub : T -> T -> T.
Variable offset : T.   (* the literal 3.14159 *)

(** [a[idx]] for an index array: [None] stands for numpy's [IndexError]. *)
Fixpoint take_at (a : list T) (idx : list nat) : option (list T) :=
  match idx with
  | [] => Some []
  | i :: rest =>
      match nth_error a i, take_at a rest with
      | Some x, Some xs => Some (x :: xs)
      | _, _ => None
      end
  end.

(** [a[idx] = vec] for an index array and a value array of the same
    length; the stores happen in order. Every index used here is below the
    length of [a]. *)
Fixpoint put_at (a : list T) (idx : list nat) (vec : list T) : list T :=
  match idx, vec with
  | i :: idx', v :: vec' => put_at (<[i := v]> a) idx' vec'
  | _, _ => a
  end.

(** [LeapCreateType._get_current_leap_pos], after [read_pos] has returned
    [current_pos]: subtract the offset, then index by the inverse
    permutation. *)
Definition _get_current_leap_pos (current_pos : list T) : option (list T) :=
  let joints := map (fun x => sub x offset) current_pos in
  let inverse_index := argsort _REORDER_INDEX in
  take_at joints inverse_index.

(** [_decode_saved] of [leap_2_test_type.py] and of
    [RealTimeRunner.load_type]: store [vec] through the inverse permutation
    into sixteen zeros, then add the offset.  numpy refuses the store
    ([ValueError], here [None]) unless [vec] has sixteen entries or a single
    one, which it repeats. *)
Definition _decode_saved (vec : list T) : option (list T) :=
  let joints := repeat zero 16 in
  match vec with
  | [v] => Some (map (fun x => add x offset) (put_at joints _INVERSE_INDEX (repeat v 16)))
  | _ =>
      if (length vec =? 16)%nat
      then Some (map (fun x => add x offset) (put_at joints _INVERSE_INDEX vec))
      else None
  end.

(** Encoding followed by decoding. *)
Definition saved_then_decoded (p : list T) : option (list T) :=
  match _get_current_leap_pos p with
  | Some saved => _decode_saved saved
  | None => None
  end.

End Numeric.

(** The two instances. *)
Definition offsetQ : Q := 314159 # 100000.
Definition saved_then_decodedQ : list Q -> option (list Q) :=
  saved_then_decoded 0 Qplus Qminus offsetQ.

Definition saved_then_decoded64 : list float -> option (list float) :=
  saved_then_decoded 0%float PrimFloat.add PrimFloat.sub 3.14159%float.

(** The round trip as the specification words it, on binary64. *)
Definition roundtrip_exact64 : Prop :=
  forall p : list float, length p = 16%nat -> saved_then_decoded64 p = Some p.

Lemma _INVERSE_INDEX_value :
  _INVERSE_INDEX = [9; 8; 10; 11; 5; 4; 6; 7; 1; 0; 2; 3; 12; 13; 14; 15]%nat.
Proof. reflexivity. Qed.

Lemma length_16_inv {A} (l : list A) :
  length l = 16%nat ->
  exists x0 x1 x2 x3 x4 x5 x6 x7 x8 x9 x10 x11 x12 x13 x14 x15,
    l = [x0; x1; x2; x3; x4; x5; x6; x7; x8; x9; x10; x11; x12; x13; x14; x15].
Proof.
  intros H.
  do 16 (destruct l as [|? l]; [discriminate H|]).
  destruct l; [|discriminate H].
  repeat eexists.
Qed.

(** The permutation part of the round trip holds for any element type:
    every joint comes back at its own index, carrying
    [(p_i - offset) + offset]. *)
Lemma saved_then_decoded_generic {T} (zero : T) (add sub : T -> T -> T) (offset : T)
    (p : list T) :
  length p = 16%nat ->
  saved_then_decoded zero add sub offset p =
  Some (map (fun x => add (sub x offset) offset) p).
Proof.
  intros H. apply length_16_inv in H.
  destruct H as (x0&x1&x2&x3&x4&x5&x6&x7&x8&x9&x10&x11&x12&x13&x14&x15&->).
  reflexivity.
Qed.

Lemma Forall2_Qeq_offset (q : list Q) :
  Forall2 Qeq (map (fun x => x - offsetQ + offsetQ) q) q.
Proof.
  induction q as [|x q IH]; simpl; constructor; [ring | exact IH].
Qed.

(** C10 (as the code has it). For every 16-element vector, decoding the
    recorder's encoding puts every joint back at its own index with the
    value [(p_i - 3.14159) + 3.14159]: the two index permutations are
    mutually inverse for any kind of number ([p], in particular binary64),
    and in exact arithmetic ([q]) the decoded vector equals the original
    entry by entry. *)
Theorem saved_then_decoded_roundtrip {T} (zero : T) (add sub : T -> T -> T) (offset : T)
    (p : list T) (q : list Q) :
  length p = 16%nat -> length q = 16%nat ->
  saved_then_decoded zero add sub offset p =
    Some (map (fun x => add (sub x offset) offset) p) /\
  exists d, saved_then_decodedQ q = Some d /\ Forall2 Qeq d q.
Proof.
  intros Hp Hq. split.
  - now apply saved_then_decoded_generic.
  - eexists. split.
    + unfold saved_then_decodedQ. now apply saved_then_decoded_generic.
    + apply Forall2_Qeq_offset.
Qed.

Lemma saved_then_decoded_roundtrip_witness :
  saved_then_decoded64 (repeat 3.5%float 16) =
    Some (map (fun x => PrimFloat.add (PrimFloat.sub x 3.14159%float) 3.14159%float)
              (repeat 3.5%float 16)) /\
  exists d, saved_then_decodedQ (repeat (7 # 2) 16) = Some d /\
            Forall2 Qeq d (repeat (7 # 2) 16).
Proof.
  apply (saved_then_decoded_roundtrip 0%float PrimFloat.add PrimFloat.sub 3.14159%float
           (repeat 3.5%float 16) (repeat (7 # 2) 16)); reflexivity.
Defined.

(** In binary64 the value 3.5 survives the round trip, the value 0.1 comes
    back as 0.10000000000000009. *)
Lemma roundtrip64_at_3_5 :
  saved_then_decoded64 (repeat 3.5%float 16) = Some (repeat 3.5%float 16).
Proof. vm_compute. reflexivity. Qed.

Lemma roundtrip64_at_0_1 :
  saved_then_decoded64 (repeat 0.1%float 16) = Some (repeat 0.10000000000000009%float 16).
Proof. vm_compute. reflexivity. Qed.

(** C10 (as the specification words it) fails on binary64: the vector whose
    sixteen joints all read 0.1 is not returned exactly. *)
Lemma roundtrip_exact64_fails : ~ roundtrip_exact64.
Proof.
  intros H. specialize (H (repeat 0.1%float 16) eq_refl).
  rewrite roundtrip64_at_0_1 in H.
  assert (E : hd 0%float (repeat 0.10000000000000009%float 16) =
              hd 0%float (repeat 0.1%float 16)).
  { congruence. }
  simpl in E.
  apply (f_equal (fun x => PrimFloat.eqb x 0.1%float)) in E.
  vm_compute in E. discriminate E.
Qed.

End Codec.

(** ** The string operations of Python that the scripts use (ASCII) *)

Module Str.

Open Scope string_scope.

Fixpoint lstrip_by (p : ascii -> bool) (s : string) : string :=
  match s with
  | "" => ""
  | String a rest => if p a then lstrip_by p rest else s
  end.

Definition rstrip_by (p : ascii -> bool) (s : string) : string :=
  String.rev (lstrip_by p (String.rev s)).

Definition strip_by (p : ascii -> bool) (s : string) : string :=
  rstrip_by p (lstrip_by p s).

(** [s.strip()]. *)
Definition strip (s : string) : string := strip_by Ascii.is_space s.

(** [s.strip(chars)]. *)
Definition strip_chars (chars : string) (s : string) : string :=
  strip_by (fun a => existsb (Ascii.eqb a) (list_ascii_of_string chars)) s.

(** [s.replace(old, new)] for one-character [old] and [new]. *)
Fixpoint replace_char (old new : ascii) (s : string) : string :=
  match s with
  | "" => ""
  | String a rest =>
      String (if Ascii.eqb a old then new else a) (replace_char old new rest)
  end.

(** [s.split()]. *)
Definition split (s : string) : list string := String.words s.

Definition is_upper (a : ascii) : bool :=
  (65 <=? nat_of_ascii a)%nat && (nat_of_ascii a <=? 90)%nat.

Definition is_letter (a : ascii) : bool :=
  is_upper a || ((97 <=? nat_of_ascii a)%nat && (nat_of_ascii a <=? 122)%nat).

Definition lower_ascii (a : ascii) : ascii :=
  if is_upper a then ascii_of_nat (nat_of_ascii a + 32) else a.

(** [s.lower()]. *)
Fixpoint lower (s : string) : string :=
  match s with
  | "" => ""
  | String a rest => String (lower_ascii a) (lower rest)
  end.

(** [needle in hay]. *)
Fixpoint contains (needle hay : string) : bool :=
  String.prefix needle hay ||
  match hay with
  | "" => false
  | String _ rest => contains needle rest
  end.

(** [re.findall(r"[a-zA-Z]+", s)]: the maximal runs of letters. *)
Fixpoint letter_runs_go (cur : string) (s : string) : list string :=
  match s with
  | "" => match cur with "" => [] | _ => [String.rev cur] end
  | String a rest =>
      if is_letter a then letter_runs_go (String a cur) rest
      else match cur with
           | "" => letter_runs_go "" rest
           | _ => String.rev cur :: letter_runs_go "" rest
           end
  end.

Definition findall_letters (s : string) : list string := letter_runs_go "" s.

(** [sep.join(parts)]. *)
Fixpoint join (sep : string) (parts : list string) : string :=
  match parts with
  | [] => ""
  | [x] => x
  | x :: rest => x ++ sep ++ join sep rest
  end.

(** [s[1:]]. *)
Definition tail (s : string) : string :=
  match s with
  | "" => ""
  | String _ rest => rest
  end.

(** A reading of [float(text)] for plain decimal literals: an optional
    sign, digits, an optional point and more digits (at least one digit).
    Exponents, [inf], [nan] and underscores are not covered; it serves the
    worked examples only. *)
Fixpoint digits_value (acc : Z) (s : string) : option Z :=
  match s with
  | "" => Some acc
  | String a rest =>
      match Ascii.is_nat a with
      | Some d => digits_value (10 * acc + Z.of_nat d)%Z rest
      | None => None
      end
  end.

Fixpoint split_point (s : string) : string * option string :=
  match s with
  | "" => ("", None)
  | String a rest =>
      if Ascii.eqb a "." then ("", Some rest)
      else let '(i, f) := split_point rest in (String a i, f)
  end.

Definition unsigned_decimal (s : string) : option Q :=
  let '(i, f) := split_point s in
  let f := match f with Some f => f | None => "" end in
  match i, f with
  | "", "" => None
  | _, _ =>
      match digits_value 0 i, digits_value 0 f with
      | Some iv, Some fv =>
          let scale := (10 ^ Z.of_nat (String.length f))%Z in
          Some (Qmake (iv * scale + fv) (Z.to_pos scale))
      | _, _ => None
      end
  end.

Definition float_of_decimal (s : string) : option Q :=
  match s with
  | String "-" rest => option_map Qopp (unsigned_decimal rest)
  | String "+" rest => unsigned_decimal rest
  | _ => unsigned_decimal s
  end.

End Str.

(** ** The real-time runner: gesture switching and pose synthesis *)

Module Runner.

Inductive exn : Type :=
| FileNotFoundError
| ValueError.

(** How a call ends: with a value, or with a raised exception. *)
Inductive outcome (A : Type) : Type :=
| Returns (a : A)
| Raises (e : exn).
Arguments Returns {A} a.
Arguments Raises {A} e.

(** The attributes of [RealTimeRunner] that describe the active gesture. *)
Record RealTimeRunner : Type := mkRunner {
  category : string;
  curr_type : string;
  open_pos : list Q;
  close_pos : list Q
}.

(** [finger_ratios], the dictionary the detector publishes. *)
Record ratios : Type := mkRatios {
  thumb : Q; index : Q; middle : Q; ring : Q; pinky : Q
}.

Section Files.

(** [float(text)]: [None] when Python raises [ValueError]. *)
Variable float : string -> option Q.

(** The gesture library on disk: the lines of each file that can be opened
    and read as text, by path relative to the directory of the script. *)
Variable files : gmap string (list string).

(** [parse_line] of [load_type]. *)
Definition parse_line (line : string) : outcome (list Q) :=
  let line := Str.strip_chars "[]" (Str.strip line) in
  let parts :=
    List.filter (fun p => negb (String.eqb p ""))
                (Str.split (Str.replace_char "," " " line)) in
  match mapM float parts with
  | None => Raises ValueError
  | Some vals =>
      if negb (length vals =? 16)%nat then Raises ValueError
      else Returns vals
  end.

(** [_decode_saved] of [load_type], on the rationals. *)
Definition _decode_saved (vec : list Q) : outcome (list Q) :=
  match Codec._decode_saved 0 Qplus Codec.offsetQ vec with
  | Some pos => Returns pos
  | None => Raises ValueError
  end.

(** [os.path.join(current_dir, "TypeLibrary", category, type_name + ".txt")],
    relative to [current_dir]. *)
Definition type_file (category type_name : string) : string :=
  ("TypeLibrary/" ++ category ++ "/" ++ type_name ++ ".txt")%string.

(** [f.readline()] for the [n]-th call: the empty string at end of file. *)
Definition readline (lines : list string) (n : nat) : string :=
  nth n lines ""%string.

(** [RealTimeRunner.load_type]. *)
Definition load_type (r : RealTimeRunner) (type_name : string)
  : outcome (list Q * list Q) :=
  match files !! type_file (category r) type_name with
  | None => Raises FileNotFoundError
  | Some lines =>
      match parse_line (readline lines 0) with
      | Raises e => Raises e
      | Returns v0 =>
          match _decode_saved v0 with
          | Raises e => Raises e
          | Returns open_abs =>
              match parse_line (readline lines 1) with
              | Raises e => Raises e
              | Returns v1 =>
                  match _decode_saved v1 with
                  | Raises e => Raises e
                  | Returns close_abs => Returns (open_abs, close_abs)
                  end
              end
          end
      end
  end.

(** [RealTimeRunner.change_type]: the name is stored first, then the poses
    are loaded; an exception of [load_type] leaves the assignment of the
    poses undone. *)
Definition change_type (r : RealTimeRunner) (new_type : string)
  : RealTimeRunner * outcome unit :=
  let r1 := mkRunner (category r) new_type (open_pos r) (close_pos r) in
  match load_type r1 (curr_type r1) with
  | Returns (o, c) => (mkRunner (category r1) (curr_type r1) o c, Returns tt)
  | Raises e => (r1, Raises e)
  end.

(** Step 1 of [main_loop] for a non-empty [new_query]: a query that starts
    with ["/"] switches directly; when that raises, the error is printed
    and the query is passed on to the retriever like any other. The second
    component is what [retriever.retrieve] is called with, if it is. *)
Definition on_query (r : RealTimeRunner) (new_query : string)
  : RealTimeRunner * option string :=
  if String.prefix "/" new_query then
    match change_type r (Str.tail new_query) with
    | (r', Returns _) => (r', None)
    | (r', Raises _) => (r', Some new_query)
    end
  else (r, Some new_query).

End Files.

(** *** Pose synthesis, step 3 of [main_loop] *)

Definition thumb_mask : list Q := repeat 0 12 ++ repeat 1 4.
Definition index_mask : list Q := repeat 1 4 ++ repeat 0 12.
Definition middle_mask : list Q := repeat 0 4 ++ repeat 1 4 ++ repeat 0 8.
Definition ring_mask : list Q := repeat 0 8 ++ repeat 1 4 ++ repeat 0 4.

(** numpy's element-wise operations. *)
Definition times_scalar (a : list Q) (k : Q) : list Q := map (fun x => x * k) a.
Definition vadd (a b : list Q) : list Q := zip_with Qplus a b.
Definition vmul (a b : list Q) : list Q := zip_with Qmult a b.

(** [open_pos * (1 - ratio[d]) + close_pos * ratio[d]]. *)
Definition blend (open close : list Q) (r : Q) : list Q :=
  vadd (times_scalar open (1 - r)) (times_scalar close r).

Definition type_pos (open close : list Q) (ratio : ratios) : list Q :=
  vadd (vadd (vadd (vmul (blend open close (thumb ratio)) thumb_mask)
                   (vmul (blend open close (index ratio)) index_mask))
             (vmul (blend open close (middle ratio)) middle_mask))
       (vmul (blend open close (ring ratio)) ring_mask).

(** The ratio of the digit group a joint belongs to: joints 0-3 index,
    4-7 middle, 8-11 ring, 12-15 thumb. *)
Definition group_ratio (ratio : ratios) (j : nat) : Q :=
  if (j <? 4)%nat then index ratio
  else if (j <? 8)%nat then middle ratio
  else if (j <? 12)%nat then ring ratio
  else thumb ratio.

(** A library with the recorded gesture [box] only. *)
Definition box_line : string :=
  "0.1 0.2 0.3 0.4 0.5 0.6 0.7 0.8 0.9 1.0 1.1 1.2 1.3 1.4 1.5 1.6".
Definition box_library : gmap string (list string) :=
  {[ "TypeLibrary/leap/box.txt"%string := [box_line; box_line] ]}.

(** The runner after [__init__] has loaded [box]. *)
Definition box_runner : RealTimeRunner :=
  match load_type Str.float_of_decimal box_library (mkRunner "leap" "box" [] []) "box" with
  | Returns (o, c) => mkRunner "leap" "box" o c
  | Raises _ => mkRunner "leap" "box" [] []
  end.

Ltac joint_case :=
  simpl; do 3 eexists;
  (split; [reflexivity|]); (split; [reflexivity|]); (split; [reflexivity|]);
  unfold group_ratio; simpl; ring.

Lemma box_runner_loaded :
  curr_type box_runner = "box"%string /\ length (open_pos box_runner) = 16%nat.
Proof. vm_compute. split; reflexivity. Qed.

(** C2 (what the code does). When [load_type] raises for the requested
    gesture (file missing, or a line that does not parse to exactly 16
    floats), [change_type] raises too and leaves the open and close poses as
    they were, but [curr_type] already holds the requested name. *)
Theorem change_type_failure_keeps_poses_not_name
    (float : string -> option Q) (files : gmap string (list string))
    (r : RealTimeRunner) (new_type : string) (e : exn) :
  load_type float files r new_type = Raises e ->
  change_type float files r new_type =
    (mkRunner (category r) new_type (open_pos r) (close_pos r), Raises e).
Proof.
  intros Hload. unfold change_type. simpl.
  replace (load_type float files
             (mkRunner (category r) new_type (open_pos r) (close_pos r)) new_type)
    with (load_type float files r new_type) by reflexivity.
  now rewrite Hload.
Qed.

Lemma change_type_failure_keeps_poses_not_name_witness :
  load_type Str.float_of_decimal box_library box_runner "cup" = Raises FileNotFoundError /\
  change_type Str.float_of_decimal box_library box_runner "cup" =
    (mkRunner (category box_runner) "cup" (open_pos box_runner) (close_pos box_runner),
     Raises FileNotFoundError).
Proof.
  assert (H : load_type Str.float_of_decimal box_library box_runner "cup"
              = Raises FileNotFoundError) by (vm_compute; reflexivity).
  split; [exact H|].
  exact (change_type_failure_keeps_poses_not_name Str.float_of_decimal box_library
           box_runner "cup" FileNotFoundError H).
Defined.

(** The active gesture name after the rejected switch ["/cup"] in the main
    loop: no longer [box], although the poses are still those of [box]. *)
Lemma rejected_switch_renames :
  let r' := fst (on_query Str.float_of_decimal box_library box_runner "/cup") in
  curr_type box_runner = "box"%string /\
  curr_type r' = "cup"%string /\
  open_pos r' = open_pos box_runner /\ close_pos r' = close_pos box_runner /\
  snd (on_query Str.float_of_decimal box_library box_runner "/cup") = Some "/cup"%string.
Proof. vm_compute. repeat split; reflexivity. Qed.

(** A file whose second line has 15 numbers is rejected in the same way. *)
Lemma short_line_rejected :
  let files : gmap string (list string) :=
    <[ "TypeLibrary/leap/cup.txt"%string :=
         [box_line; "0.1 0.2 0.3 0.4 0.5 0.6 0.7 0.8 0.9 1.0 1.1 1.2 1.3 1.4 1.5"%string] ]>
      box_library in
  load_type Str.float_of_decimal files box_runner "cup" = Raises ValueError /\
  curr_type (fst (change_type Str.float_of_decimal files box_runner "cup")) = "cup"%string.
Proof. vm_compute. split; reflexivity. Qed.

(** C8. With 16-entry open and close poses, every joint [j] of the
    synthesized pose is the linear interpolation
    [open_j * (1 - r) + close_j * r] with [r] the flexion ratio of the digit
    group of [j]; with open all 0, close all 1 and ratios thumb 1, others 0,
    the pose is 1 on the thumb joints (12-15) and 0 on all other joints. *)
Theorem type_pos_interpolates (open close : list Q) (ratio : ratios) (j : nat) :
  length open = 16%nat -> length close = 16%nat -> (j < 16)%nat ->
  (exists v o c,
      type_pos open close ratio !! j = Some v /\
      open !! j = Some o /\ close !! j = Some c /\
      v == o * (1 - group_ratio ratio j) + c * group_ratio ratio j) /\
  length (type_pos open close ratio) = 16%nat /\
  Forall2 Qeq (type_pos (repeat 0 16) (repeat 1 16) (mkRatios 1 0 0 0 0))
              (repeat 0 12 ++ repeat 1 4).
Proof.
  intros Ho Hc Hj.
  apply Codec.length_16_inv in Ho.
  destruct Ho as (o0&o1&o2&o3&o4&o5&o6&o7&o8&o9&o10&o11&o12&o13&o14&o15&->).
  apply Codec.length_16_inv in Hc.
  destruct Hc as (c0&c1&c2&c3&c4&c5&c6&c7&c8&c9&c10&c11&c12&c13&c14&c15&->).
  split; [|split].
  - do 16 (destruct j as [|j]; [joint_case|]). lia.
  - reflexivity.
  - vm_compute. repeat constructor.
Qed.

Lemma type_pos_interpolates_witness :
  (exists v o c,
      type_pos (open_pos box_runner) (close_pos box_runner)
               (mkRatios (1 # 2) (1 # 4) 0 1 (1 # 3)) !! 13%nat = Some v /\
      open_pos box_runner !! 13%nat = Some o /\ close_pos box_runner !! 13%nat = Some c /\
      v == o * (1 - group_ratio (mkRatios (1 # 2) (1 # 4) 0 1 (1 # 3)) 13)
           + c * group_ratio (mkRatios (1 # 2) (1 # 4) 0 1 (1 # 3)) 13) /\
  length (type_pos (open_pos box_runner) (close_pos box_runner)
                   (mkRatios (1 # 2) (1 # 4) 0 1 (1 # 3))) = 16%nat /\
  Forall2 Qeq (type_pos (repeat 0 16) (repeat 1 16) (mkRatios 1 0 0 0 0))
              (repeat 0 12 ++ repeat 1 4).
Proof.
  apply (type_pos_interpolates (open_pos box_runner) (close_pos box_runner)
           (mkRatios (1 # 2) (1 # 4) 0 1 (1 # 3)) 13).
  - vm_compute. reflexivity.
  - vm_compute. reflexivity.
  - lia.
Defined.

End Runner.

(** ** [difflib.SequenceMatcher(None, a, b).ratio()]

    Python's standard library, not code of the repository: the
    Ratcliff-Obershelp similarity without junk, for second arguments shorter
    than 200 characters (below the "autojunk" limit).  The retriever is
    verified for an arbitrary similarity function; this one serves the
    worked examples. *)

Module Difflib.

Fixpoint common_prefix (a b : list ascii) : nat :=
  match a, b with
  | x :: a', y :: b' => if Ascii.eqb x y then S (common_prefix a' b') else O
  | _, _ => O
  end.

(** The longest block of [b] that matches a prefix of [a]: position in [b]
    and size; the earliest one among the longest. *)
Fixpoint best_in_b (a b : list ascii) (j : nat) (best : nat * nat) : nat * nat :=
  match b with
  | [] => best
  | _ :: b' =>
      let k := common_prefix a b in
      best_in_b a b' (S j) (if (snd best <? k)%nat then (j, k) else best)
  end.

(** [find_longest_match]: start in [a], start in [b], size; the block that
    starts earliest in [a], then earliest in [b], among the longest. *)
Fixpoint best_in_a (a b : list ascii) (i : nat) (best : nat * nat * nat)
  : nat * nat * nat :=
  match a with
  | [] => best
  | _ :: a' =>
      let '(j, k) := best_in_b a b 0 (O, O) in
      best_in_a a' b (S i) (if (snd best <? k)%nat then (i, j, k) else best)
  end.

Definition find_longest_match (a b : list ascii) : nat * nat * nat :=
  best_in_a a b 0 (O, O, O).

(** The total size of [get_matching_blocks]: the longest match, then the
    same to its left and to its right. *)
Fixpoint matches (fuel : nat) (a b : list ascii) : nat :=
  match fuel with
  | O => O
  | S fuel' =>
      let '(i, j, k) := find_longest_match a b in
      if (k =? 0)%nat then O
      else (k + matches fuel' (firstn i a) (firstn j b)
              + matches fuel' (skipn (i + k) a) (skipn (j + k) b))%nat
  end.

(** [ratio]: [2.0 * matches / (len(a) + len(b))], and 1.0 for two empty
    strings. *)
Definition ratio (a b : string) : Q :=
  let la := list_ascii_of_string a in
  let lb := list_ascii_of_string b in
  let total := (length la + length lb)%nat in
  if (total =? 0)%nat then 1
  else 2 * inject_Z (Z.of_nat (matches (S (length la)) la lb))
       / inject_Z (Z.of_nat total).

End Difflib.

(** ** Gesture retrieval: [Retrieve._local_score], [_local_retrieve], [_retrieve] *)

Module Retrieve.

(** A key of a catalog entry (a JSON object): missing, [null], or a
    string. *)
Inductive field : Type :=
| Absent
| Null
| Str (s : string).

(** [t.get(key)]. *)
Definition get (f : field) : option string :=
  match f with
  | Str s => Some s
  | _ => None
  end.

(** [key in t]. *)
Definition has_key (f : field) : bool :=
  match f with
  | Absent => false
  | _ => true
  end.

(** [x or ''] for a string or [None]. *)
Definition or_empty (x : option string) : string :=
  match x with
  | Some s => s
  | None => ""%string
  end.

(** Python's truth value of a string or [None]. *)
Definition truthy (x : option string) : bool :=
  match x with
  | Some s => negb (String.eqb s "")
  | None => false
  end.

(** [str(x)] inside an f-string. *)
Definition to_str (x : option string) : string :=
  match x with
  | Some s => s
  | None => "None"%string
  end.

(** An entry of [_type_info.json]; [intents] is a list of strings when
    present. *)
Record gesture : Type := mkGesture {
  g_id : field;
  g_name : field;
  g_usage : field;
  g_pose : field;
  g_intents : option (list string)
}.

(** The attributes [type_files] and [types] of [Retrieve]. *)
Record retriever : Type := mkRetriever {
  type_files : list (option string);
  types : list gesture
}.

(** [Retrieve.__init__]. *)
Definition init : retriever := mkRetriever [] [].

(** [[t.get('id') for t in self.types if 'id' in t]]. *)
Definition ids_of (ts : list gesture) : list (option string) :=
  map (fun t => get (g_id t)) (List.filter (fun t => has_key (g_id t)) ts).

Definition ends_with (suffix s : string) : bool :=
  String.prefix (String.rev suffix) (String.rev s).

(** [f[:-4]]. *)
Definition drop_last4 (s : string) : string :=
  String.rev (Str.tail (Str.tail (Str.tail (Str.tail (String.rev s))))).

(** [load_type_library]: [data] is the list read from [_type_info.json]
    when that file exists and holds a list, [listing] is [os.listdir] of the
    library directory. *)
Definition load_type_library (data : option (list gesture)) (listing : list string)
  : retriever :=
  match data with
  | Some ts => mkRetriever (ids_of ts) ts
  | None =>
      let names := map drop_last4 (List.filter (ends_with ".txt") listing) in
      mkRetriever (map Some names)
                  (map (fun name => mkGesture (Str name) Absent Absent Absent None) names)
  end.

(** What holds of a retriever once the library is loaded (and before). *)
Definition loaded (st : retriever) : Prop := type_files st = ids_of (types st).

Section Scoring.

(** [difflib.SequenceMatcher(None, a, b).ratio()]. *)
Variable ratio : string -> string -> Q.

Definition bonus_intent_of (q : string) (intents : list string) : Q :=
  Qmin (fold_left
          (fun acc it =>
             if negb (String.eqb it "") && Str.contains (Str.lower it) q
             then acc + 0.1 else acc)
          intents 0)
       0.3.

(** [_local_score]; the floats of the code are exact rationals here. *)
Definition _local_score (query : string) (g : gesture) : Q :=
  let q := Str.strip (Str.lower query) in
  let gid := or_empty (get (g_id g)) in
  let name := or_empty (get (g_name g)) in
  let usage := or_empty (get (g_usage g)) in
  let intents := match g_intents g with Some l => l | None => [] end in
  let base := ratio q gid in
  let bonus_name :=
    if negb (String.eqb name "") && Str.contains name q then 0.15 else 0 in
  let bonus_intent := bonus_intent_of q intents in
  let tokens := Str.findall_letters (Str.lower usage) in
  let token_hit :=
    length (List.filter (fun t => (3 <? String.length t)%nat && Str.contains t q) tokens) in
  let bonus_usage := Qmin (inject_Z (Z.of_nat token_hit) * 0.05) 0.15 in
  base + bonus_name + bonus_intent + bonus_usage.

Definition _local_retrieve (st : retriever) (query : string) : option string * Q :=
  fold_left
    (fun '(best, best_score) g =>
       let s := _local_score query g in
       if Qltb best_score s then (get (g_id g), s) else (best, best_score))
    (types st) (None, 0).

Definition newline : string := String "010"%char "".

(** The line of the catalog summary for one entry. *)
Definition brief_line (t : gesture) : string :=
  let intents :=
    match g_intents t with
    | Some l => Str.join "," (firstn 3 l)
    | None => ""%string
    end in
  let pose :=
    match g_pose t with
    | Absent => ""%string
    | Null => "None"%string
    | Str s => s
    end in
  (to_str (get (g_id t)) ++ ": " ++ pose ++ "; intents=" ++ intents)%string.

Definition prompt_of (st : retriever) (query : string) : string :=
  let catalog := Str.join newline (map brief_line (types st)) in
  ("You are a gesture type selector. Given a natural language user query (maybe noisy ASR). "
   ++ "Choose the best gesture id from the catalog. If nothing fits, answer None. Just output the id or None."
   ++ newline ++ "Catalog:" ++ newline ++ catalog ++ newline
   ++ "Query: " ++ query ++ newline ++ "Answer:")%string.

(** The chat-completions call: the text of the first choice for a prompt,
    or [None] when anything inside the [try] raises. *)
Variable llm : string -> option string.

(** [candidate in self.type_files]. *)
Definition known (candidate : option string) (st : retriever) : bool :=
  bool_decide (candidate ∈ type_files st).

(** [Retrieve._retrieve]: the value returned, and the prompts sent to the
    classifier on the way. *)
Definition _retrieve (st : retriever) (query : string) : option string * list string :=
  match type_files st with
  | [] => (None, [])
  | _ :: _ =>
      let '(local_id, score) := _local_retrieve st query in
      if truthy local_id && Qle_bool 0.75 score then (local_id, [])
      else
        let prompt := prompt_of st query in
        let candidate := option_map Str.strip (llm prompt) in
        if known candidate st then (candidate, [prompt])
        else if truthy local_id && Qle_bool 0.55 score then (local_id, [prompt])
        else (None, [prompt])
  end.

End Scoring.

(** The fallback rule as the specification words it. *)
Definition fallback_rule (ratio : string -> string -> Q) : Prop :=
  forall (llm : string -> option string) (st : retriever) (query : string)
         (best : option string) (score : Q),
    loaded st ->
    _local_retrieve ratio st query = (best, score) ->
    score < 0.75 ->
    let candidate := option_map Str.strip (llm (prompt_of st query)) in
    snd (_retrieve ratio llm st query) <> [] /\
    fst (_retrieve ratio llm st query) =
      (if known candidate st then candidate
       else if Qle_bool 0.55 score then best else None).

(** A library directory with two gesture files. *)
Definition two_gestures : retriever :=
  load_type_library None ["box.txt"; "cup.txt"; "notes.md"]%string.

Lemma init_loaded : loaded init.
Proof. reflexivity. Qed.

Lemma load_type_library_loaded data listing : loaded (load_type_library data listing).
Proof.
  unfold loaded, load_type_library. destruct data as [ts|]; simpl; [reflexivity|].
  induction (map drop_last4 (List.filter (ends_with ".txt") listing)) as [|n ns IH];
    simpl; [reflexivity|].
  unfold ids_of in *. simpl. now f_equal.
Qed.

Section ScoringFacts.

Variable ratio : string -> string -> Q.

(** The best id comes from an entry of the catalog. *)
Lemma _local_retrieve_best_in (query : string) (ts done : list gesture) : forall best best_score,
  (forall lid, best = Some lid -> exists g, In g done /\ g_id g = Str lid) ->
  forall lid sc,
    fold_left
      (fun '(best, best_score) g =>
         let s := _local_score ratio query g in
         if Qltb best_score s then (get (g_id g), s) else (best, best_score))
      ts (best, best_score) = (Some lid, sc) ->
    exists g, In g (done ++ ts) /\ g_id g = Str lid.
Proof.
  revert done. induction ts as [|t ts IH]; intros done best best_score Hinv lid sc Hfold.
  - simpl in Hfold. injection Hfold as -> _. rewrite app_nil_r. now apply Hinv.
  - simpl in Hfold.
    replace (done ++ t :: ts) with ((done ++ [t]) ++ ts) by now rewrite <- app_assoc.
    destruct (Qltb best_score (_local_score ratio query t)).
    + apply (IH (done ++ [t]) _ _) with (sc := sc) (2 := Hfold).
      intros l Hl. exists t. split; [apply in_or_app; right; now left|].
      destruct (g_id t); simpl in Hl; congruence.
    + apply (IH (done ++ [t]) _ _) with (sc := sc) (2 := Hfold).
      intros l Hl. destruct (Hinv l Hl) as (g & Hg & Hid).
      exists g. split; [apply in_or_app; now left | exact Hid].
Qed.

Lemma _local_retrieve_in_catalog (st : retriever) (query lid : string) (sc : Q) :
  _local_retrieve ratio st query = (Some lid, sc) ->
  exists g, In g (types st) /\ g_id g = Str lid.
Proof.
  intros H. unfold _local_retrieve in H.
  apply (_local_retrieve_best_in query (types st) [] None 0) with (sc := sc) in H.
  - exact H.
  - intros l Hl. discriminate Hl.
Qed.

Lemma ids_of_nonempty (ts : list gesture) g lid :
  In g ts -> g_id g = Str lid -> ids_of ts <> [].
Proof.
  intros Hin Hid. induction ts as [|t ts IH]; [inversion Hin|].
  unfold ids_of. simpl. destruct Hin as [-> | Hin].
  - rewrite Hid. simpl. discriminate.
  - destruct (has_key (g_id t)); simpl; [discriminate | now apply IH].
Qed.

Lemma truthy_nonempty lid : lid <> ""%string -> truthy (Some lid) = true.
Proof.
  intros H. simpl. apply negb_true_iff. now apply String.eqb_neq.
Qed.

Lemma _retrieve_empty_catalog (llm : string -> option string) (st : retriever) (query : string) :
  type_files st = [] -> _retrieve ratio llm st query = (None, []).
Proof. intros H. unfold _retrieve. now rewrite H. Qed.

End ScoringFacts.

(** With a best id that is a non-empty string and a score of at least
    0.75, [_retrieve] returns that id and sends nothing to the classifier. *)
Lemma _retrieve_confident_id
    (ratio : string -> string -> Q) (llm : string -> option string)
    (st : retriever) (query lid : string) (score : Q) :
  loaded st ->
  _local_retrieve ratio st query = (Some lid, score) ->
  lid <> ""%string ->
  0.75 <= score ->
  _retrieve ratio llm st query = (Some lid, []).
Proof.
  intros Hloaded Hloc Hlid Hscore.
  destruct (_local_retrieve_in_catalog ratio st query lid score Hloc) as (g & Hin & Hid).
  pose proof (ids_of_nonempty (types st) g lid Hin Hid) as Hne.
  rewrite <- Hloaded in Hne.
  unfold _retrieve. destruct (type_files st) as [|f fs]; [congruence|].
  rewrite Hloc, truthy_nonempty by exact Hlid.
  apply Qle_bool_iff in Hscore. now rewrite Hscore.
Qed.

(** C5 (as the code has it). For every query whose best local score is
    below 0.75: with an empty id list [_retrieve] returns [None] without
    consulting the classifier; otherwise it sends exactly one prompt, a
    classifier failure counting as no answer, and returns the (stripped)
    answer if that is one of the known ids, else the local best id if that
    is non-empty and its score is at least 0.55, else [None].  In
    particular, with a score below 0.55 an answer that is not a known id, or
    a failure, gives [None]. *)
Theorem low_confidence_consults_classifier
    (ratio : string -> string -> Q) (llm : string -> option string)
    (st : retriever) (query : string) (best : option string) (score : Q) :
  _local_retrieve ratio st query = (best, score) ->
  score < 0.75 ->
  let prompt := prompt_of st query in
  let candidate := option_map Str.strip (llm prompt) in
  _retrieve ratio llm st query =
    match type_files st with
    | [] => (None, [])
    | _ :: _ =>
        (if known candidate st then candidate
         else if truthy best && Qle_bool 0.55 score then best
         else None,
         [prompt])
    end /\
  (score < 0.55 ->
   known candidate st = false \/ llm prompt = None ->
   fst (_retrieve ratio llm st query) = None).
Proof.
  intros Hloc Hscore prompt candidate.
  assert (Hhigh : Qle_bool 0.75 score = false) by now apply Qle_bool_false.
  assert (Heq : _retrieve ratio llm st query =
    match type_files st with
    | [] => (None, [])
    | _ :: _ =>
        (if known candidate st then candidate
         else if truthy best && Qle_bool 0.55 score then best
         else None,
         [prompt])
    end).
  { unfold _retrieve. destruct (type_files st) as [|f fs]; [reflexivity|].
    rewrite Hloc, Hhigh, andb_false_r.
    fold prompt. fold candidate.
    destruct (known candidate st); [reflexivity|].
    destruct (truthy best && Qle_bool 0.55 score); reflexivity. }
  split; [exact Heq|].
  intros Hlow Hans. rewrite Heq.
  destruct (type_files st) as [|f fs] eqn:Hfiles; [reflexivity|]. simpl.
  assert (Hmid : Qle_bool 0.55 score = false) by now apply Qle_bool_false.
  rewrite Hmid, andb_false_r.
  destruct Hans as [Hunknown | Hfail].
  - now rewrite Hunknown.
  - subst candidate. rewrite Hfail. simpl. now destruct (known None st).
Qed.

Lemma low_confidence_consults_classifier_witness :
  let llm := fun _ : string => Some " cup "%string in
  _retrieve Difflib.ratio llm two_gestures "grab it" =
    (Some "cup"%string, [prompt_of two_gestures "grab it"]) /\
  fst (_retrieve Difflib.ratio (fun _ => Some "none"%string) two_gestures "grab it") = None.
Proof.
  set (best := fst (_local_retrieve Difflib.ratio two_gestures "grab it")).
  set (score := snd (_local_retrieve Difflib.ratio two_gestures "grab it")).
  assert (Hloc : _local_retrieve Difflib.ratio two_gestures "grab it" = (best, score))
    by apply surjective_pairing.
  assert (Hlow : score < 0.55) by (apply Qltb_true; vm_compute; reflexivity).
  assert (Hscore : score < 0.75) by (apply Qltb_true; vm_compute; reflexivity).
  split.
  - exact (proj1 (low_confidence_consults_classifier Difflib.ratio
                    (fun _ => Some " cup "%string) two_gestures "grab it" best score
                    Hloc Hscore)).
  - apply (proj2 (low_confidence_consults_classifier Difflib.ratio
                    (fun _ => Some "none"%string) two_gestures "grab it" best score
                    Hloc Hscore) Hlow).
    left. vm_compute. reflexivity.
Defined.

(** C5 (as the specification words it) fails: with no gesture files at all
    the classifier is not consulted. *)
Lemma fallback_rule_fails : ~ fallback_rule Difflib.ratio.
Proof.
  intros H.
  destruct (H (fun _ => None) init "box"%string None 0) as [Hcalls _].
  - apply init_loaded.
  - reflexivity.
  - reflexivity.
  - apply Hcalls. reflexivity.
Qed.

End Retrieve.

(** ** The hand driver and its free-drag mode: [LeapNode] *)

Module LeapNode.

(** What [dxl_client] is asked to send to the motors. *)
Inductive write : Type :=
| SyncWrite (motors : list nat) (values : list Q) (address size : nat)
| WriteDesiredPos (motors : list nat) (positions : list Q).

(** The attributes of [LeapNode].  [bus] is every write issued through
    [dxl_client], oldest first; [workers] counts the live threads that run
    [_update_goal_pos_loop] and [loop_time] is the local variable of that
    loop. *)
Record node : Type := mkNode {
  curr_lim : Q;
  original_curr_lim : Q;
  free_drag_active : bool;
  free_drag_thread : bool;      (* [True]: a thread object, [False]: [None] *)
  curr_pos : list Q;
  filtered_current : list Q;
  bus : list write;
  workers : nat;
  loop_time : Q
}.

Definition motors : list nat := seq 0 16.

(** [np.ones(len(motors)) * x]. *)
Definition ones_times (ms : list nat) (x : Q) : list Q := repeat x (length ms).

(** [LeapNode.__init__] for [cfg] values [curr_lim], [kP], [kI], [kD] and
    the initial pose. *)
Definition init (lim kP kI kD : Q) (init_pos : list Q) : node :=
  mkNode lim lim false false init_pos []
    [ SyncWrite motors (ones_times motors 5) 11 1;
      SyncWrite motors (ones_times motors kP) 84 2;
      SyncWrite [0; 4; 8]%nat (ones_times [0; 4; 8]%nat (kP * 0.75)) 84 2;
      SyncWrite motors (ones_times motors kI) 82 2;
      SyncWrite motors (ones_times motors kD) 80 2;
      SyncWrite [0; 4; 8]%nat (ones_times [0; 4; 8]%nat (kD * 0.75)) 80 2;
      SyncWrite motors (ones_times motors lim) 102 2;
      WriteDesiredPos motors init_pos ]
    0 0.

Definition send (n : node) (w : write) : node :=
  mkNode (curr_lim n) (original_curr_lim n) (free_drag_active n) (free_drag_thread n)
    (curr_pos n) (filtered_current n) (bus n ++ [w]) (workers n) (loop_time n).

(** [set_leap]. *)
Definition set_leap (n : node) (pose : list Q) : node :=
  mkNode (curr_lim n) (original_curr_lim n) (free_drag_active n) (free_drag_thread n)
    pose (filtered_current n) (bus n ++ [WriteDesiredPos motors pose]) (workers n)
    (loop_time n).

(** [enable_free_drag_mode]; [cur] is what [read_cur] returns.  Starting
    the thread adds a worker, whose [loop_time] starts at 0. *)
Definition enable_free_drag_mode (n : node) (cur : list Q) : node :=
  if free_drag_active n then n
  else
    mkNode 30 (curr_lim n) true true (curr_pos n) cur
      (bus n ++ [SyncWrite motors (ones_times motors 30) 102 2])
      (S (workers n)) 0.

(** [disable_free_drag_mode]; [current_pos] is what [read_pos] returns
    after the join.  The worker leaves its loop once the flag is down, so
    the join ends with one worker less. *)
Definition disable_free_drag_mode (n : node) (current_pos : list Q) : node :=
  if negb (free_drag_active n) then n
  else
    let workers' := if free_drag_thread n then pred (workers n) else workers n in
    mkNode (original_curr_lim n) (original_curr_lim n) false false
      (curr_pos n) (filtered_current n)
      (bus n ++ [SyncWrite motors (ones_times motors (original_curr_lim n)) 102 2;
                 WriteDesiredPos motors current_pos])
      workers' (loop_time n).

Definition thresholds : list Q := repeat 0.05 16.

Definition at_joint (a : list Q) (i : nat) : Q := nth i a 0.

(** The [for i in range(16)] loop that fills [delta_pos]. *)
Definition delta_pos (pos_error current_vel : list Q) (lt : Q) : list Q :=
  map (fun i =>
         if Qltb (at_joint thresholds i + 0.05) (at_joint pos_error i)
         then at_joint current_vel i * lt * 5
         else at_joint current_vel i * lt)
      (seq 0 16).

(** One pass through the body of the [while] loop: [current_pos] and
    [current_vel] are the readings, [elapsed] is [end_time - start_time]. *)
Definition goal_pos_cycle (n : node) (current_pos current_vel : list Q) (elapsed : Q)
  : node :=
  let pos_error := zip_with Qminus current_pos (curr_pos n) in
  let delta := delta_pos pos_error current_vel (loop_time n) in
  let new_target_pos := zip_with Qplus current_pos delta in
  let pos_diff := map Qabs (zip_with Qminus new_target_pos (curr_pos n)) in
  let update_mask := zip_with (fun d t => Qltb t d) pos_diff thresholds in
  let updated_positions :=
    zip_with (fun (m : bool) (tc : Q * Q) => if m then fst tc else snd tc)
             update_mask (zip new_target_pos (curr_pos n)) in
  mkNode (curr_lim n) (original_curr_lim n) (free_drag_active n) (free_drag_thread n)
    updated_positions (filtered_current n)
    (bus n ++ [WriteDesiredPos motors updated_positions]) (workers n) elapsed.

(** What happens to a node: calls from the owning thread and passes of the
    worker's loop, which take place only while a worker is alive and the
    flag is up. *)
Inductive event : Type :=
| Enable (cur : list Q)
| Disable (current_pos : list Q)
| Cycle (current_pos current_vel : list Q) (elapsed : Q)
| SetLeap (pose : list Q).

Definition step (n : node) (e : event) : node :=
  match e with
  | Enable cur => enable_free_drag_mode n cur
  | Disable p => disable_free_drag_mode n p
  | Cycle p v t =>
      if free_drag_active n && (0 <? workers n)%nat then goal_pos_cycle n p v t else n
  | SetLeap pose => set_leap n pose
  end.

Definition run (n : node) (events : list event) : node := fold_left step events n.

(** The current limit the motors hold: the values of the latest write to
    address 102. *)
Fixpoint torque_limit (b : list write) : option (list Q) :=
  match b with
  | [] => None
  | w :: rest =>
      match torque_limit rest with
      | Some v => Some v
      | None =>
          match w with
          | SyncWrite _ values address _ =>
              if (address =? 102)%nat then Some values else None
          | WriteDesiredPos _ _ => None
          end
      end
  end.

Definition is_disable (e : event) : bool :=
  match e with
  | Disable _ => true
  | _ => false
  end.

(** A stretch of events without a call of [disable_free_drag_mode]. *)
Definition no_disable (events : list event) : bool :=
  forallb (fun e => negb (is_disable e)) events.

(** What every node built by [init] and driven by events satisfies. *)
Definition consistent (n : node) : Prop :=
  torque_limit (bus n) = Some (ones_times motors (curr_lim n)) /\
  workers n = (if free_drag_active n then 1 else 0)%nat /\
  free_drag_thread n = free_drag_active n /\
  (free_drag_active n = true -> curr_lim n = 30).

(** While free-drag mode is on and nobody calls [disable], the mode, the
    limits, the worker and the current limit of the motors stay put. *)
Definition same_mode (a b : node) : Prop :=
  curr_lim a = curr_lim b /\ original_curr_lim a = original_curr_lim b /\
  free_drag_active a = free_drag_active b /\ free_drag_thread a = free_drag_thread b /\
  workers a = workers b /\ torque_limit (bus a) = torque_limit (bus b).

(** The hand as [run_leap] configures it, posed by hand for two passes of
    the loop. *)
Definition rest_pose : list Q := repeat 3.14159 16.
Definition dragged_pose : list Q := repeat 3.4 16.
Definition drag_events : list event :=
  [Cycle dragged_pose (repeat 2 16) 0.01; Cycle dragged_pose (repeat 0 16) 0.01].

Lemma torque_limit_app (b1 b2 : list write) :
  torque_limit (b1 ++ b2) =
  match torque_limit b2 with
  | Some v => Some v
  | None => torque_limit b1
  end.
Proof.
  induction b1 as [|w b1 IH]; simpl.
  - now destruct (torque_limit b2).
  - rewrite IH. now destruct (torque_limit b2).
Qed.

Lemma consistent_init lim kP kI kD init_pos : consistent (init lim kP kI kD init_pos).
Proof.
  unfold consistent; simpl. repeat split. discriminate.
Qed.

Lemma consistent_step n e : consistent n -> consistent (step n e).
Proof.
  intros Hn. pose proof Hn as (Hlim & Hw & Hth & H30).
  destruct e as [cur | p | p v t | pose]; simpl.
  - unfold enable_free_drag_mode.
    destruct (free_drag_active n) eqn:Ha; [exact Hn|].
    unfold consistent; simpl. rewrite torque_limit_app; simpl.
    rewrite Hw. repeat split.
  - unfold disable_free_drag_mode.
    destruct (free_drag_active n) eqn:Ha; simpl; [|exact Hn].
    unfold consistent; simpl. rewrite torque_limit_app; simpl.
    rewrite Hth, Hw. repeat split. discriminate.
  - destruct (free_drag_active n && (0 <? workers n)%nat); [|exact Hn].
    unfold consistent; simpl. rewrite torque_limit_app; simpl.
    repeat split; assumption.
  - unfold consistent; simpl. rewrite torque_limit_app; simpl.
    repeat split; assumption.
Qed.

Lemma consistent_run events : forall n, consistent n -> consistent (run n events).
Proof.
  induction events as [|e events IH]; intros n Hn; [exact Hn|].
  apply IH. now apply consistent_step.
Qed.

Lemma consistent_workers n : consistent n -> (workers n <= 1)%nat.
Proof.
  intros (_ & Hw & _). rewrite Hw. destruct (free_drag_active n); lia.
Qed.

Lemma same_mode_refl n : same_mode n n.
Proof. now repeat split. Qed.

Lemma enabled_step n e :
  free_drag_active n = true -> is_disable e = false -> same_mode n (step n e).
Proof.
  intros Ha He. destruct e as [cur | p | p v t | pose]; simpl.
  - unfold enable_free_drag_mode. rewrite Ha. apply same_mode_refl.
  - discriminate He.
  - destruct (free_drag_active n && (0 <? workers n)%nat); [|apply same_mode_refl].
    unfold same_mode; simpl. rewrite torque_limit_app; simpl. now repeat split.
  - unfold same_mode; simpl. rewrite torque_limit_app; simpl. now repeat split.
Qed.

Lemma enabled_run events : forall n,
  free_drag_active n = true -> no_disable events = true ->
  same_mode n (run n events).
Proof.
  induction events as [|e events IH]; intros n Ha Hev; [apply same_mode_refl|].
  simpl in Hev. apply andb_true_iff in Hev as [He Hev].
  apply negb_true_iff in He.
  pose proof (enabled_step n e Ha He) as (H1 & H2 & H3 & H4 & H5 & H6).
  assert (Ha' : free_drag_active (step n e) = true) by congruence.
  pose proof (IH (step n e) Ha' Hev) as (K1 & K2 & K3 & K4 & K5 & K6).
  unfold same_mode. simpl. repeat split; congruence.
Qed.

(** C7. Starting from a node that is not in free-drag mode (after any
    history since construction): after [enable_free_drag_mode] the current
    limit held by the motors is 30 and exactly one worker runs, and this
    stays so until [disable_free_drag_mode] is called; after
    [disable_free_drag_mode] no worker runs, the current limit is the one
    from before the enable, and the last two writes are that limit and the
    position just read.  At no time is there more than one worker. *)
Theorem free_drag_lifecycle
    (lim kP kI kD : Q) (init_pos : list Q) (history during : list event)
    (cur pos : list Q) :
  let n := run (init lim kP kI kD init_pos) history in
  free_drag_active n = false ->
  no_disable during = true ->
  let n1 := enable_free_drag_mode n cur in
  let n2 := run n1 during in
  let n3 := disable_free_drag_mode n2 pos in
  torque_limit (bus n1) = Some (ones_times motors 30) /\
  torque_limit (bus n2) = Some (ones_times motors 30) /\
  workers n = 0%nat /\ workers n1 = 1%nat /\ workers n2 = 1%nat /\ workers n3 = 0%nat /\
  torque_limit (bus n) = Some (ones_times motors (curr_lim n)) /\
  torque_limit (bus n3) = torque_limit (bus n) /\
  bus n3 = bus n2 ++ [SyncWrite motors (ones_times motors (curr_lim n)) 102 2;
                      WriteDesiredPos motors pos] /\
  (forall events, (workers (run (init lim kP kI kD init_pos) events) <= 1)%nat).
Proof.
  intros n Hoff Hduring n1 n2 n3.
  assert (Hn : consistent n) by (apply consistent_run, consistent_init).
  destruct Hn as (Hlim & Hw & Hth & _). rewrite Hoff in Hw, Hth.
  assert (Hn1 : n1 = mkNode 30 (curr_lim n) true true (curr_pos n) cur
                  (bus n ++ [SyncWrite motors (ones_times motors 30) 102 2])
                  (S (workers n)) 0).
  { unfold n1, enable_free_drag_mode. now rewrite Hoff. }
  assert (Hlim1 : torque_limit (bus n1) = Some (ones_times motors 30)).
  { rewrite Hn1; simpl. now rewrite torque_limit_app. }
  assert (Hw1 : workers n1 = 1%nat) by (rewrite Hn1; simpl; now rewrite Hw).
  assert (Ha1 : free_drag_active n1 = true) by now rewrite Hn1.
  destruct (enabled_run during n1 Ha1 Hduring) as (K1 & K2 & K3 & K4 & K5 & K6).
  fold n2 in K1, K2, K3, K4, K5, K6.
  assert (Ho2 : original_curr_lim n2 = curr_lim n) by (rewrite <- K2, Hn1; reflexivity).
  assert (Ha2 : free_drag_active n2 = true) by congruence.
  assert (Ht2 : free_drag_thread n2 = true) by (rewrite <- K4, Hn1; reflexivity).
  assert (Hn3 : n3 = mkNode (curr_lim n) (curr_lim n) false false (curr_pos n2)
                  (filtered_current n2)
                  (bus n2 ++ [SyncWrite motors (ones_times motors (curr_lim n)) 102 2;
                              WriteDesiredPos motors pos])
                  (pred (workers n2)) (loop_time n2)).
  { unfold n3, disable_free_drag_mode. rewrite Ha2, Ht2, Ho2. reflexivity. }
  repeat split.
  - exact Hlim1.
  - now rewrite <- K6.
  - exact Hw.
  - exact Hw1.
  - now rewrite <- K5.
  - rewrite Hn3; simpl. now rewrite <- K5, Hw1.
  - exact Hlim.
  - rewrite Hn3; simpl. rewrite torque_limit_app; simpl. now rewrite Hlim.
  - now rewrite Hn3.
  - intros events. apply consistent_workers, consistent_run, consistent_init.
Qed.

Lemma free_drag_lifecycle_witness :
  let n := run (init 150 100 0 150 rest_pose) [SetLeap rest_pose] in
  let n1 := enable_free_drag_mode n (repeat 0 16) in
  let n2 := run n1 drag_events in
  let n3 := disable_free_drag_mode n2 dragged_pose in
  torque_limit (bus n1) = Some (ones_times motors 30) /\
  torque_limit (bus n2) = Some (ones_times motors 30) /\
  workers n = 0%nat /\ workers n1 = 1%nat /\ workers n2 = 1%nat /\ workers n3 = 0%nat /\
  torque_limit (bus n) = Some (ones_times motors (curr_lim n)) /\
  torque_limit (bus n3) = torque_limit (bus n) /\
  bus n3 = bus n2 ++ [SyncWrite motors (ones_times motors (curr_lim n)) 102 2;
                      WriteDesiredPos motors dragged_pose] /\
  (forall events, (workers (run (init 150 100 0 150 rest_pose) events) <= 1)%nat).
Proof.
  apply (free_drag_lifecycle 150 100 0 150 rest_pose [SetLeap rest_pose] drag_events
           (repeat 0 16) dragged_pose); reflexivity.
Defined.

(** C6 at a joint that lags behind its target: measured 3.0 against a
    commanded 3.2, so the error is -0.2 and its absolute value exceeds
    0.05 + 0.05, with velocity 1 and a loop time of 0.01.  The step is
    velocity * loop time (0.01), not five times that (0.05): the test
    compares the signed error. *)
Theorem lagging_joint_gets_slow_gain :
  let current_pos := repeat 3 16 in
  let target := repeat 3.2 16 in
  let pos_error := zip_with Qminus current_pos target in
  let delta := delta_pos pos_error (repeat 1 16) 0.01 in
  Forall (fun e => 0.05 + 0.05 < Qabs e) pos_error /\
  Forall (fun d => d == 1 * 0.01 /\ ~ d == 1 * 0.01 * 5) delta /\
  length delta = 16%nat.
Proof.
  split; [|split].
  - vm_compute. repeat constructor.
  - vm_compute. repeat constructor; discriminate.
  - reflexivity.
Qed.

(** The gain rule of the loop, joint by joint: the fast gain is used when
    the signed error exceeds 0.05 + 0.05, the slow gain otherwise. *)
Lemma delta_pos_at_joint (pos_error current_vel : list Q) (lt : Q) (i : nat) :
  (i < 16)%nat ->
  at_joint (delta_pos pos_error current_vel lt) i =
  if Qltb (0.05 + 0.05) (at_joint pos_error i)
  then at_joint current_vel i * lt * 5
  else at_joint current_vel i * lt.
Proof.
  intros Hi. unfold delta_pos, at_joint.
  do 16 (destruct i as [|i]; [reflexivity|]). lia.
Qed.

End LeapNode.

(** ** Finger flexion from hand landmarks: [FingerDetector._detection_loop] *)

Module Finger.

(** A row of [joint_pos]: the x, y, z of one landmark. *)
Definition vec3 : Type := (Q * Q * Q)%type.

Definition vsub (a b : vec3) : vec3 :=
  let '(ax, ay, az) := a in
  let '(bx, by_, bz) := b in
  (ax - bx, ay - by_, az - bz).

(** [np.clip(x, lo, hi)]: [minimum(maximum(x, lo), hi)]. *)
Definition clip (x lo hi : Q) : Q := Qmin (Qmax x lo) hi.

(** [1 - np.clip((length - lo) / (hi - lo), 0.0, 1.0)]: what the detector
    publishes for a finger of measured [length], with [lo] and [hi] the
    calibrated shortest and longest lengths. *)
Definition flexion (len lo hi : Q) : Q := 1 - clip ((len - lo) / (hi - lo)) 0 1.

Section Detector.

(** [np.linalg.norm] of a 3-vector (a square root, taken in floating
    point). *)
Variable norm : vec3 -> Q.

(** The part of [_detection_loop] that turns a detected [joint_pos] into
    [finger_ratios].  [None] stands for the [IndexError] of a landmark array
    with fewer than 21 rows, which the loop catches without publishing. *)
Definition finger_ratios (joint_pos : list vec3) : option Runner.ratios :=
  match joint_pos !! 0%nat, joint_pos !! 4%nat, joint_pos !! 8%nat,
        joint_pos !! 12%nat, joint_pos !! 16%nat, joint_pos !! 20%nat with
  | Some wrist, Some thumb_tip, Some index_tip, Some middle_tip, Some ring_tip,
    Some pinky_tip =>
      let thumb_vec := vsub thumb_tip wrist in
      let thumb_vec := (0, snd (fst thumb_vec), 0) in
      let thumb_length := norm thumb_vec in
      let index_length := norm (vsub index_tip wrist) in
      let middle_length := norm (vsub middle_tip wrist) in
      let ring_length := norm (vsub ring_tip wrist) in
      let pinky_length := norm (vsub pinky_tip wrist) in
      let thumb_ratio := clip ((thumb_length - 0.02) / (0.09 - 0.02)) 0 1 in
      let index_ratio := clip ((index_length - 0.09) / (0.17 - 0.09)) 0 1 in
      let middle_ratio := clip ((middle_length - 0.09) / (0.18 - 0.09)) 0 1 in
      let ring_ratio := clip ((ring_length - 0.07) / (0.17 - 0.07)) 0 1 in
      let pinky_ratio := clip ((pinky_length - 0.08) / (0.14 - 0.08)) 0 1 in
      Some (Runner.mkRatios (1 - thumb_ratio) (1 - index_ratio) (1 - middle_ratio)
                            (1 - ring_ratio) (1 - pinky_ratio))
  | _, _, _, _, _, _ => None
  end.

End Detector.

Definition in_unit (x : Q) : Prop := 0 <= x /\ x <= 1.

(** A rational stand-in for the Euclidean norm, exact to a micrometre and
    rounded down; for the worked example. *)
Definition norm_micro (v : vec3) : Q :=
  let '(x, y, z) := v in
  let sq := x * x + y * y + z * z in
  inject_Z (Z.sqrt (Qnum sq * 10 ^ 12 / Zpos (Qden sq))) / inject_Z (10 ^ 6).

(** A flat left hand, 21 landmarks: wrist at the origin, the tips 0.05 to
    0.2 m away. *)
Definition flat_hand : list vec3 :=
  map (fun k => (inject_Z (Z.of_nat k) / 200, inject_Z (Z.of_nat k) / 100, 0)) (seq 0 21).

Lemma clip_unit x : in_unit (clip x 0 1).
Proof.
  unfold in_unit, clip. split.
  - apply Q.min_glb; [apply Q.le_max_r | lra].
  - apply Q.le_min_r.
Qed.

Lemma one_minus_unit x : in_unit x -> in_unit (1 - x).
Proof. unfold in_unit. intros [H0 H1]. split; lra. Qed.

Lemma lookup_within {A} (l : list A) (i : nat) :
  (i < length l)%nat -> exists x, l !! i = Some x.
Proof. intros H. apply lookup_lt_is_Some_2 in H. destruct H as [x Hx]. eauto. Qed.

(** A tip at or inside the minimum length reads as fully closed (1), a tip
    at or beyond the maximum length as fully open (0). *)
Lemma closed_is_one (len lo hi : Q) :
  lo < hi -> len <= lo -> 1 - clip ((len - lo) / (hi - lo)) 0 1 == 1.
Proof.
  intros Hlh Hlen. unfold clip.
  assert (Hx : (len - lo) / (hi - lo) <= 0).
  { apply Qle_shift_div_r; lra. }
  rewrite Q.max_r by exact Hx. rewrite Q.min_l by lra. ring.
Qed.

Lemma open_is_zero (len lo hi : Q) :
  lo < hi -> hi <= len -> 1 - clip ((len - lo) / (hi - lo)) 0 1 == 0.
Proof.
  intros Hlh Hlen. unfold clip.
  assert (Hx : 1 <= (len - lo) / (hi - lo)).
  { apply Qle_shift_div_l; lra. }
  rewrite Q.max_l by lra. rewrite Q.min_r by exact Hx. ring.
Qed.

Lemma flexion_unit (len lo hi : Q) : in_unit (flexion len lo hi).
Proof. apply one_minus_unit, clip_unit. Qed.

(** C9. For every detected hand (21 landmarks or more), the detector
    computes the five flexion ratios; each is 1 minus the wrist-to-tip
    length normalised by the calibrated shortest and longest length of that
    finger and clamped to [0,1] (for the thumb the length of the
    wrist-to-tip vector along its second axis), and each lies in [0,1].
    The value is 1 for a tip at or inside the shortest length (closed) and
    0 for a tip at or beyond the longest (open). *)
Theorem finger_ratios_in_unit (norm : vec3 -> Q) (joint_pos : list vec3) :
  (21 <= length joint_pos)%nat ->
  exists r wrist thumb_tip index_tip middle_tip ring_tip pinky_tip,
    joint_pos !! 0%nat = Some wrist /\ joint_pos !! 4%nat = Some thumb_tip /\
    joint_pos !! 8%nat = Some index_tip /\ joint_pos !! 12%nat = Some middle_tip /\
    joint_pos !! 16%nat = Some ring_tip /\ joint_pos !! 20%nat = Some pinky_tip /\
    finger_ratios norm joint_pos = Some r /\
    Runner.thumb r = flexion (norm (0, snd (fst (vsub thumb_tip wrist)), 0)) 0.02 0.09 /\
    Runner.index r = flexion (norm (vsub index_tip wrist)) 0.09 0.17 /\
    Runner.middle r = flexion (norm (vsub middle_tip wrist)) 0.09 0.18 /\
    Runner.ring r = flexion (norm (vsub ring_tip wrist)) 0.07 0.17 /\
    Runner.pinky r = flexion (norm (vsub pinky_tip wrist)) 0.08 0.14 /\
    (in_unit (Runner.thumb r) /\ in_unit (Runner.index r) /\ in_unit (Runner.middle r) /\
     in_unit (Runner.ring r) /\ in_unit (Runner.pinky r)) /\
    (forall len lo hi : Q, lo < hi ->
       (len <= lo -> flexion len lo hi == 1) /\ (hi <= len -> flexion len lo hi == 0)).
Proof.
  intros Hlen.
  destruct (lookup_within joint_pos 0) as [w Hw]; [lia|].
  destruct (lookup_within joint_pos 4) as [t Ht]; [lia|].
  destruct (lookup_within joint_pos 8) as [i Hi]; [lia|].
  destruct (lookup_within joint_pos 12) as [m Hm]; [lia|].
  destruct (lookup_within joint_pos 16) as [g Hg]; [lia|].
  destruct (lookup_within joint_pos 20) as [p Hp]; [lia|].
  assert (Hr : finger_ratios norm joint_pos =
               Some (Runner.mkRatios
                       (flexion (norm (0, snd (fst (vsub t w)), 0)) 0.02 0.09)
                       (flexion (norm (vsub i w)) 0.09 0.17)
                       (flexion (norm (vsub m w)) 0.09 0.18)
                       (flexion (norm (vsub g w)) 0.07 0.17)
                       (flexion (norm (vsub p w)) 0.08 0.14))).
  { unfold finger_ratios. rewrite Hw, Ht, Hi, Hm, Hg, Hp. reflexivity. }
  eexists _, w, t, i, m, g, p.
  do 6 (split; [assumption|]).
  split; [exact Hr|]. simpl.
  do 5 (split; [reflexivity|]).
  split.
  - repeat split; apply flexion_unit.
  - intros len lo hi Hlh. split; intros Hl.
    + now apply closed_is_one.
    + now apply open_is_zero.
Qed.

Lemma finger_ratios_in_unit_witness :
  exists r wrist thumb_tip index_tip middle_tip ring_tip pinky_tip,
    flat_hand !! 0%nat = Some wrist /\ flat_hand !! 4%nat = Some thumb_tip /\
    flat_hand !! 8%nat = Some index_tip /\ flat_hand !! 12%nat = Some middle_tip /\
    flat_hand !! 16%nat = Some ring_tip /\ flat_hand !! 20%nat = Some pinky_tip /\
    finger_ratios norm_micro flat_hand = Some r /\
    Runner.thumb r =
      flexion (norm_micro (0, snd (fst (vsub thumb_tip wrist)), 0)) 0.02 0.09 /\
    Runner.index r = flexion (norm_micro (vsub index_tip wrist)) 0.09 0.17 /\
    Runner.middle r = flexion (norm_micro (vsub middle_tip wrist)) 0.09 0.18 /\
    Runner.ring r = flexion (norm_micro (vsub ring_tip wrist)) 0.07 0.17 /\
    Runner.pinky r = flexion (norm_micro (vsub pinky_tip wrist)) 0.08 0.14 /\
    (in_unit (Runner.thumb r) /\ in_unit (Runner.index r) /\ in_unit (Runner.middle r) /\
     in_unit (Runner.ring r) /\ in_unit (Runner.pinky r)) /\
    (forall len lo hi : Q, lo < hi ->
       (len <= lo -> flexion len lo hi == 1) /\ (hi <= len -> flexion len lo hi == 0)).
Proof.
  apply (finger_ratios_in_unit norm_micro flat_hand).
  simpl. lia.
Defined.

End Finger.

(** ** More on the voice segmenter: arbitrary streams, pauses inside speech *)

Module VadFacts.

Import Vad.

(** The configuration of a segmenter, which [audio_callback] never
    changes. *)
Definition same_config (a b : AsrServer) : Prop :=
  RATE a = RATE b /\ SILENCE_THRESHOLD a = SILENCE_THRESHOLD b /\
  MIN_AUDIO_LENGTH a = MIN_AUDIO_LENGTH b /\
  MAX_SILENCE_DURATION a = MAX_SILENCE_DURATION b.

(** Every queued utterance is at least [MIN_AUDIO_LENGTH] long. *)
Definition queue_long_enough (s : AsrServer) : Prop :=
  Forall (fun u => MIN_AUDIO_LENGTH s <= duration_of (RATE s) u) (audio_queue s).

(** A pause inside speech: silent frames that all arrive less than
    [max_sil] after the first of them. *)
Definition short_gap (max_sil : Q) (gap : list frame) : Prop :=
  Forall (fun f => current_time f - first_time gap < max_sil) gap.

(** Two quiet blocks, at 1.5 s and 1.6 s, and speech that resumes at
    1.7 s. *)
Definition breath : list frame :=
  [mkFrame quiet_block (15 # 10); mkFrame quiet_block (16 # 10)].
Definition more_speech : list frame :=
  map (fun k => mkFrame loud_block (inject_Z (Z.of_nat k) / 10)) (seq 17 3).
Definition late_pause : list frame :=
  map (fun k => mkFrame quiet_block (inject_Z (Z.of_nat k) / 10)) (seq 20 25).

Section Streams.

Variable vol : list Z -> Q.

Lemma audio_callback_keeps (s : AsrServer) (f : frame) :
  queue_long_enough s ->
  same_config s (audio_callback vol s f) /\ queue_long_enough (audio_callback vol s f).
Proof.
  intros Hq. destruct s as [rate thr mn mx vd vst sst rec q].
  unfold queue_long_enough in *. simpl in Hq.
  unfold audio_callback, same_config; simpl.
  destruct (_is_silence vol _ (indata f)); simpl.
  - destruct vd; simpl; [|now repeat split].
    destruct (Qeq_bool sst 0); simpl;
      match goal with |- context [Qltb ?a ?b] => destruct (Qltb a b) end; simpl;
      try (now repeat split);
      (destruct rec as [|r rec]; simpl; [now repeat split|]);
      match goal with |- context [Qle_bool ?a ?b] => destruct (Qle_bool a b) eqn:Hd end;
      simpl; try (now repeat split);
      (split;
         [now repeat split
         | apply Forall_app; split;
           [exact Hq | constructor; [cbv beta; now apply Qle_bool_iff | constructor]]]).
  - destruct vd; simpl; now repeat split.
Qed.

Lemma feed_keeps (frames : list frame) : forall s,
  queue_long_enough s ->
  same_config s (feed vol s frames) /\ queue_long_enough (feed vol s frames).
Proof.
  induction frames as [|f frames IH]; intros s Hq.
  - split; [now repeat split | exact Hq].
  - rewrite feed_cons.
    destruct (audio_callback_keeps s f Hq) as [(C1 & C2 & C3 & C4) Hq1].
    destruct (IH _ Hq1) as [(D1 & D2 & D3 & D4) Hq2].
    split; [|exact Hq2].
    repeat split; congruence.
Qed.

(** Buffering: inside a pause, silent frames that arrive less than [mx]
    after the start [t0] of the pause are appended and nothing else
    changes. *)
Lemma feed_buffering (frames : list frame) : forall rate thr mn mx vst t0 rec q,
  Forall (silent vol thr) frames ->
  ~ t0 == 0 ->
  Forall (fun f => current_time f - t0 < mx) frames ->
  feed vol (mkAsrServer rate thr mn mx true vst t0 rec q) frames =
  mkAsrServer rate thr mn mx true vst t0 (rec ++ map indata frames) q.
Proof.
  induction frames as [|f frames IH]; intros rate thr mn mx vst t0 rec q Hs Ht0 Hin.
  - simpl. now rewrite app_nil_r.
  - inversion Hs as [|? ? Hf Hrest]; subst.
    inversion Hin as [|? ? Hnow Hlater]; subst.
    rewrite feed_cons. unfold audio_callback.
    rewrite silent_is_silence by exact Hf. simpl.
    assert (Hz : Qeq_bool t0 0 = false).
    { apply not_true_iff_false. intros E. apply Ht0. now apply Qeq_bool_iff. }
    rewrite Hz. simpl.
    apply Qltb_true in Hnow. rewrite Hnow.
    unfold recording_append; simpl.
    rewrite IH by assumption. now rewrite <- app_assoc.
Qed.

Lemma feed_app (s : AsrServer) (a b : list frame) :
  feed vol s (a ++ b) = feed vol (feed vol s a) b.
Proof. unfold feed. apply fold_left_app. Qed.

(** A pause, from its first frame on. *)
Lemma feed_pause (gap : list frame) rate thr mn mx vst rec q :
  Forall (silent vol thr) gap ->
  Forall (fun f => 0 < current_time f) gap ->
  short_gap mx gap ->
  exists t0,
    feed vol (mkAsrServer rate thr mn mx true vst 0 rec q) gap =
    mkAsrServer rate thr mn mx true vst t0 (rec ++ map indata gap) q.
Proof.
  intros Hs Hpos Hgap. destruct gap as [|g gap].
  - exists 0. simpl. now rewrite app_nil_r.
  - exists (current_time g).
    assert (Hg0 : ~ current_time g == 0) by (inversion Hpos; subst; lra).
    rewrite feed_cons, audio_callback_silence_onset; [|now inversion Hs | exact Hg0].
    rewrite <- feed_cons. now apply feed_buffering.
Qed.

(** The silence that ends an utterance, from its first frame on. *)
Lemma feed_closing_silence (ss : list frame) rate thr mn mx vst rec q :
  Forall (silent vol thr) ss ->
  Forall (fun f => 0 < current_time f) ss ->
  rec <> [] ->
  Exists (fun f => mx <= current_time f - first_time ss) ss ->
  feed vol (mkAsrServer rate thr mn mx true vst 0 rec q) ss =
  mkAsrServer rate thr mn mx false vst 0 []
    (close_utterance rate mn (rec ++ map indata (buffered_silence mx (first_time ss) ss)) q).
Proof.
  intros Hs Hpos Hrec Hex. destruct ss as [|f ss]; [inversion Hex|].
  assert (Hf0 : ~ current_time f == 0) by (inversion Hpos; subst; lra).
  rewrite feed_cons, audio_callback_silence_onset; [|now inversion Hs | exact Hf0].
  rewrite <- feed_cons. now apply feed_trailing.
Qed.

End Streams.

(** The utterances put on [audio_queue] are never shorter than
    [MIN_AUDIO_LENGTH], whatever the stream of frames. *)
Theorem emitted_utterances_long_enough
    (vol : list Z -> Q) (rate : Z) (thr mn mx : Q) (frames : list frame) :
  Forall (fun u => mn <= duration_of rate u) (emitted vol rate thr mn mx frames).
Proof.
  destruct (feed_keeps vol frames (listening rate thr mn mx)) as [(C1 & _ & C3 & _) Hq].
  - constructor.
  - unfold queue_long_enough in Hq. simpl in C1, C3.
    rewrite <- C1, <- C3 in Hq. exact Hq.
Qed.

(** While every frame is loud nothing is queued, however long the speech
    lasts: all blocks stay in [current_recording]. *)
Theorem voicing_only_buffers
    (vol : list Z -> Q) (rate : Z) (thr mn mx : Q) (frames : list frame) :
  Forall (voiced vol thr) frames ->
  emitted vol rate thr mn mx frames = [] /\
  current_recording (feed vol (listening rate thr mn mx) frames) = map indata frames.
Proof.
  intros Hv. destruct frames as [|f frames]; [split; reflexivity|].
  unfold emitted, listening.
  destruct (feed_voicing vol (f :: frames) rate thr mn mx false 0 0 [] [] Hv) as [vst ->];
    [discriminate|].
  split; reflexivity.
Qed.

Lemma voicing_only_buffers_witness :
  emitted rms_floor 16000 500 (1 # 2) 2 speech = [] /\
  current_recording (feed rms_floor (listening 16000 500 (1 # 2) 2) speech)
    = map indata speech.
Proof.
  exact (voicing_only_buffers rms_floor 16000 500 (1 # 2) 2 speech speech_voiced).
Defined.

(** A pause shorter than the max-silence duration does not split an
    utterance: speech, a short pause, more speech and a closing silence
    give at most one utterance, made of all the speech, the pause and the
    buffered part of the closing silence. *)
Theorem pause_does_not_split
    (vol : list Z -> Q) (rate : Z) (thr mn mx : Q) (vs1 gap vs2 ss : list frame) :
  vs1 <> [] -> vs2 <> [] ->
  Forall (voiced vol thr) vs1 -> Forall (silent vol thr) gap ->
  Forall (voiced vol thr) vs2 -> Forall (silent vol thr) ss ->
  short_gap mx gap ->
  Forall (fun f => 0 < current_time f) (gap ++ ss) ->
  Exists (fun f => mx <= current_time f - first_time ss) ss ->
  let buffered :=
    samples (vs1 ++ gap ++ vs2 ++ buffered_silence mx (first_time ss) ss) in
  emitted vol rate thr mn mx (vs1 ++ gap ++ vs2 ++ ss) =
    if Qle_bool mn (duration_of rate buffered) then [buffered] else [].
Proof.
  intros Hne1 Hne2 Hv1 Hg Hv2 Hs Hgap Hpos Hex buffered.
  apply Forall_app in Hpos as [Hposg Hposs].
  unfold emitted, listening. rewrite !feed_app.
  destruct (feed_voicing vol vs1 rate thr mn mx false 0 0 [] [] Hv1 Hne1) as [vst1 ->].
  destruct (feed_pause vol gap rate thr mn mx vst1 ([] ++ map indata vs1) [] Hg Hposg Hgap)
    as [t0 ->].
  destruct (feed_voicing vol vs2 rate thr mn mx true vst1 t0
              (([] ++ map indata vs1) ++ map indata gap) [] Hv2 Hne2) as [vst2 ->].
  rewrite feed_closing_silence; try assumption.
  - simpl audio_queue. unfold close_utterance, buffered, samples.
    rewrite !map_app, !app_assoc. simpl. reflexivity.
  - destruct vs1; [congruence | discriminate].
Qed.

Lemma pause_does_not_split_witness :
  emitted rms_floor 16000 500 (1 # 2) 2 (speech ++ breath ++ more_speech ++ late_pause) =
    if Qle_bool (1 # 2)
         (duration_of 16000
            (samples (speech ++ breath ++ more_speech ++
                      buffered_silence 2 (first_time late_pause) late_pause)))
    then [samples (speech ++ breath ++ more_speech ++
                   buffered_silence 2 (first_time late_pause) late_pause)]
    else [].
Proof.
  refine (pause_does_not_split rms_floor 16000 500 (1 # 2) 2
            speech breath more_speech late_pause _ _ speech_voiced _ _ _ _ _ _).
  - discriminate.
  - discriminate.
  - apply (Forall_forallb _ (silentb rms_floor 500));
      [apply silentb_silent | vm_compute; reflexivity].
  - apply (Forall_forallb _ (voicedb rms_floor 500));
      [apply voicedb_voiced | vm_compute; reflexivity].
  - apply (Forall_forallb _ (silentb rms_floor 500));
      [apply silentb_silent | vm_compute; reflexivity].
  - apply (Forall_forallb _ (fun f => Qltb (current_time f - first_time breath) 2));
      [intros x; apply Qltb_true | vm_compute; reflexivity].
  - apply times_positive. vm_compute. reflexivity.
  - apply silence_lasts. vm_compute. reflexivity.
Defined.

End VadFacts.

(** ** The recognition results of [AsrServer]: [_process_audio] and [get] *)

Module AsrResults.

Import Mailbox.

(** [AsrServer] holds its result in the same pair as the keyboard source,
    [Queue(maxsize=1)] and [have_new_result]. *)

(** The locked block of [_process_audio] that publishes a result. *)
Definition publish_result (result : string) (b : keyboard_box) : option keyboard_box :=
  let q1 :=
    if negb (queue_empty (result_queue b))
    then match get_nowait (result_queue b) with
         | Some (_, q') => q'
         | None => result_queue b
         end
    else result_queue b in
  match put result q1 with
  | Some q2 => Some {| result_queue := q2; kb_have_new_result := true |}
  | None => None
  end.

(** [_process_audio] once the service has answered [result]: a blank
    answer is reported and dropped. *)
Definition on_recognised (result : string) (b : keyboard_box) : option keyboard_box :=
  if negb (String.eqb (Str.strip result) "") then publish_result result b
  else Some b.

(** [AsrServer.get].  Its test reads [self.has_new_result], the method
    itself, which is always true; [get_nowait] on an empty queue raises
    [Empty], which the handler turns into [None]. *)
Definition asr_get (b : keyboard_box) : option string * keyboard_box :=
  match get_nowait (result_queue b) with
  | Some (r, q') => (Some r, {| result_queue := q'; kb_have_new_result := false |})
  | None => (None, b)
  end.

Inductive asr_op : Type :=
| Recognised (result : string)
| Poll.

Definition asr_step (o : asr_op) (b : keyboard_box) : option keyboard_box :=
  match o with
  | Recognised result => on_recognised result b
  | Poll => Some (snd (asr_get b))
  end.

Fixpoint asr_run (ops : list asr_op) (b : keyboard_box) : option keyboard_box :=
  match ops with
  | [] => Some b
  | o :: rest =>
      match asr_step o b with
      | Some b' => asr_run rest b'
      | None => None
      end
  end.

Definition blank (result : string) : bool := String.eqb (Str.strip result) "".

Lemma publish_result_is_put_result result b : publish_result result b = _put_result result b.
Proof. reflexivity. Qed.

(** On the boxes that occur, the unconditional [get] of [AsrServer] and the
    guarded [get] of the keyboard source agree. *)
Lemma asr_get_keyboard_get b : keyboard_ok b -> asr_get b = keyboard_get b.
Proof.
  intros [Hmax [[Hf Hi] | [Hf [v Hi]]]];
    destruct b as [[m its] f]; simpl in *; subst; reflexivity.
Qed.

Lemma asr_step_ok o b :
  keyboard_ok b -> exists b', asr_step o b = Some b' /\ keyboard_ok b'.
Proof.
  intros Hb. destruct o as [result|]; simpl.
  - unfold on_recognised. destruct (negb (String.eqb (Str.strip result) "")).
    + rewrite publish_result_is_put_result.
      destruct (_put_result_ok result b Hb) as (b' & -> & Hb' & _). eauto.
    + eauto.
  - eexists. split; [reflexivity|].
    rewrite asr_get_keyboard_get by exact Hb. now apply keyboard_get_ok.
Qed.

Lemma asr_run_ok ops : forall b,
  keyboard_ok b -> exists b', asr_run ops b = Some b' /\ keyboard_ok b'.
Proof.
  induction ops as [|o ops IH]; intros b Hb; simpl; [eauto|].
  destruct (asr_step_ok o b Hb) as (b1 & -> & Hb1). now apply IH.
Qed.

Lemma asr_run_app ops1 ops2 b :
  asr_run (ops1 ++ ops2) b =
  match asr_run ops1 b with
  | Some b' => asr_run ops2 b'
  | None => None
  end.
Proof.
  revert b. induction ops1 as [|o ops1 IH]; intros b; simpl; [reflexivity|].
  destruct (asr_step o b); [apply IH | reflexivity].
Qed.

Lemma asr_run_blanks blanks : forall b,
  forallb blank blanks = true -> asr_run (map Recognised blanks) b = Some b.
Proof.
  induction blanks as [|w blanks IH]; intros b H; simpl; [reflexivity|].
  simpl in H. apply andb_true_iff in H as [Hw H].
  unfold on_recognised. unfold blank in Hw. rewrite Hw. simpl. now apply IH.
Qed.

(** After any history of results and polls, a non-blank result [v],
    possibly followed by blank ones, is what the next [get] returns; the
    [get] after that returns [None], and no [put] ever blocks.  The missing
    call parentheses in [get] do not show. *)
Theorem asr_get_returns_last_text
    (history : list asr_op) (v : string) (blanks : list string) :
  blank v = false ->
  forallb blank blanks = true ->
  exists b,
    asr_run (history ++ Recognised v :: map Recognised blanks) keyboard_init = Some b /\
    fst (asr_get b) = Some v /\
    fst (asr_get (snd (asr_get b))) = None /\
    (keyboard_unread b <= 1)%nat.
Proof.
  intros Hv Hblanks.
  destruct (asr_run_ok history keyboard_init keyboard_ok_init) as (b0 & Hrun & Hok0).
  destruct (_put_result_ok v b0 Hok0) as (b1 & Hput & Hok1 & Hitems & Hflag).
  exists b1. rewrite asr_run_app, Hrun. simpl.
  unfold on_recognised. unfold blank in Hv. rewrite Hv. simpl.
  rewrite publish_result_is_put_result, Hput.
  split; [now apply asr_run_blanks|].
  destruct b1 as [[m its] f]; simpl in *; subst.
  repeat split. unfold keyboard_unread; simpl; lia.
Qed.

Lemma asr_get_returns_last_text_witness :
  exists b,
    asr_run ([Recognised "open the hand"; Poll; Recognised "grab the cup"]
               ++ Recognised "hold the pen" :: map Recognised ["  "; ""]%string)
            keyboard_init = Some b /\
    fst (asr_get b) = Some "hold the pen"%string /\
    fst (asr_get (snd (asr_get b))) = None /\
    (keyboard_unread b <= 1)%nat.
Proof.
  apply (asr_get_returns_last_text
           [Recognised "open the hand"; Poll; Recognised "grab the cup"]
           "hold the pen" ["  "; ""]%string); reflexivity.
Defined.

End AsrResults.

(** ** The keyboard source: the line editor of [KeyboardAsrServer._input_loop] *)

Module KeyboardInput.

Import Mailbox.

#[local] Arguments String.append : simpl nomatch.

(** [input_buffer], [is_running] and the result box. *)
Record source : Type := mkSource {
  input_buffer : string;
  is_running : bool;
  box : keyboard_box
}.

Definition enter : ascii := "010"%char.      (* '\n' *)
Definition backspace : ascii := "127"%char.  (* '\x7f' *)
Definition escape : ascii := "003"%char.     (* '\x03' *)

(** [s[:-1]]. *)
Fixpoint drop_last (s : string) : string :=
  match s with
  | EmptyString => EmptyString
  | String a EmptyString => EmptyString
  | String a rest => String a (drop_last rest)
  end.

(** [text.lower() in ['quit', 'exit']]. *)
Definition is_exit_word (text : string) : bool :=
  String.eqb (Str.lower text) "quit" || String.eqb (Str.lower text) "exit".

(** One pass of the loop that has taken [char] from the character queue.
    [None]: the pass does not end, because [_put_result] blocks. *)
Definition on_char (st : source) (char : ascii) : option source :=
  if Ascii.eqb char enter then
    if negb (String.eqb (Str.strip (input_buffer st)) "") then
      let text := Str.strip (input_buffer st) in
      if is_exit_word text then Some (mkSource "" false (box st))
      else
        match _put_result text (box st) with
        | Some b => Some (mkSource "" (is_running st) b)
        | None => None
        end
    else Some st
  else if Ascii.eqb char backspace then
    if negb (String.eqb (input_buffer st) "")
    then Some (mkSource (drop_last (input_buffer st)) (is_running st) (box st))
    else Some st
  else if Ascii.eqb char escape then
    Some (mkSource (input_buffer st) false (box st))
  else
    Some (mkSource (input_buffer st ++ String char "") (is_running st) (box st)).

(** The loop over the characters that arrive, for as long as
    [is_running] holds. *)
Fixpoint type_chars (st : source) (chars : list ascii) : option source :=
  match chars with
  | [] => Some st
  | c :: rest =>
      if is_running st then
        match on_char st c with
        | Some st' => type_chars st' rest
        | None => None
        end
      else Some st
  end.

(** A character that is added to the line. *)
Definition plain (c : ascii) : bool :=
  negb (Ascii.eqb c enter) && negb (Ascii.eqb c backspace) && negb (Ascii.eqb c escape).

(** The source after [start]. *)
Definition started : source := mkSource "" true keyboard_init.

Lemma append_snoc (b : string) (c : ascii) (rest : string) :
  ((b ++ String c "") ++ rest)%string = (b ++ String c rest)%string.
Proof. induction b as [|a b IH]; simpl; [reflexivity | now rewrite IH]. Qed.

Lemma drop_last_snoc (b : string) (c : ascii) : drop_last (b ++ String c "") = b.
Proof.
  induction b as [|a b IH]; simpl; [reflexivity|].
  rewrite IH. destruct b; reflexivity.
Qed.

Lemma snoc_not_empty (b : string) (c : ascii) : String.eqb (b ++ String c "") "" = false.
Proof. destruct b; reflexivity. Qed.

Lemma on_char_plain st c :
  plain c = true ->
  on_char st c = Some (mkSource (input_buffer st ++ String c "") (is_running st) (box st)).
Proof.
  unfold plain, on_char. intros H.
  apply andb_true_iff in H as [H H3]. apply andb_true_iff in H as [H1 H2].
  apply negb_true_iff in H1, H2, H3. now rewrite H1, H2, H3.
Qed.

Lemma type_chars_app (a b : list ascii) : forall st,
  type_chars st (a ++ b) =
  match type_chars st a with
  | Some st' => type_chars st' b
  | None => None
  end.
Proof.
  induction a as [|c a IH]; intros st; simpl; [reflexivity|].
  destruct (is_running st) eqn:Hr.
  - destruct (on_char st c); [apply IH | reflexivity].
  - destruct b; simpl; [reflexivity | now rewrite Hr].
Qed.

(** Typing plain characters appends them to the line. *)
Lemma type_plain (text : list ascii) : forall buf b,
  forallb plain text = true ->
  type_chars (mkSource buf true b) text =
  Some (mkSource (buf ++ string_of_list_ascii text) true b).
Proof.
  induction text as [|c text IH]; intros buf b H; simpl.
  - f_equal. f_equal. induction buf as [|a buf IHb]; simpl; [reflexivity | now f_equal].
  - simpl in H. apply andb_true_iff in H as [Hc H].
    rewrite on_char_plain by exact Hc. simpl.
    rewrite IH by exact H. now rewrite append_snoc.
Qed.

(** Enter after a line that is neither blank nor an exit word publishes the
    stripped line, empties the buffer and keeps the loop running; the next
    [get] returns that line. *)
Theorem enter_publishes_stripped_line
    (history : list op) (buf : string) (text : list ascii) :
  let line := Str.strip (buf ++ string_of_list_ascii text) in
  forallb plain text = true ->
  String.eqb line "" = false ->
  is_exit_word line = false ->
  exists b0 b1,
    keyboard_run history keyboard_init = Some b0 /\
    type_chars (mkSource buf true b0) (text ++ [enter]) = Some (mkSource "" true b1) /\
    fst (keyboard_get b1) = Some line.
Proof.
  intros line Hplain Hline Hexit.
  destruct (keyboard_run_ok history keyboard_init keyboard_ok_init) as (b0 & Hrun & Hok0).
  destruct (_put_result_ok line b0 Hok0) as (b1 & Hput & Hok1 & Hitems & Hflag).
  exists b0, b1. split; [exact Hrun|].
  rewrite type_chars_app, type_plain by exact Hplain.
  simpl. unfold on_char. simpl. fold line. rewrite Hline. simpl.
  rewrite Hexit, Hput. split; [reflexivity|].
  destruct b1 as [[m its] f]; simpl in *; subst. reflexivity.
Qed.

Lemma enter_publishes_stripped_line_witness :
  exists b0 b1,
    keyboard_run [Publish "box"; Read] keyboard_init = Some b0 /\
    type_chars (mkSource " gr" true b0) (list_ascii_of_string "ab the cup " ++ [enter])
      = Some (mkSource "" true b1) /\
    fst (keyboard_get b1) = Some (Str.strip (" gr" ++ string_of_list_ascii
                                               (list_ascii_of_string "ab the cup "))).
Proof.
  apply (enter_publishes_stripped_line [Publish "box"; Read] " gr"
           (list_ascii_of_string "ab the cup ")); reflexivity.
Defined.

(** Backspace undoes typing: after any plain text, as many backspaces as
    characters typed restore the source exactly. *)
Theorem backspaces_undo_typing (st : source) (text : list ascii) :
  is_running st = true ->
  forallb plain text = true ->
  type_chars st (text ++ repeat backspace (length text)) = Some st.
Proof.
  revert st. induction text as [|c text IH]; intros st Hr H; simpl; [reflexivity|].
  simpl in H. apply andb_true_iff in H as [Hc H].
  rewrite Hr, on_char_plain by exact Hc.
  replace (backspace :: repeat backspace (length text))
    with (repeat backspace (length text) ++ [backspace])
    by (rewrite <- repeat_cons; reflexivity).
  rewrite app_assoc, type_chars_app, IH by (simpl; assumption).
  simpl. rewrite Hr. unfold on_char. simpl.
  rewrite snoc_not_empty, drop_last_snoc. simpl.
  destruct st as [buf run b]. simpl in *. now subst.
Qed.

Lemma backspaces_undo_typing_witness :
  type_chars (mkSource "cu" true keyboard_init)
             (list_ascii_of_string "press" ++ repeat backspace 5)
  = Some (mkSource "cu" true keyboard_init).
Proof.
  apply (backspaces_undo_typing (mkSource "cu" true keyboard_init)
           (list_ascii_of_string "press")); reflexivity.
Defined.

(** An exit word (in any letter case, with surrounding blanks) followed by
    Enter stops the loop: nothing is published, and whatever is typed
    afterwards is not read. *)
Theorem exit_word_stops_loop
    (buf : string) (b : keyboard_box) (text more : list ascii) :
  forallb plain text = true ->
  is_exit_word (Str.strip (buf ++ string_of_list_ascii text)) = true ->
  type_chars (mkSource buf true b) (text ++ enter :: more) = Some (mkSource "" false b).
Proof.
  intros Hplain Hexit.
  rewrite type_chars_app, type_plain by exact Hplain.
  simpl. unfold on_char. simpl.
  destruct (String.eqb (Str.strip (buf ++ string_of_list_ascii text)) "") eqn:He.
  - apply String.eqb_eq in He. rewrite He in Hexit. discriminate Hexit.
  - simpl. rewrite Hexit. destruct more; reflexivity.
Qed.

Lemma exit_word_stops_loop_witness :
  type_chars (mkSource "" true keyboard_init)
             (list_ascii_of_string " QuIt " ++ enter :: list_ascii_of_string "box")
  = Some (mkSource "" false keyboard_init).
Proof.
  apply (exit_word_stops_loop "" keyboard_init (list_ascii_of_string " QuIt ")
           (list_ascii_of_string "box")); reflexivity.
Defined.

End KeyboardInput.

(** ** Reversal and suffixes of strings *)

Module StrFacts.

#[local] Arguments String.append : simpl nomatch.

Lemma append_empty_r (s : string) : (s ++ "")%string = s.
Proof. induction s as [|a s IH]; simpl; [reflexivity | now rewrite IH]. Qed.

Lemma append_assoc (s t u : string) : ((s ++ t) ++ u)%string = (s ++ (t ++ u))%string.
Proof. induction s as [|a s IH]; simpl; [reflexivity | now rewrite IH]. Qed.

Lemma rev_app_append (s acc : string) :
  String.rev_app s acc = (String.rev s ++ acc)%string.
Proof.
  unfold String.rev. revert acc.
  induction s as [|a s IH]; intros acc; simpl; [reflexivity|].
  rewrite (IH (String a acc)), (IH (String a "")), append_assoc. reflexivity.
Qed.

Lemma rev_cons (a : ascii) (s : string) :
  String.rev (String a s) = (String.rev s ++ String a "")%string.
Proof. unfold String.rev at 1. simpl. apply rev_app_append. Qed.

Lemma rev_append (s t : string) :
  String.rev (s ++ t) = (String.rev t ++ String.rev s)%string.
Proof.
  induction s as [|a s IH]; simpl.
  - now rewrite append_empty_r.
  - now rewrite !rev_cons, IH, append_assoc.
Qed.

Lemma rev_involutive (s : string) : String.rev (String.rev s) = s.
Proof.
  induction s as [|a s IH]; [reflexivity|].
  rewrite rev_cons, rev_append, IH. reflexivity.
Qed.

(** A name with [".txt"] appended ends with [".txt"], and dropping the last
    four characters gives the name back. *)
Lemma ends_with_txt (name : string) :
  Retrieve.ends_with ".txt" (name ++ ".txt") = true.
Proof.
  unfold Retrieve.ends_with. rewrite rev_append.
  change (String.rev ".txt") with "txt."%string. simpl.
  repeat (destruct (ascii_dec _ _); [|congruence]).
  now destruct (String.rev name).
Qed.

Lemma drop_last4_txt (name : string) :
  Retrieve.drop_last4 (name ++ ".txt") = name.
Proof.
  unfold Retrieve.drop_last4. rewrite rev_append.
  change (String.rev ".txt") with "txt."%string. simpl.
  apply rev_involutive.
Qed.

Lemma prefix_cons_inv (a : ascii) (s1 s2 : string) :
  String.prefix (String a s1) s2 = true ->
  exists s2', s2 = String a s2' /\ String.prefix s1 s2' = true.
Proof.
  destruct s2 as [|b s2']; [discriminate|].
  change (String.prefix (String a s1) (String b s2'))
    with (if ascii_dec a b then String.prefix s1 s2' else false).
  destruct (ascii_dec a b) as [->|]; [|discriminate].
  intros H. now exists s2'.
Qed.

(** Conversely, a string that ends with [".txt"] is its first part followed
    by [".txt"]. *)
Lemma ends_with_txt_inv (f : string) :
  Retrieve.ends_with ".txt" f = true -> f = (Retrieve.drop_last4 f ++ ".txt")%string.
Proof.
  unfold Retrieve.ends_with, Retrieve.drop_last4.
  change (String.rev ".txt") with "txt."%string.
  intros H.
  apply prefix_cons_inv in H as (r1 & E1 & H).
  apply prefix_cons_inv in H as (r2 & E2 & H).
  apply prefix_cons_inv in H as (r3 & E3 & H).
  apply prefix_cons_inv in H as (r4 & E4 & _).
  subst r1 r2 r3. rewrite <- (rev_involutive f) at 1. rewrite E1. simpl.
  change (String "t" (String "x" (String "t" (String "." r4))))
    with ("txt." ++ r4)%string.
  rewrite rev_append. reflexivity.
Qed.

End StrFacts.

(** ** More on the retriever: scores, the best match, the worker loop *)

Module RetrieveFacts.

Import Retrieve.

(** The worker of [Retrieve]: the input slot written by [retrieve], the
    result slot read by [get], and the catalog. *)
Record worker : Type := mkWorker {
  input : string;
  have_new_input : bool;
  results : Mailbox.retrieve_box;
  catalog : retriever
}.

(** [Retrieve.retrieve]. *)
Definition retrieve (w : worker) (query : string) : worker :=
  mkWorker query true (results w) (catalog w).

Section Worker.

Variable ratio : string -> string -> Q.
Variable llm : string -> option string.

(** One pass of the loop of [Retrieve.spin]: the worker afterwards and the
    prompts sent to the classifier. *)
Definition spin_pass (w : worker) : worker * list string :=
  let '(current_input, w1) :=
    if have_new_input w
    then (Some (input w), mkWorker (input w) false (results w) (catalog w))
    else (None, w) in
  if truthy current_input then
    let '(type_name, calls) := _retrieve ratio llm (catalog w1) (or_empty current_input) in
    (mkWorker (input w1) (have_new_input w1)
              (Mailbox.spin_publish type_name (results w1)) (catalog w1),
     calls)
  else (w1, []).

End Worker.

(** A catalog file with descriptions. *)
Definition described_catalog : retriever :=
  load_type_library
    (Some [mkGesture (Str "box") (Str "box") (Str "hold a large box with both sides")
                     (Str "flat palm") (Some ["carry"; "lift"; "hold"; "move"]%string);
           mkGesture (Str "pen") Absent (Str "write with a thin pen") Null None]) [].

Section ScoreFacts.

Variable ratio : string -> string -> Q.

Lemma bonus_intent_fold_nonneg (q : string) (intents : list string) : forall acc,
  0 <= acc ->
  0 <= fold_left
         (fun acc it =>
            if negb (String.eqb it "") && Str.contains (Str.lower it) q
            then acc + 0.1 else acc)
         intents acc.
Proof.
  induction intents as [|it intents IH]; intros acc Hacc; simpl; [exact Hacc|].
  apply IH. destruct (negb (String.eqb it "") && Str.contains (Str.lower it) q); lra.
Qed.

Lemma bonus_intent_bounds (q : string) (intents : list string) :
  0 <= bonus_intent_of q intents /\ bonus_intent_of q intents <= 0.3.
Proof.
  unfold bonus_intent_of. split.
  - apply Q.min_glb; [apply bonus_intent_fold_nonneg | ]; lra.
  - apply Q.le_min_r.
Qed.

(** The running best of [_local_retrieve] never decreases and dominates
    every entry met. *)
Lemma best_dominates (query : string) (ts : list gesture) : forall best best_score,
  let r := fold_left
             (fun '(best, best_score) g =>
                let s := _local_score ratio query g in
                if Qltb best_score s then (get (g_id g), s) else (best, best_score))
             ts (best, best_score) in
  best_score <= snd r /\
  forall g, In g ts -> _local_score ratio query g <= snd r.
Proof.
  induction ts as [|t ts IH]; intros best best_score; simpl.
  - split; [apply Qle_refl | intros g []].
  - destruct (Qltb best_score (_local_score ratio query t)) eqn:Hlt.
    + apply Qltb_true in Hlt.
      destruct (IH (get (g_id t)) (_local_score ratio query t)) as [H1 H2].
      split; [eapply Qle_trans; [apply Qlt_le_weak, Hlt | exact H1]|].
      intros g [<- | Hg]; [exact H1 | now apply H2].
    + apply Qltb_false in Hlt.
      destruct (IH best best_score) as [H1 H2].
      split; [exact H1|].
      intros g [<- | Hg]; [eapply Qle_trans; [exact Hlt | exact H1] | now apply H2].
Qed.

Lemma ids_of_elem (ts : list gesture) (g : gesture) (lid : string) :
  In g ts -> g_id g = Str lid -> Some lid ∈ ids_of ts.
Proof.
  intros Hin Hid. induction ts as [|t ts IH]; [inversion Hin|].
  unfold ids_of in *. simpl. destruct Hin as [-> | Hin].
  - rewrite Hid. simpl. rewrite Hid. apply list_elem_of_here.
  - destruct (has_key (g_id t)); simpl; [apply list_elem_of_further|]; now apply IH.
Qed.

End ScoreFacts.

(** The score is the similarity plus three bonuses, each between 0 and its
    cap: 0.15 for the name, 0.3 for the intents, 0.15 for the usage. *)
Lemma _local_score_parts (ratio : string -> string -> Q) (query : string) (g : gesture) :
  exists bonus_name bonus_intent bonus_usage,
    _local_score ratio query g =
      ratio (Str.strip (Str.lower query)) (or_empty (get (g_id g)))
      + bonus_name + bonus_intent + bonus_usage /\
    (0 <= bonus_name /\ bonus_name <= 0.15) /\
    (0 <= bonus_intent /\ bonus_intent <= 0.3) /\
    (0 <= bonus_usage /\ bonus_usage <= 0.15).
Proof.
  unfold _local_score.
  set (q := Str.strip (Str.lower query)).
  set (hits := inject_Z (Z.of_nat (length _))).
  assert (Hh : 0 <= hits).
  { unfold hits. rewrite <- (Zle_Qle 0). lia. }
  eexists _, _, _. split; [reflexivity|]. split; [|split].
  - destruct (negb (String.eqb (or_empty (get (g_name g))) "") &&
              Str.contains (or_empty (get (g_name g))) q); split; lra.
  - apply bonus_intent_bounds.
  - split; [apply Q.min_glb; lra | apply Q.le_min_r].
Qed.

(** The local score is never below the string similarity of the query and
    the gesture id, and never above that similarity with the three largest
    bonuses added to it one after the other, 0.15, 0.3 and 0.15, in the
    order in which the code adds them (in exact arithmetic: the similarity
    plus 0.6). *)
Theorem local_score_bounds (ratio : string -> string -> Q) (query : string) (g : gesture) :
  let base := ratio (Str.strip (Str.lower query)) (or_empty (get (g_id g))) in
  base <= _local_score ratio query g /\
  _local_score ratio query g <= base + 0.15 + 0.3 + 0.15.
Proof.
  intros base.
  destruct (_local_score_parts ratio query g)
    as (bn & bi & bu & Hs & [Hn0 Hn1] & [Hi0 Hi1] & [Hu0 Hu1]).
  fold base in Hs. rewrite Hs. split.
  - apply Qle_trans with (base + bn); [lra|].
    apply Qle_trans with (base + bn + bi); lra.
  - apply Qle_trans with (base + 0.15 + bi + bu); [lra|].
    apply Qle_trans with (base + 0.15 + 0.3 + bu); lra.
Qed.

(** [_local_retrieve] returns a score that is at least the score of every
    catalog entry, and at least 0. *)
Theorem local_retrieve_is_maximal
    (ratio : string -> string -> Q) (st : retriever) (query : string) (g : gesture) :
  In g (types st) ->
  _local_score ratio query g <= snd (_local_retrieve ratio st query) /\
  0 <= snd (_local_retrieve ratio st query).
Proof.
  intros Hin. unfold _local_retrieve.
  destruct (best_dominates ratio query (types st) None 0) as [H0 Hall].
  split; [now apply Hall | exact H0].
Qed.

Lemma local_retrieve_is_maximal_witness :
  _local_score Difflib.ratio "please hold the box"
     (mkGesture (Str "pen") Absent (Str "write with a thin pen") Null None)
    <= snd (_local_retrieve Difflib.ratio described_catalog "please hold the box") /\
  0 <= snd (_local_retrieve Difflib.ratio described_catalog "please hold the box").
Proof.
  apply (local_retrieve_is_maximal Difflib.ratio described_catalog "please hold the box").
  simpl. right. left. reflexivity.
Defined.

(** For a loaded catalog, [_retrieve] answers [None] or one of the known
    ids, whatever the classifier says: an answer outside the catalog is
    never passed on. *)
Theorem retrieve_answers_known_id
    (ratio : string -> string -> Q) (llm : string -> option string)
    (st : retriever) (query : string) :
  loaded st ->
  fst (_retrieve ratio llm st query) = None \/
  fst (_retrieve ratio llm st query) ∈ type_files st.
Proof.
  intros Hloaded. unfold _retrieve.
  destruct (type_files st) as [|f fs] eqn:Hfiles; [now left|].
  destruct (_local_retrieve ratio st query) as [local_id score] eqn:Hloc.
  assert (Hlocal : truthy local_id = true -> local_id ∈ f :: fs).
  { intros Ht. destruct local_id as [lid|]; [|discriminate Ht].
    destruct (_local_retrieve_in_catalog ratio st query lid score Hloc) as (g & Hin & Hid).
    rewrite <- Hfiles, Hloaded. now apply (ids_of_elem (types st) g lid). }
  destruct (truthy local_id && Qle_bool 0.75 score) eqn:Hhigh.
  - right. simpl. apply Hlocal. now apply andb_true_iff in Hhigh as [? _].
  - unfold known. rewrite Hfiles.
    destruct (bool_decide _) eqn:Hknown.
    + right. simpl. now apply bool_decide_eq_true in Hknown.
    + destruct (truthy local_id && Qle_bool 0.55 score) eqn:Hmid.
      * right. simpl. apply Hlocal. now apply andb_true_iff in Hmid as [? _].
      * now left.
Qed.

Lemma retrieve_answers_known_id_witness :
  fst (_retrieve Difflib.ratio (fun _ => Some "a made-up gesture"%string)
         described_catalog "lift it") = None \/
  fst (_retrieve Difflib.ratio (fun _ => Some "a made-up gesture"%string)
         described_catalog "lift it") ∈ type_files described_catalog.
Proof.
  apply (retrieve_answers_known_id Difflib.ratio (fun _ => Some "a made-up gesture"%string)
           described_catalog "lift it").
  apply load_type_library_loaded.
Defined.

(** Without [_type_info.json], a gesture id is known exactly when the
    library directory lists a file of that name with the extension
    [.txt]. *)
Theorem listed_files_are_the_ids (listing : list string) (name : string) :
  Some name ∈ type_files (load_type_library None listing) <->
  In (name ++ ".txt")%string listing.
Proof.
  unfold load_type_library. simpl. split.
  - intros H. apply list_elem_of_In in H.
    apply in_map_iff in H as (n & Hn & Hin). injection Hn as ->.
    apply in_map_iff in Hin as (f & <- & Hf).
    apply filter_In in Hf as [Hf Hends].
    now rewrite <- (StrFacts.ends_with_txt_inv f Hends).
  - intros H. apply list_elem_of_In.
    apply in_map_iff. exists name. split; [reflexivity|].
    apply in_map_iff. exists (name ++ ".txt")%string.
    split; [apply StrFacts.drop_last4_txt|].
    apply filter_In. split; [exact H | apply StrFacts.ends_with_txt].
Qed.

(** Only the latest query is served: after one or more calls of
    [retrieve], the last with a non-empty [query], one pass of [spin]
    resolves [query] alone and publishes its result; the pass after that
    finds nothing to do and sends nothing to the classifier. *)
Theorem spin_serves_latest_query
    (ratio : string -> string -> Q) (llm : string -> option string)
    (w : worker) (earlier : list string) (query : string) :
  query <> ""%string ->
  let w1 := retrieve (fold_left retrieve earlier w) query in
  let w2 := fst (spin_pass ratio llm w1) in
  results w2 =
    Mailbox.spin_publish (fst (_retrieve ratio llm (catalog w) query)) (results w) /\
  snd (spin_pass ratio llm w1) = snd (_retrieve ratio llm (catalog w) query) /\
  fst (Mailbox.retrieve_get (results w2)) = fst (_retrieve ratio llm (catalog w) query) /\
  spin_pass ratio llm w2 = (w2, []).
Proof.
  intros Hq w1 w2.
  assert (Hkeep : forall qs w0, results (fold_left retrieve qs w0) = results w0 /\
                                catalog (fold_left retrieve qs w0) = catalog w0).
  { induction qs as [|x qs IH]; intros w0; simpl; [now split|].
    destruct (IH (retrieve w0 x)) as [-> ->]. now split. }
  destruct (Hkeep earlier w) as [Hres Hcat].
  assert (Ht : truthy (Some query) = true) by now apply truthy_nonempty.
  unfold w2, w1, spin_pass.
  change (have_new_input (retrieve (fold_left retrieve earlier w) query)) with true.
  cbv iota beta.
  change (truthy (Some (input (retrieve (fold_left retrieve earlier w) query))))
    with (truthy (Some query)).
  rewrite Ht. simpl. rewrite Hres, Hcat.
  destruct (_retrieve ratio llm (catalog w) query) as [type_name calls].
  simpl. repeat split.
Qed.

Lemma spin_serves_latest_query_witness :
  let llm := fun _ : string => Some "pen"%string in
  let w := mkWorker "" false Mailbox.retrieve_init described_catalog in
  let w1 := retrieve (fold_left retrieve ["open"; "lift the box"]%string w) "write a note" in
  let w2 := fst (spin_pass Difflib.ratio llm w1) in
  results w2 =
    Mailbox.spin_publish (fst (_retrieve Difflib.ratio llm (catalog w) "write a note"))
                         (results w) /\
  snd (spin_pass Difflib.ratio llm w1)
    = snd (_retrieve Difflib.ratio llm (catalog w) "write a note") /\
  fst (Mailbox.retrieve_get (results w2))
    = fst (_retrieve Difflib.ratio llm (catalog w) "write a note") /\
  spin_pass Difflib.ratio llm w2 = (w2, []).
Proof.
  apply (spin_serves_latest_query Difflib.ratio (fun _ => Some "pen"%string)
           (mkWorker "" false Mailbox.retrieve_init described_catalog)
           ["open"; "lift the box"]%string "write a note").
  discriminate.
Defined.

End RetrieveFacts.

(** ** Lines of numbers: stripping, splitting and joining *)

Module LineFacts.

Import StrFacts.

#[local] Arguments String.append : simpl nomatch.

(** Every character of [s] satisfies [p]. *)
Fixpoint all_chars (p : ascii -> bool) (s : string) : bool :=
  match s with
  | EmptyString => true
  | String a rest => p a && all_chars p rest
  end.

(** [s] is empty or begins with a character that [p] rejects. *)
Definition starts_outside (p : ascii -> bool) (s : string) : Prop :=
  match s with
  | EmptyString => True
  | String a _ => p a = false
  end.

Definition ends_outside (p : ascii -> bool) (s : string) : Prop :=
  starts_outside p (String.rev s).

Definition is_bracket (a : ascii) : bool :=
  existsb (Ascii.eqb a) (list_ascii_of_string "[]").

(** A character of a written number: no white space, comma or bracket. *)
Definition number_char (a : ascii) : bool :=
  negb (Ascii.is_space a) && negb (Ascii.eqb a ",") && negb (is_bracket a).

(** A token as [str(x)] writes it: not empty, number characters only. *)
Definition token (t : string) : bool :=
  negb (String.eqb t "") && all_chars number_char t.

Lemma all_chars_append p s t : all_chars p (s ++ t) = all_chars p s && all_chars p t.
Proof.
  induction s as [|a s IH]; simpl; [reflexivity|]. now rewrite IH, andb_assoc.
Qed.

Lemma all_chars_rev p s : all_chars p (String.rev s) = all_chars p s.
Proof.
  induction s as [|a s IH]; [reflexivity|].
  rewrite rev_cons, all_chars_append, IH. simpl.
  rewrite andb_true_r. apply andb_comm.
Qed.

Lemma all_chars_weaken (p q : ascii -> bool) s :
  (forall a, p a = true -> q a = true) -> all_chars p s = true -> all_chars q s = true.
Proof.
  intros Hpq. induction s as [|a s IH]; simpl; [reflexivity|].
  intros H. apply andb_true_iff in H as [Ha Hs].
  apply andb_true_iff. split; [now apply Hpq | now apply IH].
Qed.

Lemma all_outside_starts p s :
  all_chars (fun a => negb (p a)) s = true -> starts_outside p s.
Proof.
  destruct s as [|a s]; simpl; [trivial|].
  intros H. apply andb_true_iff in H as [Ha _]. now apply negb_true_iff.
Qed.

Lemma all_outside_ends p s :
  all_chars (fun a => negb (p a)) s = true -> ends_outside p s.
Proof.
  intros H. apply all_outside_starts. now rewrite all_chars_rev.
Qed.

Lemma rev_not_empty s : s <> ""%string -> String.rev s <> ""%string.
Proof.
  destruct s as [|a s]; [congruence|]. intros _. rewrite rev_cons.
  destruct (String.rev s); discriminate.
Qed.

Lemma starts_outside_append p s t :
  s <> ""%string -> starts_outside p s -> starts_outside p (s ++ t).
Proof. destruct s as [|a s]; [congruence | trivial]. Qed.

Lemma ends_outside_append p s t :
  t <> ""%string -> ends_outside p t -> ends_outside p (s ++ t).
Proof.
  intros Ht H. unfold ends_outside. rewrite rev_append.
  apply starts_outside_append; [now apply rev_not_empty | exact H].
Qed.

Lemma lstrip_all p s t :
  all_chars p s = true -> Str.lstrip_by p (s ++ t) = Str.lstrip_by p t.
Proof.
  induction s as [|a s IH]; simpl; [reflexivity|].
  intros H. apply andb_true_iff in H as [Ha Hs]. rewrite Ha. now apply IH.
Qed.

Lemma lstrip_outside p s : starts_outside p s -> Str.lstrip_by p s = s.
Proof. destruct s as [|a s]; simpl; [reflexivity|]. now intros ->. Qed.

Lemma lstrip_all_empty p s : all_chars p s = true -> Str.lstrip_by p s = ""%string.
Proof.
  intros H. rewrite <- (append_empty_r s). now rewrite lstrip_all.
Qed.

Lemma rstrip_all p s t :
  ends_outside p s -> all_chars p t = true -> Str.rstrip_by p (s ++ t) = s.
Proof.
  intros Hs Ht. unfold Str.rstrip_by. rewrite rev_append.
  rewrite lstrip_all by now rewrite all_chars_rev.
  rewrite lstrip_outside by exact Hs. apply rev_involutive.
Qed.

(** Stripping removes a frame of strippable characters around a core that
    begins and ends with characters that are kept. *)
Lemma strip_by_frame p pre s post :
  all_chars p pre = true -> all_chars p post = true ->
  starts_outside p s -> ends_outside p s ->
  Str.strip_by p (pre ++ s ++ post) = s.
Proof.
  intros Hpre Hpost Hs He. unfold Str.strip_by.
  rewrite lstrip_all by exact Hpre.
  destruct s as [|a s].
  - simpl. now rewrite lstrip_all_empty.
  - rewrite lstrip_outside by exact Hs. now apply rstrip_all.
Qed.

Lemma replace_char_append old new s t :
  Str.replace_char old new (s ++ t) =
  (Str.replace_char old new s ++ Str.replace_char old new t)%string.
Proof. induction s as [|a s IH]; simpl; [reflexivity | now rewrite IH]. Qed.

Lemma replace_char_absent old new s :
  all_chars (fun a => negb (Ascii.eqb a old)) s = true ->
  Str.replace_char old new s = s.
Proof.
  induction s as [|a s IH]; simpl; [reflexivity|].
  intros H. apply andb_true_iff in H as [Ha Hs].
  apply negb_true_iff in Ha. rewrite Ha. now rewrite IH.
Qed.

(** [split]: a word in progress ([w], reversed) is extended by characters
    that are not white space, and closed by white space or the end. *)
Lemma words_go_word (t : string) : forall (w s : string),
  all_chars (fun a => negb (Ascii.is_space a)) t = true ->
  String.words_go (Some w) (t ++ s) = String.words_go (Some (String.rev_app t w)) s.
Proof.
  induction t as [|a t IH]; intros w s H; simpl; [reflexivity|].
  simpl in H. apply andb_true_iff in H as [Ha Ht].
  apply negb_true_iff in Ha. rewrite Ha. simpl. now apply IH.
Qed.

Lemma words_go_start (t s : string) :
  t <> ""%string ->
  all_chars (fun a => negb (Ascii.is_space a)) t = true ->
  String.words_go None (t ++ s) = String.words_go (Some (String.rev t)) s.
Proof.
  destruct t as [|a t]; [congruence|]. intros _ H. simpl in *.
  apply andb_true_iff in H as [Ha Ht].
  apply negb_true_iff in Ha. rewrite Ha. simpl.
  rewrite words_go_word by exact Ht. reflexivity.
Qed.

Lemma words_go_spaces (sp s : string) :
  all_chars Ascii.is_space sp = true ->
  String.words_go None (sp ++ s) = String.words_go None s.
Proof.
  induction sp as [|a sp IH]; simpl; [reflexivity|].
  intros H. apply andb_true_iff in H as [Ha Hs]. rewrite Ha. simpl. now apply IH.
Qed.

Lemma words_go_close (w sp s : string) :
  sp <> ""%string -> all_chars Ascii.is_space sp = true ->
  String.words_go (Some w) (sp ++ s) = String.rev w :: String.words_go None s.
Proof.
  destruct sp as [|a sp]; [congruence|]. intros _ H. simpl in *.
  apply andb_true_iff in H as [Ha Hs]. rewrite Ha. simpl.
  f_equal. now apply words_go_spaces.
Qed.

Definition no_space (t : string) : Prop :=
  t <> ""%string /\ all_chars (fun a => negb (Ascii.is_space a)) t = true.

(** Splitting a line of words joined by white space gives the words. *)
Lemma split_join (sep : string) (toks : list string) :
  sep <> ""%string -> all_chars Ascii.is_space sep = true ->
  Forall no_space toks ->
  Str.split (Str.join sep toks) = toks.
Proof.
  intros Hsep Hsp Htoks. unfold Str.split, String.words.
  induction Htoks as [|t toks [Hne Ht] Hrest IH]; [reflexivity|].
  destruct toks as [|t' toks].
  - simpl. rewrite <- (append_empty_r t) at 1. rewrite words_go_start by assumption.
    simpl. now rewrite rev_involutive.
  - change (Str.join sep (t :: t' :: toks))
      with (t ++ sep ++ Str.join sep (t' :: toks))%string.
    rewrite words_go_start by assumption.
    rewrite words_go_close by assumption.
    rewrite rev_involutive. now f_equal.
Qed.

Lemma token_parts (t : string) :
  token t = true ->
  t <> ""%string /\ all_chars number_char t = true.
Proof.
  unfold token. intros H. apply andb_true_iff in H as [Hne Hall].
  split; [|exact Hall]. apply negb_true_iff in Hne. now apply String.eqb_neq.
Qed.

Lemma token_no_space (t : string) : token t = true -> no_space t.
Proof.
  intros H. apply token_parts in H as [Hne Hall]. split; [exact Hne|].
  revert Hall. apply all_chars_weaken. intros a Ha. unfold number_char in Ha.
  apply andb_true_iff in Ha as [Ha _]. now apply andb_true_iff in Ha as [Ha _].
Qed.

End LineFacts.

(** ** [Retrieve._retrieve]: the high-confidence return *)

Module RetrieveConfident.

Import Retrieve LineFacts StrFacts.

#[local] Arguments String.append : simpl nomatch.

Lemma is_space_lower (a : ascii) :
  Ascii.is_space (Str.lower_ascii a) = Ascii.is_space a.
Proof. destruct a as [[] [] [] [] [] [] [] []]; reflexivity. Qed.

Lemma all_chars_lower (s : string) :
  all_chars Ascii.is_space (Str.lower s) = all_chars Ascii.is_space s.
Proof.
  induction s as [|a s IH]; simpl; [reflexivity|]. now rewrite is_space_lower, IH.
Qed.

Lemma lstrip_empty_all p s : Str.lstrip_by p s = ""%string -> all_chars p s = true.
Proof.
  induction s as [|a s IH]; simpl; [reflexivity|].
  destruct (p a); [exact IH | discriminate].
Qed.

Lemma lstrip_starts_outside p s : starts_outside p (Str.lstrip_by p s).
Proof.
  induction s as [|a s IH]; simpl; [trivial|].
  destruct (p a) eqn:Ha; [exact IH | exact Ha].
Qed.

Lemma lstrip_snoc_kept p (x : string) (a : ascii) :
  p a = false -> Str.lstrip_by p (x ++ String a "") <> ""%string.
Proof.
  intros Ha. induction x as [|b x IH]; simpl.
  - rewrite Ha. discriminate.
  - destruct (p b); [exact IH | discriminate].
Qed.

(** [strip] leaves nothing exactly of the strings made of strippable
    characters only. *)
Lemma strip_by_empty p s :
  Str.strip_by p s = ""%string <-> all_chars p s = true.
Proof.
  unfold Str.strip_by, Str.rstrip_by. split.
  - intros H.
    destruct (Str.lstrip_by p s) as [|a r] eqn:Ht; [now apply lstrip_empty_all|].
    exfalso.
    pose proof (lstrip_starts_outside p s) as Hout. rewrite Ht in Hout. simpl in Hout.
    rewrite rev_cons in H.
    apply (lstrip_snoc_kept p (String.rev r) a Hout).
    destruct (Str.lstrip_by p (String.rev r ++ String a "")) as [|c t] eqn:E;
      [reflexivity|].
    exfalso. revert H. apply rev_not_empty. discriminate.
  - intros H. rewrite (lstrip_all_empty p s H). reflexivity.
Qed.

(** A query that is not blank is not blank after [lower()] either. *)
Lemma lower_not_blank (query : string) :
  Str.strip query <> ""%string -> Str.strip (Str.lower query) <> ""%string.
Proof.
  unfold Str.strip. intros H E. apply H.
  apply strip_by_empty. rewrite <- all_chars_lower. now apply strip_by_empty.
Qed.

Lemma best_in_a_nil (a : list ascii) : forall i best,
  snd best = 0%nat -> snd (Difflib.best_in_a a [] i best) = 0%nat.
Proof.
  induction a as [|x a IH]; intros i best Hb; simpl; [exact Hb|].
  apply IH. destruct best as [[bi bj] bk]. simpl in Hb. subst bk. reflexivity.
Qed.

Lemma matches_nil (fuel : nat) (a : list ascii) : Difflib.matches fuel a [] = 0%nat.
Proof.
  destruct fuel as [|fuel]; [reflexivity|]. simpl.
  pose proof (best_in_a_nil a 0 (0, 0, 0)%nat eq_refl) as H.
  unfold Difflib.find_longest_match.
  destruct (Difflib.best_in_a a [] 0 (0, 0, 0)%nat) as [[i j] k].
  simpl in H. subst k. reflexivity.
Qed.

(** [SequenceMatcher(None, q, '').ratio()] is 0 for a non-empty [q]: there
    is nothing to match. *)
Lemma ratio_empty_r (q : string) : q <> ""%string -> Difflib.ratio q "" == 0.
Proof.
  intros Hq. unfold Difflib.ratio. simpl list_ascii_of_string at 2.
  destruct q as [|c q]; [congruence|].
  rewrite matches_nil. simpl. reflexivity.
Qed.

(** What [_local_retrieve] returns is the start value, or the id and the
    score of one entry of the catalog. *)
Lemma best_is_scored (ratio : string -> string -> Q) (query : string) (ts : list gesture) :
  forall best0 score0 best score,
    fold_left
      (fun '(best, best_score) g =>
         let s := _local_score ratio query g in
         if Qltb best_score s then (get (g_id g), s) else (best, best_score))
      ts (best0, score0) = (best, score) ->
    (best = best0 /\ score = score0) \/
    exists g, In g ts /\ best = get (g_id g) /\ score = _local_score ratio query g.
Proof.
  induction ts as [|t ts IH]; intros best0 score0 best score H; simpl in H.
  - left. injection H as <- <-. split; reflexivity.
  - destruct (Qltb score0 (_local_score ratio query t)).
    + destruct (IH _ _ _ _ H) as [[-> ->] | (g & Hg & Hb & Hs)].
      * right. exists t. split; [now left | split; reflexivity].
      * right. exists g. split; [now right | split; assumption].
    + destruct (IH _ _ _ _ H) as [[-> ->] | (g & Hg & Hb & Hs)].
      * left. split; reflexivity.
      * right. exists g. split; [now right | split; assumption].
Qed.

(** An entry without an id, or with the empty id, scores at most 0.6
    against a query that is not blank. *)
Lemma nameless_scores_low (ratio : string -> string -> Q) (query : string) (g : gesture) :
  (forall q, q <> ""%string -> ratio q "" == 0) ->
  Str.strip query <> ""%string ->
  or_empty (get (g_id g)) = ""%string ->
  _local_score ratio query g <= 0.6.
Proof.
  intros Hratio Hquery Hid.
  destruct (RetrieveFacts._local_score_parts ratio query g)
    as (bn & bi & bu & Hs & [_ Hn] & [_ Hi] & [_ Hu]).
  rewrite Hs, Hid, (Hratio _ (lower_not_blank query Hquery)). lra.
Qed.

(** C4. For a loaded catalog and every query that is not blank (the text
    sources publish no other, and [spin] passes on no empty one) whose best
    local score is at least 0.75, [_retrieve] returns the best-scoring
    catalog id, a non-empty known id, and sends nothing to the external
    classifier, whatever the classifier would answer.  [ratio] is any
    similarity that, like [difflib]'s, is 0 between a non-empty string and
    the empty one. *)
Theorem high_confidence_returns_local
    (ratio : string -> string -> Q) (llm : string -> option string)
    (st : retriever) (query : string) (best : option string) (score : Q) :
  (forall q, q <> ""%string -> ratio q "" == 0) ->
  Str.strip query <> ""%string ->
  loaded st ->
  _local_retrieve ratio st query = (best, score) ->
  0.75 <= score ->
  _retrieve ratio llm st query = (best, []) /\
  exists lid, best = Some lid /\ lid <> ""%string /\ Some lid ∈ type_files st.
Proof.
  intros Hratio Hquery Hloaded Hloc Hscore.
  pose proof Hloc as Hfold. unfold _local_retrieve in Hfold.
  apply best_is_scored in Hfold.
  destruct Hfold as [[_ ->] | (g & Hin & Hbest & Hs)]; [exfalso; lra|].
  assert (Hlow : or_empty (get (g_id g)) = ""%string -> False).
  { intros Hid.
    pose proof (nameless_scores_low ratio query g Hratio Hquery Hid) as H.
    rewrite <- Hs in H. lra. }
  destruct (g_id g) as [| |lid] eqn:Hid; simpl in Hbest, Hlow;
    [exfalso; now apply Hlow | exfalso; now apply Hlow |].
  assert (Hlid : lid <> ""%string) by (intros ->; now apply Hlow).
  subst best. split.
  - now apply _retrieve_confident_id with (score := score).
  - exists lid. split; [reflexivity|]. split; [exact Hlid|].
    rewrite Hloaded. now apply RetrieveFacts.ids_of_elem with (g := g).
Qed.

Lemma high_confidence_returns_local_witness :
  _retrieve Difflib.ratio (fun _ => Some "cup"%string) two_gestures " Box "
    = (Some "box"%string, []) /\
  exists lid, Some "box"%string = Some lid /\ lid <> ""%string /\
              Some lid ∈ type_files two_gestures.
Proof.
  apply (high_confidence_returns_local Difflib.ratio (fun _ => Some "cup"%string)
           two_gestures " Box " (Some "box"%string)
           (snd (_local_retrieve Difflib.ratio two_gestures " Box "))).
  - exact ratio_empty_r.
  - vm_compute. discriminate.
  - apply load_type_library_loaded.
  - vm_compute. reflexivity.
  - apply Qle_bool_iff. vm_compute. reflexivity.
Defined.

End RetrieveConfident.

(** ** More on gesture files: the formats read, the errors raised, the
    recorder's output *)

Module RunnerFacts.

Import Runner LineFacts StrFacts.

#[local] Arguments String.append : simpl nomatch.

Definition newline : string := String "010"%char "".

(** [LeapCreateType.save_data]: the two lines written to the gesture file,
    [' '.join(map(str, pos)) + '\n'] for the open and the close pose.
    [show] is Python's [str] of a float. *)
Definition save_lines (show : Q -> string) (open_pos close_pos : list Q) : list string :=
  [(Str.join " " (map show open_pos) ++ newline)%string;
   (Str.join " " (map show close_pos) ++ newline)%string].

(** [record_open] / [record_close]: what [_get_current_leap_pos] makes of
    the position read from the hand. *)
Definition record (current_pos : list Q) : option (list Q) :=
  Codec._get_current_leap_pos Qminus Codec.offsetQ current_pos.

(** Sixteen written numbers, and the values they stand for. *)
Definition sixteen_tokens : list string :=
  ["0.1"; "-0.25"; "1.5"; "2"; "0.0"; ".5"; "-1"; "0.75";
   "1.25"; "3"; "0.5"; "0.6"; "0.7"; "0.8"; "0.9"; "1.0"]%string.

(** A decimal writer for the worked example: the reader of [Str] applied to
    the written form gives the value back on the values below. *)
Definition show_two (x : Q) : string :=
  if Qeq_bool x (-(14159 # 100000)) then "-0.14159" else "0.85841".

(** A hand read at 3 rad on every joint when open, 4 rad when closed. *)
Definition hand_open : list Q := repeat 3 16.
Definition hand_closed : list Q := repeat 4 16.

Lemma join_cons2 sep t t' rest :
  Str.join sep (t :: t' :: rest) = (t ++ sep ++ Str.join sep (t' :: rest))%string.
Proof. reflexivity. Qed.

Lemma join_not_empty sep (toks : list string) :
  toks <> [] -> Forall (fun t => t <> ""%string) toks -> Str.join sep toks <> ""%string.
Proof.
  intros Hne H. destruct H as [|t toks Ht Hrest]; [congruence|].
  destruct toks as [|t' toks]; [exact Ht|].
  rewrite join_cons2. destruct t; [congruence | discriminate].
Qed.

Lemma join_starts p sep (toks : list string) :
  Forall (fun t => t <> ""%string /\ starts_outside p t) toks ->
  starts_outside p (Str.join sep toks).
Proof.
  intros H. destruct H as [|t toks [Hne Ht] Hrest]; [exact I|].
  destruct toks as [|t' toks]; [exact Ht|].
  rewrite join_cons2. now apply starts_outside_append.
Qed.

Lemma join_ends p sep (toks : list string) :
  Forall (fun t => t <> ""%string /\ ends_outside p t) toks ->
  ends_outside p (Str.join sep toks).
Proof.
  intros H. induction H as [|t toks [Hne Ht] Hrest IH]; [exact I|].
  destruct toks as [|t' toks]; [exact Ht|].
  rewrite join_cons2, <- append_assoc.
  apply ends_outside_append; [|exact IH].
  apply join_not_empty; [discriminate|].
  eapply Forall_impl; [exact Hrest | now intros x [Hx _]].
Qed.

Lemma all_chars_join p sep (toks : list string) :
  all_chars p sep = true -> Forall (fun t => all_chars p t = true) toks ->
  all_chars p (Str.join sep toks) = true.
Proof.
  intros Hsep H. induction H as [|t toks Ht Hrest IH]; [reflexivity|].
  destruct toks as [|t' toks]; [exact Ht|].
  rewrite join_cons2, !all_chars_append, Ht, Hsep. exact IH.
Qed.

Lemma replace_char_join old new sep (toks : list string) :
  Forall (fun t => all_chars (fun a => negb (Ascii.eqb a old)) t = true) toks ->
  Str.replace_char old new (Str.join sep toks) =
  Str.join (Str.replace_char old new sep) toks.
Proof.
  intros H. induction H as [|t toks Ht Hrest IH]; [reflexivity|].
  destruct toks as [|t' toks]; [now apply replace_char_absent|].
  rewrite !join_cons2, !replace_char_append, IH.
  now rewrite (replace_char_absent old new t).
Qed.

Lemma number_char_outside (p : ascii -> bool) :
  (forall a, number_char a = true -> p a = false) ->
  forall t, token t = true ->
    t <> ""%string /\ starts_outside p t /\ ends_outside p t /\
    all_chars (fun a => negb (p a)) t = true.
Proof.
  intros Hp t Ht. apply token_parts in Ht as [Hne Hall].
  assert (Hout : all_chars (fun a => negb (p a)) t = true).
  { revert Hall. apply all_chars_weaken. intros a Ha. apply negb_true_iff. now apply Hp. }
  repeat split; [exact Hne | now apply all_outside_starts | now apply all_outside_ends
                | exact Hout].
Qed.

Lemma number_char_no_space a : number_char a = true -> Ascii.is_space a = false.
Proof.
  unfold number_char. intros H. apply andb_true_iff in H as [H _].
  apply andb_true_iff in H as [H _]. now apply negb_true_iff.
Qed.

Lemma number_char_no_comma a : number_char a = true -> Ascii.eqb a "," = false.
Proof.
  unfold number_char. intros H. apply andb_true_iff in H as [H _].
  apply andb_true_iff in H as [_ H]. now apply negb_true_iff.
Qed.

Lemma number_char_no_bracket a : number_char a = true -> is_bracket a = false.
Proof.
  unfold number_char. intros H. apply andb_true_iff in H as [_ H].
  now apply negb_true_iff.
Qed.

Lemma filter_tokens (toks : list string) :
  forallb token toks = true ->
  List.filter (fun p => negb (String.eqb p "")) toks = toks.
Proof.
  induction toks as [|t toks IH]; simpl; [reflexivity|].
  intros H. apply andb_true_iff in H as [Ht H].
  unfold token in Ht. apply andb_true_iff in Ht as [-> _]. now rewrite IH.
Qed.

Lemma tokens_Forall (P : string -> Prop) (toks : list string) :
  (forall t, token t = true -> P t) -> forallb token toks = true -> Forall P toks.
Proof.
  intros HP H. apply Forall_forall. intros t Ht. apply HP.
  rewrite forallb_forall in H. apply H. now apply list_elem_of_In.
Qed.

Section Parsing.

Variable float : string -> option Q.

(** What [parse_line] does with a line once the leading and trailing
    white space and the brackets are gone. *)
Lemma parse_line_core (line : string) (core : string) (toks : list string) (vals : list Q) :
  Str.strip_chars "[]" (Str.strip line) = core ->
  Str.split (Str.replace_char "," " " core) = toks ->
  forallb token toks = true ->
  mapM float toks = Some vals ->
  length vals = 16%nat ->
  parse_line float line = Returns vals.
Proof.
  intros Hcore Hsplit Htok Hvals Hlen. unfold parse_line.
  rewrite Hcore, Hsplit, filter_tokens by exact Htok.
  rewrite Hvals, Hlen. reflexivity.
Qed.

Lemma parse_line_raises (line : string) (e : exn) :
  parse_line float line = Raises e -> e = ValueError.
Proof.
  unfold parse_line. destruct (mapM float _) as [vals|]; [|congruence].
  destruct (negb (length vals =? 16)%nat); congruence.
Qed.


Lemma parse_line_empty : parse_line float "" = Raises ValueError.
Proof. reflexivity. Qed.

Lemma mapM_show (show : Q -> string) (xs : list Q) :
  Forall (fun x => float (show x) = Some x) xs -> mapM float (map show xs) = Some xs.
Proof.
  intros H. induction H as [|x xs Hx Hrest IH]; [reflexivity|].
  simpl. rewrite Hx. simpl. rewrite IH. reflexivity.
Qed.

End Parsing.

Lemma put_at_length {T} (idx : list nat) : forall (a vec : list T),
  length (Codec.put_at a idx vec) = length a.
Proof.
  induction idx as [|i idx IH]; intros a vec; simpl; [reflexivity|].
  destruct vec as [|v vec]; [reflexivity|].
  rewrite IH. apply length_insert.
Qed.

Lemma _decode_saved_raises (vec : list Q) (e : exn) :
  _decode_saved vec = Raises e -> e = ValueError.
Proof. unfold _decode_saved. destruct (Codec._decode_saved _ _ _ vec); congruence. Qed.

Lemma _decode_saved_length (vec pos : list Q) :
  _decode_saved vec = Returns pos -> length pos = 16%nat.
Proof.
  unfold _decode_saved.
  destruct (Codec._decode_saved 0 Qplus Codec.offsetQ vec) as [p|] eqn:Hp; [|discriminate].
  intros [= <-]. unfold Codec._decode_saved in Hp.
  assert (Hgen : forall w,
            length (map (fun x => x + Codec.offsetQ)
                        (Codec.put_at (repeat 0 16) Codec._INVERSE_INDEX w)) = 16%nat).
  { intros w. rewrite length_map, put_at_length. apply repeat_length. }
  destruct vec as [|v [|v' vec]].
  - discriminate Hp.
  - change (Some (map (fun x => x + Codec.offsetQ)
                      (Codec.put_at (repeat 0 16) Codec._INVERSE_INDEX (repeat v 16)))
            = Some p) in Hp.
    assert (E : map (fun x => x + Codec.offsetQ)
                    (Codec.put_at (repeat 0 16) Codec._INVERSE_INDEX (repeat v 16)) = p)
      by congruence.
    rewrite <- E. apply Hgen.
  - change ((if (length (v :: v' :: vec) =? 16)%nat
             then Some (map (fun x => x + Codec.offsetQ)
                            (Codec.put_at (repeat 0 16) Codec._INVERSE_INDEX (v :: v' :: vec)))
             else None) = Some p) in Hp.
    destruct (length (v :: v' :: vec) =? 16)%nat; [|discriminate Hp].
    assert (E : map (fun x => x + Codec.offsetQ)
                    (Codec.put_at (repeat 0 16) Codec._INVERSE_INDEX (v :: v' :: vec)) = p)
      by congruence.
    rewrite <- E. apply Hgen.
Qed.

Lemma take_at_length {T} (a : list T) (idx : list nat) : forall out,
  Codec.take_at a idx = Some out -> length out = length idx.
Proof.
  induction idx as [|i idx IH]; intros out; simpl.
  - now intros [= <-].
  - destruct (nth_error a i); [|discriminate].
    destruct (Codec.take_at a idx) as [xs|]; [|discriminate].
    intros [= <-]. simpl. f_equal. now apply IH.
Qed.

(** A line of written numbers separated by single blanks, with white space
    around it. *)
Lemma parse_line_spaced
    (float : string -> option Q) (toks : list string) (vals : list Q) (ws1 ws2 : string) :
  forallb token toks = true ->
  all_chars Ascii.is_space ws1 = true -> all_chars Ascii.is_space ws2 = true ->
  mapM float toks = Some vals ->
  length vals = 16%nat ->
  parse_line float (ws1 ++ Str.join " " toks ++ ws2) = Returns vals.
Proof.
  intros Htok Hws1 Hws2 Hvals Hlen.
  pose proof (tokens_Forall _ toks (number_char_outside Ascii.is_space number_char_no_space) Htok)
    as Hsp.
  pose proof (tokens_Forall _ toks (number_char_outside is_bracket number_char_no_bracket) Htok)
    as Hbr.
  pose proof (tokens_Forall _ toks
                (number_char_outside (fun a => Ascii.eqb a ",") number_char_no_comma) Htok)
    as Hco.
  apply (parse_line_core float _ (Str.join " " toks) toks vals); try assumption.
  - unfold Str.strip. rewrite strip_by_frame; try assumption.
    + unfold Str.strip_chars.
      rewrite <- (append_empty_r (Str.join " " toks)) at 1.
      change (Str.join " " toks ++ "")%string with ("" ++ Str.join " " toks ++ "")%string.
      apply (strip_by_frame is_bracket); try reflexivity.
      * apply join_starts. eapply Forall_impl; [exact Hbr | now intros t (? & ? & _)].
      * apply join_ends. eapply Forall_impl; [exact Hbr | now intros t (? & _ & ? & _)].
    + apply join_starts. eapply Forall_impl; [exact Hsp | now intros t (? & ? & _)].
    + apply join_ends. eapply Forall_impl; [exact Hsp | now intros t (? & _ & ? & _)].
  - rewrite replace_char_join.
    + apply split_join; [discriminate | reflexivity |].
      apply (tokens_Forall _ toks token_no_space Htok).
    + eapply Forall_impl; [exact Hco | now intros t (_ & _ & _ & H)].
Qed.

(** [parse_line] reads sixteen numbers written one after the other with
    white space between them, and equally the bracketed, comma-separated
    form; white space around the line does not matter. *)
Theorem parse_line_reads_both_formats
    (float : string -> option Q) (toks : list string) (vals : list Q) (ws1 ws2 : string) :
  forallb token toks = true ->
  all_chars Ascii.is_space ws1 = true -> all_chars Ascii.is_space ws2 = true ->
  mapM float toks = Some vals ->
  length vals = 16%nat ->
  parse_line float (ws1 ++ Str.join " " toks ++ ws2) = Returns vals /\
  parse_line float (ws1 ++ ("[" ++ Str.join ", " toks ++ "]") ++ ws2) = Returns vals.
Proof.
  intros Htok Hws1 Hws2 Hvals Hlen.
  pose proof (tokens_Forall _ toks (number_char_outside Ascii.is_space number_char_no_space) Htok)
    as Hsp.
  pose proof (tokens_Forall _ toks (number_char_outside is_bracket number_char_no_bracket) Htok)
    as Hbr.
  pose proof (tokens_Forall _ toks
                (number_char_outside (fun a => Ascii.eqb a ",") number_char_no_comma) Htok)
    as Hco.
  assert (Hnosp : Forall no_space toks)
    by (apply (tokens_Forall _ toks token_no_space Htok)).
  assert (Hnocomma : Forall (fun t => all_chars (fun a => negb (Ascii.eqb a ",")) t = true) toks).
  { eapply Forall_impl; [exact Hco | now intros t (_ & _ & _ & H)]. }
  assert (Hstart : forall p sep,
            Forall (fun t => t <> ""%string /\ starts_outside p t /\ ends_outside p t /\
                             all_chars (fun a => negb (p a)) t = true) toks ->
            starts_outside p (Str.join sep toks) /\ ends_outside p (Str.join sep toks)).
  { intros p sep H. split.
    - apply join_starts. eapply Forall_impl; [exact H | now intros t (? & ? & _)].
    - apply join_ends. eapply Forall_impl; [exact H | now intros t (? & _ & ? & _)]. }
  split.
  - apply (parse_line_core float _ (Str.join " " toks) toks vals); try assumption.
    + unfold Str.strip. destruct (Hstart Ascii.is_space " "%string Hsp) as [Hs He].
      rewrite strip_by_frame by assumption.
      unfold Str.strip_chars. destruct (Hstart is_bracket " "%string Hbr) as [Hs' He'].
      rewrite <- (append_empty_r (Str.join " " toks)) at 1.
      change (Str.join " " toks ++ "")%string with ("" ++ Str.join " " toks ++ "")%string.
      now apply (strip_by_frame is_bracket).
    + rewrite replace_char_join by exact Hnocomma. now apply split_join.
  - apply (parse_line_core float _ (Str.join ", " toks) toks vals); try assumption.
    + unfold Str.strip. destruct (Hstart is_bracket ", "%string Hbr) as [Hs' He'].
      rewrite strip_by_frame; try assumption.
      * unfold Str.strip_chars. now apply (strip_by_frame is_bracket).
      * reflexivity.
      * rewrite <- append_assoc. apply ends_outside_append; [discriminate | reflexivity].
    + rewrite replace_char_join by exact Hnocomma. now apply split_join.
Qed.

Lemma parse_line_reads_both_formats_witness :
  exists vals,
    mapM Str.float_of_decimal sixteen_tokens = Some vals /\
    parse_line Str.float_of_decimal
      ("  " ++ Str.join " " sixteen_tokens ++ newline) = Returns vals /\
    parse_line Str.float_of_decimal
      ("  " ++ ("[" ++ Str.join ", " sixteen_tokens ++ "]") ++ newline) = Returns vals.
Proof.
  destruct (mapM Str.float_of_decimal sixteen_tokens) as [vals|] eqn:Hvals;
    [|vm_compute in Hvals; discriminate Hvals].
  exists vals. split; [reflexivity|].
  apply (parse_line_reads_both_formats Str.float_of_decimal sixteen_tokens vals "  " newline).
  - reflexivity.
  - reflexivity.
  - reflexivity.
  - exact Hvals.
  - vm_compute in Hvals. injection Hvals as <-. reflexivity.
Defined.



(** A gesture file with fewer than two lines is rejected with
    [ValueError], whatever its first line holds. *)
Theorem load_type_needs_two_lines
    (float : string -> option Q) (files : gmap string (list string))
    (r : RealTimeRunner) (type_name : string) (lines : list string) :
  files !! type_file (category r) type_name = Some lines ->
  (length lines < 2)%nat ->
  load_type float files r type_name = Raises ValueError.
Proof.
  intros Hfile Hlen. unfold load_type. rewrite Hfile.
  destruct lines as [|l [|l' lines]]; [reflexivity | | simpl in Hlen; lia].
  change (readline [l] 1) with ""%string. change (readline [l] 0) with l.
  destruct (parse_line float l) as [v0|e0] eqn:H0;
    [|now rewrite (parse_line_raises float _ _ H0)].
  destruct (_decode_saved v0) as [o|e0] eqn:H1;
    [|now rewrite (_decode_saved_raises _ _ H1)].
  reflexivity.
Qed.

Lemma load_type_needs_two_lines_witness :
  load_type Str.float_of_decimal
    (<[ "TypeLibrary/leap/cup.txt"%string := [box_line] ]> box_library)
    box_runner "cup" = Raises ValueError.
Proof.
  apply (load_type_needs_two_lines Str.float_of_decimal _ box_runner "cup" [box_line]).
  - vm_compute. reflexivity.
  - simpl. lia.
Defined.

(** After a switch that succeeds, the runner carries the new name, its
    category is unchanged, the gesture file exists, and both poses have
    exactly 16 joints. *)
Theorem change_type_success
    (float : string -> option Q) (files : gmap string (list string))
    (r r' : RealTimeRunner) (new_type : string) :
  change_type float files r new_type = (r', Returns tt) ->
  curr_type r' = new_type /\ category r' = category r /\
  is_Some (files !! type_file (category r) new_type) /\
  length (open_pos r') = 16%nat /\ length (close_pos r') = 16%nat.
Proof.
  unfold change_type, load_type. simpl.
  destruct (files !! type_file (category r) new_type) as [lines|]; [|discriminate].
  destruct (parse_line float (readline lines 0)) as [v0|]; [|discriminate].
  destruct (_decode_saved v0) as [o|] eqn:Ho; [|discriminate].
  destruct (parse_line float (readline lines 1)) as [v1|]; [|discriminate].
  destruct (_decode_saved v1) as [c|] eqn:Hc; [|discriminate].
  intros [= <-]. simpl.
  repeat split; eauto using _decode_saved_length.
Qed.

Lemma change_type_success_witness :
  let r' := fst (change_type Str.float_of_decimal box_library
                   (mkRunner "leap" "none" [] []) "box") in
  curr_type r' = "box"%string /\ category r' = "leap"%string /\
  is_Some (box_library !! type_file "leap" "box") /\
  length (open_pos r') = 16%nat /\ length (close_pos r') = 16%nat.
Proof.
  apply (change_type_success Str.float_of_decimal box_library
           (mkRunner "leap" "none" [] [])).
  vm_compute. reflexivity.
Defined.

End RunnerFacts.

(** ** From the recorder to the runner: a saved gesture read back *)

Module RecorderToRunner.

Import Runner RunnerFacts LineFacts.

Lemma record_length (p s : list Q) : record p = Some s -> length s = 16%nat.
Proof.
  unfold record, Codec._get_current_leap_pos. intros H.
  apply take_at_length in H. rewrite H. reflexivity.
Qed.

Lemma record_then_decode (p s : list Q) :
  length p = 16%nat -> record p = Some s ->
  exists pos, _decode_saved s = Returns pos /\ Forall2 Qeq pos p.
Proof.
  intros Hlen Hrec.
  pose proof (Codec.saved_then_decoded_generic 0 Qplus Qminus Codec.offsetQ p Hlen) as H.
  unfold Codec.saved_then_decoded in H. unfold record in Hrec. rewrite Hrec in H.
  unfold _decode_saved. rewrite H. eexists. split; [reflexivity|].
  apply Codec.Forall2_Qeq_offset.
Qed.

Lemma written_line_parses
    (show : Q -> string) (float : string -> option Q) (s : list Q) :
  length s = 16%nat ->
  Forall (fun x => token (show x) = true /\ float (show x) = Some x) s ->
  parse_line float (Str.join " " (map show s) ++ newline) = Returns s.
Proof.
  intros Hlen H.
  change (Str.join " " (map show s) ++ newline)%string
    with ("" ++ Str.join " " (map show s) ++ newline)%string.
  apply parse_line_spaced; try reflexivity; try assumption.
  - apply forallb_forall. intros t Ht. apply in_map_iff in Ht as (x & <- & Hx).
    rewrite Forall_forall in H. apply H. now apply list_elem_of_In.
  - apply mapM_show. eapply Forall_impl; [exact H | now intros x [_ Hx]].
Qed.

(** A gesture recorded from the hand and saved by the recorder is loaded by
    the runner as the hand poses that were recorded, provided the written
    form of every saved number is a plain token that reads back as that
    number. *)
Theorem recorded_gesture_loads_back
    (show : Q -> string) (float : string -> option Q)
    (files : gmap string (list string)) (r : RealTimeRunner) (name : string)
    (p_open p_close s_open s_close : list Q) :
  category r = "leap"%string ->
  length p_open = 16%nat -> length p_close = 16%nat ->
  record p_open = Some s_open -> record p_close = Some s_close ->
  Forall (fun x => token (show x) = true /\ float (show x) = Some x) (s_open ++ s_close) ->
  exists o c,
    load_type float
      (<[ type_file "leap" name := save_lines show s_open s_close ]> files) r name
      = Returns (o, c) /\
    Forall2 Qeq o p_open /\ Forall2 Qeq c p_close.
Proof.
  intros Hcat Ho Hc Hro Hrc Hshow.
  apply Forall_app in Hshow as [Hso Hsc].
  destruct (record_then_decode p_open s_open Ho Hro) as (o & Hdo & Hqo).
  destruct (record_then_decode p_close s_close Hc Hrc) as (c & Hdc & Hqc).
  exists o, c. split; [|split; assumption].
  unfold load_type. rewrite Hcat, lookup_insert_eq.
  unfold save_lines, readline. cbn [nth].
  rewrite (written_line_parses show float s_open (record_length _ _ Hro) Hso), Hdo.
  rewrite (written_line_parses show float s_close (record_length _ _ Hrc) Hsc), Hdc.
  reflexivity.
Qed.

Lemma recorded_gesture_loads_back_witness :
  exists s_open s_close o c,
    record hand_open = Some s_open /\ record hand_closed = Some s_close /\
    load_type Str.float_of_decimal
      (<[ type_file "leap" "pinch" := save_lines show_two s_open s_close ]> box_library)
      box_runner "pinch" = Returns (o, c) /\
    Forall2 Qeq o hand_open /\ Forall2 Qeq c hand_closed.
Proof.
  destruct (record hand_open) as [s_open|] eqn:Hro; [|vm_compute in Hro; discriminate Hro].
  destruct (record hand_closed) as [s_close|] eqn:Hrc; [|vm_compute in Hrc; discriminate Hrc].
  destruct (recorded_gesture_loads_back show_two Str.float_of_decimal box_library
              box_runner "pinch" hand_open hand_closed s_open s_close)
    as (o & c & Hload & Hqo & Hqc).
  - vm_compute. reflexivity.
  - reflexivity.
  - reflexivity.
  - exact Hro.
  - exact Hrc.
  - vm_compute in Hro, Hrc. injection Hro as <-. injection Hrc as <-.
    apply (Vad.Forall_forallb _
             (fun x => token (show_two x) &&
                       match Str.float_of_decimal (show_two x) with
                       | Some y => Qeq_bool y x && (Qnum y =? Qnum x)%Z
                                   && (Zpos (Qden y) =? Zpos (Qden x))%Z
                       | None => false
                       end)).
    + intros x Hx. apply andb_true_iff in Hx as [Ht Hx]. split; [exact Ht|].
      destruct (Str.float_of_decimal (show_two x)) as [y|]; [|discriminate Hx].
      apply andb_true_iff in Hx as [Hx Hd]. apply andb_true_iff in Hx as [_ Hn].
      apply Z.eqb_eq in Hn, Hd. destruct y as [yn yd], x as [xn xd]. simpl in *.
      injection Hd as ->. now subst.
    + vm_compute. reflexivity.
  - exists s_open, s_close, o, c. repeat split; assumption.
Defined.

End RecorderToRunner.

(** ** The commanded pose: between open and close *)

Module PoseFacts.

Import Runner.

(** A gesture whose joints open at 3.0 and close at 3.5 or 2.5. *)
Definition demo_open : list Q := repeat 3 16.
Definition demo_close : list Q := repeat 3.5 8 ++ repeat 2.5 8.

(** Every joint of the synthesized pose is the blend of its open and close
    values by the ratio of its group. *)
Lemma type_pos_joint (open close : list Q) (ratio : ratios) (j : nat) :
  length open = 16%nat -> length close = 16%nat -> (j < 16)%nat ->
  exists v o c,
    type_pos open close ratio !! j = Some v /\
    open !! j = Some o /\ close !! j = Some c /\
    v == o * (1 - group_ratio ratio j) + c * group_ratio ratio j.
Proof.
  intros Ho Hc Hj.
  apply Codec.length_16_inv in Ho.
  destruct Ho as (o0&o1&o2&o3&o4&o5&o6&o7&o8&o9&o10&o11&o12&o13&o14&o15&->).
  apply Codec.length_16_inv in Hc.
  destruct Hc as (c0&c1&c2&c3&c4&c5&c6&c7&c8&c9&c10&c11&c12&c13&c14&c15&->).
  do 16 (destruct j as [|j]; [joint_case|]). lia.
Qed.

Lemma blend_between (o c g : Q) :
  0 <= g -> g <= 1 ->
  Qmin o c <= o * (1 - g) + c * g /\ o * (1 - g) + c * g <= Qmax o c.
Proof.
  intros H0 H1.
  destruct (Qlt_le_dec o c) as [Hoc | Hco].
  - rewrite Q.min_l, Q.max_r by lra. split; nra.
  - rewrite Q.min_r, Q.max_l by lra. split; nra.
Qed.

Lemma finger_ratios_unit (norm : Finger.vec3 -> Q) (joint_pos : list Finger.vec3) (r : ratios) :
  Finger.finger_ratios norm joint_pos = Some r ->
  Finger.in_unit (thumb r) /\ Finger.in_unit (index r) /\
  Finger.in_unit (middle r) /\ Finger.in_unit (ring r).
Proof.
  unfold Finger.finger_ratios.
  destruct (joint_pos !! 0%nat) as [w|]; [|discriminate].
  destruct (joint_pos !! 4%nat) as [t|]; [|discriminate].
  destruct (joint_pos !! 8%nat) as [i|]; [|discriminate].
  destruct (joint_pos !! 12%nat) as [m|]; [|discriminate].
  destruct (joint_pos !! 16%nat) as [g|]; [|discriminate].
  destruct (joint_pos !! 20%nat) as [p|]; [|discriminate].
  intros [= <-]. simpl.
  repeat split; apply Finger.one_minus_unit, Finger.clip_unit.
Qed.

Lemma group_ratio_unit (r : ratios) (j : nat) :
  Finger.in_unit (thumb r) -> Finger.in_unit (index r) ->
  Finger.in_unit (middle r) -> Finger.in_unit (ring r) ->
  Finger.in_unit (group_ratio r j).
Proof.
  intros Ht Hi Hm Hr. unfold group_ratio.
  destruct (j <? 4)%nat; [exact Hi|].
  destruct (j <? 8)%nat; [exact Hm|].
  destruct (j <? 12)%nat; [exact Hr | exact Ht].
Qed.

(** From the detector to the motors, in exact arithmetic: for every
    detected hand and every 16-joint gesture, each joint of the commanded
    pose lies between its open value and its close value.  (The rationals
    stand for the floats of the code; a binary64 blend can leave the
    interval by one unit in the last place.) *)
Theorem commanded_joint_between_open_and_close
    (norm : Finger.vec3 -> Q) (joint_pos : list Finger.vec3) (r : ratios)
    (open close : list Q) (j : nat) :
  Finger.finger_ratios norm joint_pos = Some r ->
  length open = 16%nat -> length close = 16%nat -> (j < 16)%nat ->
  exists v o c,
    type_pos open close r !! j = Some v /\
    open !! j = Some o /\ close !! j = Some c /\
    Qmin o c <= v /\ v <= Qmax o c.
Proof.
  intros Hr Ho Hc Hj.
  destruct (finger_ratios_unit norm joint_pos r Hr) as (Ht & Hi & Hm & Hg).
  destruct (group_ratio_unit r j Ht Hi Hm Hg) as [H0 H1].
  destruct (type_pos_joint open close r j Ho Hc Hj) as (v & o & c & Hv & Hlo & Hlc & Heq).
  exists v, o, c. repeat split; try assumption.
  - rewrite Heq. now apply blend_between.
  - rewrite Heq. now apply blend_between.
Qed.

Lemma commanded_joint_between_open_and_close_witness :
  exists r v o c,
    Finger.finger_ratios Finger.norm_micro Finger.flat_hand = Some r /\
    type_pos demo_open demo_close r !! 9%nat = Some v /\
    demo_open !! 9%nat = Some o /\ demo_close !! 9%nat = Some c /\
    Qmin o c <= v /\ v <= Qmax o c.
Proof.
  destruct (Finger.finger_ratios Finger.norm_micro Finger.flat_hand) as [r|] eqn:Hr;
    [|vm_compute in Hr; discriminate Hr].
  destruct (commanded_joint_between_open_and_close Finger.norm_micro Finger.flat_hand r
              demo_open demo_close 9 Hr)
    as (v & o & c & H).
  - reflexivity.
  - reflexivity.
  - lia.
  - exists r, v, o, c. split; [reflexivity | exact H].
Defined.

(** With every finger open (ratios 0) the commanded pose is the open pose,
    with every finger closed (ratios 1) it is the close pose; the pinky
    ratio plays no part. *)
Theorem all_open_and_all_closed (open close : list Q) (pinky_ratio : Q) :
  length open = 16%nat -> length close = 16%nat ->
  Forall2 Qeq (type_pos open close (mkRatios 0 0 0 0 pinky_ratio)) open /\
  Forall2 Qeq (type_pos open close (mkRatios 1 1 1 1 pinky_ratio)) close.
Proof.
  intros Ho Hc.
  apply Codec.length_16_inv in Ho.
  destruct Ho as (o0&o1&o2&o3&o4&o5&o6&o7&o8&o9&o10&o11&o12&o13&o14&o15&->).
  apply Codec.length_16_inv in Hc.
  destruct Hc as (c0&c1&c2&c3&c4&c5&c6&c7&c8&c9&c10&c11&c12&c13&c14&c15&->).
  split; cbn -[Qplus Qmult Qminus].
  all: repeat (constructor; [ring|]); constructor.
Qed.

Lemma all_open_and_all_closed_witness :
  Forall2 Qeq (type_pos demo_open demo_close (mkRatios 0 0 0 0 (1 # 2))) demo_open /\
  Forall2 Qeq (type_pos demo_open demo_close (mkRatios 1 1 1 1 (1 # 2))) demo_close.
Proof.
  apply (all_open_and_all_closed demo_open demo_close (1 # 2)); reflexivity.
Defined.

End PoseFacts.

(** ** [leap_2_test_type.py]: the gesture player *)

Module Player.

(** [LeapTypePlayer]: the hand, the two saved vectors of the gesture and
    the interpolation value. *)
Record LeapTypePlayer : Type := mkPlayer {
  leap_node : option LeapNode.node;
  open_saved : option (list Q);
  close_saved : option (list Q);
  fraction : Q
}.

Definition step_size : Q := 0.05.

(** [_apply_fraction]: nothing happens before the hand and the gesture are
    there; the clamped value is stored before the pose is decoded and sent.
    The second component tells whether [_decode_saved] raised. *)
Definition _apply_fraction (p : LeapTypePlayer) (frac : Q)
  : LeapTypePlayer * Runner.outcome unit :=
  match leap_node p, open_saved p, close_saved p with
  | Some n, Some o, Some c =>
      let frac := Qmax 0 (Qmin 1 frac) in
      let interp_saved := Runner.blend o c frac in
      match Runner._decode_saved interp_saved with
      | Runner.Returns target_pos =>
          (mkPlayer (Some (LeapNode.set_leap n target_pos)) (Some o) (Some c) frac,
           Runner.Returns tt)
      | Runner.Raises e => (mkPlayer (Some n) (Some o) (Some c) frac, Runner.Raises e)
      end
  | _, _, _ => (p, Runner.Returns tt)
  end.

(** [decrease], [increase] and [set_fraction]. *)
Definition decrease (p : LeapTypePlayer) : LeapTypePlayer * Runner.outcome unit :=
  let new_frac := fraction p - step_size in
  let new_frac := Qmax 0 new_frac in
  _apply_fraction p new_frac.

Definition increase (p : LeapTypePlayer) : LeapTypePlayer * Runner.outcome unit :=
  let new_frac := fraction p + step_size in
  let new_frac := Qmin 1 new_frac in
  _apply_fraction p new_frac.

Definition set_fraction (p : LeapTypePlayer) (frac : Q)
  : LeapTypePlayer * Runner.outcome unit :=
  _apply_fraction p frac.

(** The body of the loop of [run] for [cmd], the stripped and lower-cased
    line, when it does not leave the loop; an exception is printed and the
    loop goes on. *)
Definition command (p : LeapTypePlayer) (cmd : string) : LeapTypePlayer :=
  if String.eqb cmd "a" then fst (decrease p)
  else if String.eqb cmd "d" then fst (increase p)
  else if String.eqb cmd "0" then fst (set_fraction p 0)
  else if String.eqb cmd "1" then fst (set_fraction p 1)
  else p.

(** [cmd in ['quit', 'exit', 'q']]. *)
Definition leaves (cmd : string) : bool :=
  String.eqb cmd "quit" || String.eqb cmd "exit" || String.eqb cmd "q".

(** The loop of [run] over the lines typed. *)
Fixpoint run (p : LeapTypePlayer) (cmds : list string) : LeapTypePlayer :=
  match cmds with
  | [] => p
  | cmd :: rest => if leaves cmd then p else run (command p cmd) rest
  end.

(** [__init__] once [_init_leap] has built the hand [n] and [_load_type]
    has read the saved vectors [o] and [c]: the open pose is sent. *)
Definition init (n : LeapNode.node) (o c : list Q) : LeapTypePlayer :=
  fst (_apply_fraction (mkPlayer (Some n) (Some o) (Some c) 0) 0).

(** The last position command on the bus of the hand. *)
Definition last_write (p : LeapTypePlayer) : option LeapNode.write :=
  match leap_node p with
  | Some n => last (LeapNode.bus n)
  | None => None
  end.

(** The hand of [main] and a gesture stored as all 0.1 (open) and all 0.9
    (close). *)
Definition demo_hand : LeapNode.node := LeapNode.init 150 100 0 150 LeapNode.rest_pose.
Definition demo_player : LeapTypePlayer :=
  init demo_hand (repeat 0.1 16) (repeat 0.9 16).

Lemma clamp_unit (x : Q) : Finger.in_unit (Qmax 0 (Qmin 1 x)).
Proof.
  unfold Finger.in_unit. split.
  - apply Q.le_max_l.
  - apply Q.max_lub; [lra | apply Q.le_min_l].
Qed.

Lemma _apply_fraction_unit (p : LeapTypePlayer) (frac : Q) :
  Finger.in_unit (fraction p) -> Finger.in_unit (fraction (fst (_apply_fraction p frac))).
Proof.
  intros Hp. unfold _apply_fraction.
  destruct (leap_node p) as [n|]; [|exact Hp].
  destruct (open_saved p) as [o|]; [|exact Hp].
  destruct (close_saved p) as [c|]; [|exact Hp].
  destruct (Runner._decode_saved _); simpl; apply clamp_unit.
Qed.

Lemma command_unit (p : LeapTypePlayer) (cmd : string) :
  Finger.in_unit (fraction p) -> Finger.in_unit (fraction (command p cmd)).
Proof.
  intros Hp. unfold command, decrease, increase, set_fraction.
  destruct (String.eqb cmd "a"); [now apply _apply_fraction_unit|].
  destruct (String.eqb cmd "d"); [now apply _apply_fraction_unit|].
  destruct (String.eqb cmd "0"); [now apply _apply_fraction_unit|].
  destruct (String.eqb cmd "1"); [now apply _apply_fraction_unit|].
  exact Hp.
Qed.

Lemma blend_length (o c : list Q) (f : Q) :
  length o = 16%nat -> length c = 16%nat -> length (Runner.blend o c f) = 16%nat.
Proof.
  intros Ho Hc. unfold Runner.blend, Runner.vadd, Runner.times_scalar.
  rewrite length_zip_with, !length_map. lia.
Qed.

(** Decoding a 16-entry vector: the entries of [vec], through the index
    permutation, plus the offset. *)
Lemma _decode_saved_16 (v : list Q) :
  length v = 16%nat ->
  exists x0 x1 x2 x3 x4 x5 x6 x7 x8 x9 x10 x11 x12 x13 x14 x15,
    v = [x0; x1; x2; x3; x4; x5; x6; x7; x8; x9; x10; x11; x12; x13; x14; x15] /\
    Runner._decode_saved v =
    Runner.Returns
      (map (fun x => x + Codec.offsetQ)
           [x9; x8; x10; x11; x5; x4; x6; x7; x1; x0; x2; x3; x12; x13; x14; x15]).
Proof.
  intros H. apply Codec.length_16_inv in H.
  destruct H as (x0&x1&x2&x3&x4&x5&x6&x7&x8&x9&x10&x11&x12&x13&x14&x15&->).
  exists x0, x1, x2, x3, x4, x5, x6, x7, x8, x9, x10, x11, x12, x13, x14, x15.
  split; reflexivity.
Qed.

(** Blending the saved vectors and decoding the result gives the pose the
    real-time runner computes from the decoded vectors when every finger
    ratio is [f]. *)
Lemma decode_blend (o c : list Q) (f pinky_ratio : Q) :
  length o = 16%nat -> length c = 16%nat ->
  exists target o_abs c_abs,
    Runner._decode_saved (Runner.blend o c f) = Runner.Returns target /\
    Runner._decode_saved o = Runner.Returns o_abs /\
    Runner._decode_saved c = Runner.Returns c_abs /\
    length target = 16%nat /\
    Forall2 Qeq target (Runner.type_pos o_abs c_abs (Runner.mkRatios f f f f pinky_ratio)).
Proof.
  intros Ho Hc.
  destruct (_decode_saved_16 o Ho)
    as (o0&o1&o2&o3&o4&o5&o6&o7&o8&o9&o10&o11&o12&o13&o14&o15&->&Hdo).
  destruct (_decode_saved_16 c Hc)
    as (c0&c1&c2&c3&c4&c5&c6&c7&c8&c9&c10&c11&c12&c13&c14&c15&->&Hdc).
  eexists _, _, _. split; [reflexivity|].
  split; [exact Hdo|]. split; [exact Hdc|]. split; [reflexivity|].
  cbn -[Qplus Qmult Qminus Codec.offsetQ].
  repeat (constructor; [ring|]); constructor.
Qed.

(** Whatever commands are typed, the interpolation value of a player
    stays between 0 (open) and 1 (close). *)
Theorem fraction_stays_in_unit (n : LeapNode.node) (o c : list Q) (cmds : list string) :
  Finger.in_unit (fraction (run (init n o c) cmds)).
Proof.
  assert (H0 : Finger.in_unit (fraction (init n o c))).
  { unfold init. apply _apply_fraction_unit. simpl. unfold Finger.in_unit. lra. }
  revert H0. generalize (init n o c).
  induction cmds as [|cmd cmds IH]; intros p Hp; [exact Hp|].
  simpl. destruct (leaves cmd); [exact Hp|].
  apply IH. now apply command_unit.
Qed.

(** For a gesture with 16-entry vectors, [set_fraction] sends the hand one
    position command, and that pose is the one the real-time runner
    computes for the same gesture when every finger ratio equals the
    clamped value. *)
Theorem player_pose_matches_runner
    (n : LeapNode.node) (o c : list Q) (f0 frac pinky_ratio : Q) :
  length o = 16%nat -> length c = 16%nat ->
  let p := mkPlayer (Some n) (Some o) (Some c) f0 in
  let f := Qmax 0 (Qmin 1 frac) in
  exists target o_abs c_abs,
    set_fraction p frac =
      (mkPlayer (Some (LeapNode.set_leap n target)) (Some o) (Some c) f, Runner.Returns tt) /\
    last_write (fst (set_fraction p frac)) =
      Some (LeapNode.WriteDesiredPos LeapNode.motors target) /\
    Runner._decode_saved o = Runner.Returns o_abs /\
    Runner._decode_saved c = Runner.Returns c_abs /\
    Forall2 Qeq target (Runner.type_pos o_abs c_abs (Runner.mkRatios f f f f pinky_ratio)).
Proof.
  intros Ho Hc p f.
  destruct (decode_blend o c f pinky_ratio Ho Hc)
    as (target & o_abs & c_abs & Ht & Hdo & Hdc & _ & Heq).
  exists target, o_abs, c_abs.
  assert (Hs : set_fraction p frac =
               (mkPlayer (Some (LeapNode.set_leap n target)) (Some o) (Some c) f,
                Runner.Returns tt)).
  { unfold set_fraction, _apply_fraction, p. simpl. fold f. now rewrite Ht. }
  split; [exact Hs|]. split; [|now repeat split].
  rewrite Hs. unfold last_write. simpl. apply last_snoc.
Qed.

Lemma player_pose_matches_runner_witness :
  let p := mkPlayer (Some demo_hand) (Some (repeat 0.1 16)) (Some (repeat 0.9 16)) 0 in
  let f := Qmax 0 (Qmin 1 (3 # 2)) in
  exists target o_abs c_abs,
    set_fraction p (3 # 2) =
      (mkPlayer (Some (LeapNode.set_leap demo_hand target))
                (Some (repeat 0.1 16)) (Some (repeat 0.9 16)) f, Runner.Returns tt) /\
    last_write (fst (set_fraction p (3 # 2))) =
      Some (LeapNode.WriteDesiredPos LeapNode.motors target) /\
    Runner._decode_saved (repeat 0.1 16) = Runner.Returns o_abs /\
    Runner._decode_saved (repeat 0.9 16) = Runner.Returns c_abs /\
    Forall2 Qeq target (Runner.type_pos o_abs c_abs (Runner.mkRatios f f f f 0)).
Proof.
  apply (player_pose_matches_runner demo_hand (repeat 0.1 16) (repeat 0.9 16) 0 (3 # 2) 0);
    reflexivity.
Defined.

End Player.

(** ** [LeapNode]: the current limit and the dead band of free-drag mode *)

Module LeapNodeFacts.

Import LeapNode.

(** The positions the loop keeps: per joint the new target where the mask
    is set, the old one elsewhere. *)
Definition keep_or_move (new_target_pos old thr : list Q) : list Q :=
  let pos_diff := map Qabs (zip_with Qminus new_target_pos old) in
  let update_mask := zip_with (fun d t => Qltb t d) pos_diff thr in
  zip_with (fun (m : bool) (tc : Q * Q) => if m then fst tc else snd tc)
           update_mask (zip new_target_pos old).

(** A joint keeps its target or moves by more than 0.05. *)
Definition kept_or_past_threshold (new old : Q) : Prop :=
  new = old \/ 0.05 < Qabs (new - old).

(** What a history of calls preserves, beyond [consistent]: the limit of
    the configuration is never lost. *)
Definition remembers (lim : Q) (n : node) : Prop :=
  consistent n /\ original_curr_lim n = lim /\
  (free_drag_active n = false -> curr_lim n = lim).

(** A hand held 0.03 rad off its target on every joint. *)
Definition held_pose : list Q := repeat 3.17159 16.
Definition held_node : node :=
  enable_free_drag_mode (init 150 100 0 150 rest_pose) (repeat 0 16).

Lemma curr_pos_cycle (n : node) (p v : list Q) (t : Q) :
  curr_pos (goal_pos_cycle n p v t) =
  keep_or_move (zip_with Qplus p
                  (delta_pos (zip_with Qminus p (curr_pos n)) v (loop_time n)))
               (curr_pos n) thresholds.
Proof. reflexivity. Qed.

Lemma keep_or_move_cons (u o t : Q) (new old thr : list Q) :
  keep_or_move (u :: new) (o :: old) (t :: thr) =
  (if Qltb t (Qabs (u - o)) then u else o) :: keep_or_move new old thr.
Proof. reflexivity. Qed.

Lemma keep_or_move_dead_band (new old : list Q) : forall m,
  length new = length old -> (length old <= m)%nat ->
  Forall2 kept_or_past_threshold (keep_or_move new old (repeat 0.05 m)) old.
Proof.
  revert old. induction new as [|u new IH]; intros [|o old] m Hlen Hm;
    try discriminate Hlen.
  - constructor.
  - destruct m as [|m]; [simpl in Hm; lia|].
    change (repeat 0.05 (S m)) with (0.05 :: repeat 0.05 m).
    rewrite keep_or_move_cons. constructor.
    + destruct (Qltb 0.05 (Qabs (u - o))) eqn:E.
      * right. now apply Qltb_true.
      * now left.
    + apply IH; simpl in *; lia.
Qed.

Lemma keep_or_move_within (new old : list Q) : forall m,
  Forall2 (fun u o => Qabs (u - o) <= 0.05) new old -> (length old <= m)%nat ->
  keep_or_move new old (repeat 0.05 m) = old.
Proof.
  intros m H. revert m. induction H as [|u o new old Huo H IH]; intros m Hm.
  - reflexivity.
  - destruct m as [|m]; [simpl in Hm; lia|].
    change (repeat 0.05 (S m)) with (0.05 :: repeat 0.05 m).
    rewrite keep_or_move_cons.
    assert (E : Qltb 0.05 (Qabs (u - o)) = false) by now apply Qltb_false.
    rewrite E. f_equal. apply IH. simpl in Hm. lia.
Qed.

Lemma at_joint_zero (v : list Q) (i : nat) :
  Forall (fun x => x == 0) v -> at_joint v i == 0.
Proof.
  intros H. unfold at_joint. revert i.
  induction H as [|x v Hx H IH]; intros [|i]; simpl; try reflexivity.
  - exact Hx.
  - apply IH.
Qed.

Lemma delta_pos_zero (pos_error v : list Q) (lt : Q) :
  lt == 0 \/ Forall (fun x => x == 0) v ->
  Forall (fun d => d == 0) (delta_pos pos_error v lt).
Proof.
  intros H. unfold delta_pos. apply Forall_map, Forall_forall. intros i _. simpl.
  assert (Hz : at_joint v i * lt == 0).
  { destruct H as [H | H].
    - rewrite H. ring.
    - rewrite (at_joint_zero v i H). ring. }
  destruct (Qltb _ _).
  - rewrite Hz. ring.
  - exact Hz.
Qed.

Lemma delta_pos_length (pos_error v : list Q) (lt : Q) :
  length (delta_pos pos_error v lt) = 16%nat.
Proof. reflexivity. Qed.

Lemma plus_zero_within (p c : list Q) :
  Forall2 (fun x o => Qabs (x - o) <= 0.05) p c ->
  forall d, Forall (fun x => x == 0) d -> (length p <= length d)%nat ->
  Forall2 (fun u o => Qabs (u - o) <= 0.05) (zip_with Qplus p d) c.
Proof.
  induction 1 as [|x o p c Hxo H IH]; intros d Hd Hlen.
  - constructor.
  - destruct d as [|z d]; [simpl in Hlen; lia|].
    apply Forall_cons in Hd as [Hz Hd]. simpl. constructor.
    + assert (E : x + z - o == x - o) by (rewrite Hz; ring).
      cbv beta. rewrite (Qabs_wd _ _ E). exact Hxo.
    + apply IH; [exact Hd | simpl in Hlen; lia].
Qed.

Lemma remembers_init lim kP kI kD init_pos : remembers lim (init lim kP kI kD init_pos).
Proof. split; [apply consistent_init | split; reflexivity]. Qed.

Lemma remembers_step lim n e : remembers lim n -> remembers lim (step n e).
Proof.
  intros Hn. pose proof Hn as (Hc & Ho & Hl).
  split; [now apply consistent_step|].
  destruct e as [cur | p | p v t | pose]; simpl.
  - unfold enable_free_drag_mode.
    destruct (free_drag_active n) eqn:Ha.
    + split; [exact Ho | intros H; simpl in H; congruence].
    + simpl. split; [now apply Hl | discriminate].
  - unfold disable_free_drag_mode.
    destruct (free_drag_active n) eqn:Ha; simpl.
    + split; [exact Ho | intros _; exact Ho].
    + split; [exact Ho | intros _; now apply Hl].
  - destruct (free_drag_active n && (0 <? workers n)%nat); simpl;
      (split; [exact Ho | exact Hl]).
  - split; [exact Ho | exact Hl].
Qed.

Lemma remembers_run lim events : forall n, remembers lim n -> remembers lim (run n events).
Proof.
  induction events as [|e events IH]; intros n Hn; [exact Hn|].
  apply IH. now apply remembers_step.
Qed.

(** Whatever calls are made on a hand and in whatever order (enabling
    twice, disabling a hand that is not in free-drag mode, position
    commands in between), the current limit the motors hold is 30 while
    free-drag mode is on and the configured limit while it is off. *)
Theorem motor_limit_follows_mode
    (lim kP kI kD : Q) (init_pos : list Q) (events : list event) :
  let n := run (init lim kP kI kD init_pos) events in
  torque_limit (bus n) =
    Some (ones_times motors (if free_drag_active n then 30 else lim)) /\
  original_curr_lim n = lim.
Proof.
  intros n.
  assert (Hn : remembers lim n) by apply remembers_run, remembers_init.
  destruct Hn as ((Ht & _ & _ & H30) & Ho & Hl).
  split; [|exact Ho].
  rewrite Ht. destruct (free_drag_active n).
  - now rewrite H30.
  - now rewrite Hl.
Qed.

(** One pass of the free-drag loop moves the commanded position of a
    joint by more than 0.05 rad or leaves it exactly where it was. *)
Theorem free_drag_dead_band (n : node) (current_pos current_vel : list Q) (elapsed : Q) :
  length (curr_pos n) = 16%nat -> length current_pos = 16%nat ->
  Forall2 kept_or_past_threshold
          (curr_pos (goal_pos_cycle n current_pos current_vel elapsed)) (curr_pos n).
Proof.
  intros Hc Hp. rewrite curr_pos_cycle.
  apply (keep_or_move_dead_band _ (curr_pos n) 16).
  - rewrite length_zip_with, delta_pos_length, Hp, Hc. reflexivity.
  - lia.
Qed.

Lemma free_drag_dead_band_witness :
  Forall2 kept_or_past_threshold
          (curr_pos (goal_pos_cycle held_node dragged_pose (repeat 2 16) 0.01))
          (curr_pos held_node).
Proof.
  apply (free_drag_dead_band held_node dragged_pose (repeat 2 16) 0.01); reflexivity.
Defined.

(** A hand that is within 0.05 rad of its commanded position on every
    joint keeps that commanded position exactly, when the joints are at
    rest or in the first pass of the loop (whose loop time is 0): the loop
    re-sends the same target. *)
Theorem held_hand_keeps_target (n : node) (current_pos current_vel : list Q) (elapsed : Q) :
  length (curr_pos n) = 16%nat ->
  Forall2 (fun x o => Qabs (x - o) <= 0.05) current_pos (curr_pos n) ->
  loop_time n == 0 \/ Forall (fun x => x == 0) current_vel ->
  let n' := goal_pos_cycle n current_pos current_vel elapsed in
  curr_pos n' = curr_pos n /\
  bus n' = bus n ++ [WriteDesiredPos motors (curr_pos n)].
Proof.
  intros Hc Hnear Hstill n'.
  assert (E : curr_pos n' = curr_pos n).
  { unfold n'. rewrite curr_pos_cycle.
    apply (keep_or_move_within _ (curr_pos n) 16); [|lia].
    apply plus_zero_within; [exact Hnear | now apply delta_pos_zero |].
    rewrite delta_pos_length. apply Forall2_length in Hnear. lia. }
  split; [exact E|].
  change (bus n') with (bus n ++ [WriteDesiredPos motors (curr_pos n')]).
  now rewrite E.
Qed.

Lemma held_hand_keeps_target_witness :
  let n' := goal_pos_cycle held_node held_pose (repeat 2 16) 0.01 in
  curr_pos n' = curr_pos held_node /\
  bus n' = bus held_node ++ [WriteDesiredPos motors (curr_pos held_node)].
Proof.
  apply (held_hand_keeps_target held_node held_pose (repeat 2 16) 0.01).
  - reflexivity.
  - vm_compute. repeat constructor; discriminate.
  - left. reflexivity.
Defined.

End LeapNodeFacts.

(** ** The detector's readings: saturation, monotonicity, the thumb's axis *)

Module FingerFacts.

Import Finger.

(** The four fingers measured by the full wrist-to-tip vector: landmark of
    the tip, entry of the result, shortest and longest calibrated length. *)
Definition fingers : list (nat * (Runner.ratios -> Q) * Q * Q) :=
  [ (8%nat, Runner.index, 0.09, 0.17);
    (12%nat, Runner.middle, 0.09, 0.18);
    (16%nat, Runner.ring, 0.07, 0.17);
    (20%nat, Runner.pinky, 0.08, 0.14) ].

(** The flat hand with the fingers curled to 0.05 m from the wrist. *)
Definition fist : list vec3 :=
  map (fun k => if (k <? 5)%nat
                then (inject_Z (Z.of_nat k) / 200, inject_Z (Z.of_nat k) / 100, 0)
                else (0.03, 0.04, 0))
      (seq 0 21).

(** The wrist of both hands, landmark 0. *)
Definition wrist : vec3 := (inject_Z 0 / 200, inject_Z 0 / 100, 0).

Lemma finger_ratios_fields (norm : vec3 -> Q) (joint_pos : list vec3) (r : Runner.ratios) :
  finger_ratios norm joint_pos = Some r ->
  exists w i m g p,
    joint_pos !! 0%nat = Some w /\ joint_pos !! 8%nat = Some i /\
    joint_pos !! 12%nat = Some m /\ joint_pos !! 16%nat = Some g /\
    joint_pos !! 20%nat = Some p /\
    Runner.index r = flexion (norm (vsub i w)) 0.09 0.17 /\
    Runner.middle r = flexion (norm (vsub m w)) 0.09 0.18 /\
    Runner.ring r = flexion (norm (vsub g w)) 0.07 0.17 /\
    Runner.pinky r = flexion (norm (vsub p w)) 0.08 0.14.
Proof.
  unfold finger_ratios.
  destruct (joint_pos !! 0%nat) as [w|]; [|discriminate].
  destruct (joint_pos !! 4%nat) as [t|]; [|discriminate].
  destruct (joint_pos !! 8%nat) as [i|]; [|discriminate].
  destruct (joint_pos !! 12%nat) as [m|]; [|discriminate].
  destruct (joint_pos !! 16%nat) as [g|]; [|discriminate].
  destruct (joint_pos !! 20%nat) as [p|]; [|discriminate].
  intros [= <-]. exists w, i, m, g, p. repeat split; reflexivity.
Qed.

(** The entry of a finger is the flexion of its measured length. *)
Lemma finger_entry (norm : vec3 -> Q) (joint_pos : list vec3) (r : Runner.ratios)
    (tip : nat) (entry : Runner.ratios -> Q) (lo hi : Q) (w t : vec3) :
  In (tip, entry, lo, hi) fingers ->
  finger_ratios norm joint_pos = Some r ->
  joint_pos !! 0%nat = Some w -> joint_pos !! tip = Some t ->
  entry r = flexion (norm (vsub t w)) lo hi /\ lo < hi.
Proof.
  intros Hin Hr Hw Ht.
  destruct (finger_ratios_fields norm joint_pos r Hr)
    as (w' & i & m & g & p & Hw' & Hi & Hm & Hg & Hp & Ei & Em & Eg & Ep).
  assert (w' = w) by congruence. subst w'.
  simpl in Hin.
  destruct Hin as [E | [E | [E | [E | []]]]]; injection E as <- <- <- <-.
  - assert (i = t) by congruence. subst i. split; [exact Ei | reflexivity].
  - assert (m = t) by congruence. subst m. split; [exact Em | reflexivity].
  - assert (g = t) by congruence. subst g. split; [exact Eg | reflexivity].
  - assert (p = t) by congruence. subst p. split; [exact Ep | reflexivity].
Qed.

Lemma flexion_antitone (len1 len2 lo hi : Q) :
  lo < hi -> len1 <= len2 -> flexion len2 lo hi <= flexion len1 lo hi.
Proof.
  intros Hlh Hlen. unfold flexion, clip.
  assert (Hd : (len1 - lo) / (hi - lo) <= (len2 - lo) / (hi - lo)).
  { unfold Qdiv. apply Qmult_le_compat_r; [lra|].
    apply Qinv_le_0_compat. lra. }
  assert (Hc : Qmin (Qmax ((len1 - lo) / (hi - lo)) 0) 1
               <= Qmin (Qmax ((len2 - lo) / (hi - lo)) 0) 1).
  { apply Q.min_le_compat_r, Q.max_le_compat_r, Hd. }
  lra.
Qed.

(** A finger whose tip is at or inside the shortest calibrated distance
    from the wrist reads as fully closed (1); at or beyond the longest it
    reads as fully open (0). *)
Theorem finger_reading_saturates
    (norm : vec3 -> Q) (joint_pos : list vec3) (r : Runner.ratios)
    (tip : nat) (entry : Runner.ratios -> Q) (lo hi : Q) (w t : vec3) :
  In (tip, entry, lo, hi) fingers ->
  finger_ratios norm joint_pos = Some r ->
  joint_pos !! 0%nat = Some w -> joint_pos !! tip = Some t ->
  (norm (vsub t w) <= lo -> entry r == 1) /\
  (hi <= norm (vsub t w) -> entry r == 0).
Proof.
  intros Hin Hr Hw Ht.
  destruct (finger_entry norm joint_pos r tip entry lo hi w t Hin Hr Hw Ht) as [-> Hlh].
  split; intros Hlen.
  - now apply closed_is_one.
  - now apply open_is_zero.
Qed.

Lemma finger_reading_saturates_witness :
  exists r,
    finger_ratios norm_micro fist = Some r /\
    norm_micro (vsub (0.03, 0.04, 0) wrist) <= 0.09 /\ Runner.middle r == 1.
Proof.
  destruct (finger_ratios norm_micro fist) as [r|] eqn:Hr;
    [|vm_compute in Hr; discriminate Hr].
  exists r. split; [reflexivity|].
  assert (Hlen : norm_micro (vsub (0.03, 0.04, 0) wrist) <= 0.09)
    by (vm_compute; discriminate).
  split; [exact Hlen|].
  refine (proj1 (finger_reading_saturates norm_micro fist r 12 Runner.middle 0.09 0.18
                   wrist (0.03, 0.04, 0) _ Hr _ _) Hlen).
  - simpl. right. left. reflexivity.
  - reflexivity.
  - reflexivity.
Defined.

(** Between two detected hands, the one whose finger tip is farther from
    the wrist never reads as more closed on that finger. *)
Theorem longer_finger_reads_more_open
    (norm : vec3 -> Q) (hand1 hand2 : list vec3) (r1 r2 : Runner.ratios)
    (tip : nat) (entry : Runner.ratios -> Q) (lo hi : Q) (w1 t1 w2 t2 : vec3) :
  In (tip, entry, lo, hi) fingers ->
  finger_ratios norm hand1 = Some r1 -> finger_ratios norm hand2 = Some r2 ->
  hand1 !! 0%nat = Some w1 -> hand1 !! tip = Some t1 ->
  hand2 !! 0%nat = Some w2 -> hand2 !! tip = Some t2 ->
  norm (vsub t1 w1) <= norm (vsub t2 w2) ->
  entry r2 <= entry r1.
Proof.
  intros Hin Hr1 Hr2 Hw1 Ht1 Hw2 Ht2 Hlen.
  destruct (finger_entry norm hand1 r1 tip entry lo hi w1 t1 Hin Hr1 Hw1 Ht1) as [-> Hlh].
  destruct (finger_entry norm hand2 r2 tip entry lo hi w2 t2 Hin Hr2 Hw2 Ht2) as [-> _].
  now apply flexion_antitone.
Qed.

Lemma longer_finger_reads_more_open_witness :
  exists r1 r2,
    finger_ratios norm_micro fist = Some r1 /\
    finger_ratios norm_micro flat_hand = Some r2 /\
    Runner.ring r2 <= Runner.ring r1.
Proof.
  destruct (finger_ratios norm_micro fist) as [r1|] eqn:Hr1;
    [|vm_compute in Hr1; discriminate Hr1].
  destruct (finger_ratios norm_micro flat_hand) as [r2|] eqn:Hr2;
    [|vm_compute in Hr2; discriminate Hr2].
  exists r1, r2. split; [reflexivity|]. split; [reflexivity|].
  apply (longer_finger_reads_more_open norm_micro fist flat_hand r1 r2 16 Runner.ring
           0.07 0.17 wrist (0.03, 0.04, 0) wrist
           (inject_Z 16 / 200, inject_Z 16 / 100, 0)).
  - simpl. right. right. left. reflexivity.
  - exact Hr1.
  - exact Hr2.
  - reflexivity.
  - reflexivity.
  - reflexivity.
  - reflexivity.
  - vm_compute. discriminate.
Defined.

(** The thumb is measured along one axis only: moving the thumb tip
    sideways or in depth (x and z of landmark 4) changes nothing in the
    result. *)
Theorem thumb_reads_one_axis
    (norm : vec3 -> Q) (joint_pos : list vec3) (x y z x' z' : Q) :
  joint_pos !! 4%nat = Some ((x, y, z) : vec3) ->
  finger_ratios norm (<[4%nat := (x', y, z')]> joint_pos) = finger_ratios norm joint_pos.
Proof.
  intros Ht.
  assert (Hlen : (4 < length joint_pos)%nat) by (apply lookup_lt_is_Some; eauto).
  unfold finger_ratios.
  rewrite list_lookup_insert_eq by exact Hlen.
  rewrite !list_lookup_insert_ne by lia.
  rewrite Ht.
  destruct (joint_pos !! 0%nat) as [[[wx wy] wz]|]; reflexivity.
Qed.

Lemma thumb_reads_one_axis_witness :
  finger_ratios norm_micro (<[4%nat := (1, inject_Z 4 / 100, 1)]> flat_hand)
  = finger_ratios norm_micro flat_hand.
Proof.
  apply (thumb_reads_one_axis norm_micro flat_hand (inject_Z 4 / 200) (inject_Z 4 / 100) 0 1 1).
  reflexivity.
Defined.

End FingerFacts.

(** ** Camera and detector hand-off: drop the stale entry, then put *)

Module Handoff.

(** Where the producer drops the stale entry:
    [if self.frame_queue.full()] in [Camera._capture_frames],
    [if not self.result_queue.empty()] in [FingerDetector._detection_loop]. *)
Inductive policy : Type :=
| WhenFull
| WhenNotEmpty.

Section Channel.

Context {A : Type}.

(** [queue.Queue]. *)
Record chan : Type := mkChan { maxsize : nat; items : list A }.

Definition full (q : chan) : bool :=
  (0 <? maxsize q)%nat && (maxsize q <=? length (items q))%nat.

Definition empty (q : chan) : bool :=
  match items q with [] => true | _ => false end.

Definition stale (pol : policy) (q : chan) : bool :=
  match pol with
  | WhenFull => full q
  | WhenNotEmpty => negb (empty q)
  end.

(** The producer thread between two queue operations: before the test,
    about to call [get_nowait], about to call [put]. *)
Inductive pc : Type :=
| Idle
| Dropping (x : A)
| Putting (x : A).

(** The queue and the producer, with a record of what happened: [taken]
    are the values the consumer's [get] returned, [produced] the values the
    producer set out to publish (both oldest first), [blocked] counts the
    times the producer stood in [put] on a full queue. *)
Record state : Type := mkState {
  q : chan;
  producer : pc;
  taken : list A;
  produced : list A;
  blocked : nat
}.

Definition init (m : nat) : state := mkState (mkChan m []) Idle [] [] 0.

(** The scheduler lets the producer run its next queue operation ([x] is
    what the camera or the hand detector delivered, if the producer is at
    the top of its loop), or lets the consumer call [get]. *)
Inductive event : Type :=
| Produce (x : option A)
| Consume.

Definition step (pol : policy) (s : state) (e : event) : state :=
  match e with
  | Produce x =>
      match producer s with
      | Idle =>
          match x with
          | Some v =>
              mkState (q s) (if stale pol (q s) then Dropping v else Putting v)
                      (taken s) (produced s ++ [v]) (blocked s)
          | None => s
          end
      | Dropping v =>
          (* [get_nowait], with [Empty] caught *)
          mkState (mkChan (maxsize (q s)) (tl (items (q s)))) (Putting v)
                  (taken s) (produced s) (blocked s)
      | Putting v =>
          if full (q s)
          then mkState (q s) (Putting v) (taken s) (produced s) (S (blocked s))
          else mkState (mkChan (maxsize (q s)) (items (q s) ++ [v])) Idle
                       (taken s) (produced s) (blocked s)
      end
  | Consume =>
      match items (q s) with
      | [] => s                                     (* [None] *)
      | x :: rest =>
          mkState (mkChan (maxsize (q s)) rest) (producer s)
                  (taken s ++ [x]) (produced s) (blocked s)
      end
  end.

Definition run (pol : policy) (s : state) (sched : list event) : state :=
  fold_left (step pol) sched s.

(** The value the producer holds but has not put yet. *)
Definition pending (s : state) : list A :=
  match producer s with
  | Idle => []
  | Dropping x => [x]
  | Putting x => [x]
  end.

(** Room for the value the producer is about to put. *)
Definition room (s : state) : Prop :=
  blocked s = 0%nat /\
  (0 < maxsize (q s) -> length (items (q s)) <= maxsize (q s))%nat /\
  (forall x, producer s = Putting x ->
     maxsize (q s) = 0%nat \/ (length (items (q s)) < maxsize (q s))%nat).

(** Everything handed over or waiting, in the order it was produced. *)
Definition in_order (s : state) : Prop :=
  sublist (taken s ++ items (q s) ++ pending s) (produced s).

Lemma full_false (c : chan) :
  full c = false -> maxsize c = 0%nat \/ (length (items c) < maxsize c)%nat.
Proof.
  unfold full. intros H. apply andb_false_iff in H as [H | H].
  - left. apply Nat.ltb_ge in H. lia.
  - right. apply Nat.leb_gt in H. exact H.
Qed.

Lemma full_true (c : chan) :
  maxsize c = 0%nat \/ (length (items c) < maxsize c)%nat -> full c = false.
Proof.
  unfold full. intros [H | H]; apply andb_false_iff.
  - left. apply Nat.ltb_ge. lia.
  - right. apply Nat.leb_gt. exact H.
Qed.

Lemma length_tl (l : list A) : length (tl l) = pred (length l).
Proof. now destruct l. Qed.

Lemma room_init (m : nat) : room (init m).
Proof.
  unfold room, init; simpl. split; [reflexivity|]. split; [lia|]. discriminate.
Qed.

Lemma room_step (pol : policy) (s : state) (e : event) : room s -> room (step pol s e).
Proof.
  intros Hroom. pose proof Hroom as (Hb & Hlen & Hput). destruct e as [x|]; simpl.
  - destruct (producer s) as [|v|v] eqn:Hpc.
    + destruct x as [v|]; [|exact Hroom].
      unfold room; simpl. split; [exact Hb|]. split; [exact Hlen|].
      intros y. destruct (stale pol (q s)) eqn:Hs; [discriminate|].
      intros _. destruct pol; simpl in Hs.
      * now apply full_false.
      * apply negb_false_iff in Hs. unfold empty in Hs.
        destruct (items (q s)) eqn:Hi; [|discriminate Hs].
        simpl. destruct (maxsize (q s)); [now left | right; lia].
    + unfold room; simpl. rewrite length_tl. split; [exact Hb|]. split; [lia|].
      intros _ _. destruct (maxsize (q s)) as [|m]; [now left|].
      right. destruct (items (q s)); simpl in *; lia.
    + rewrite (full_true (q s) (Hput v eq_refl)).
      unfold room; simpl. rewrite length_app; simpl.
      split; [exact Hb|]. split; [|discriminate].
      intros Hm. destruct (Hput v eq_refl); lia.
  - destruct (items (q s)) as [|x rest] eqn:Hi; [exact Hroom|].
    unfold room; simpl. simpl in Hlen.
    split; [exact Hb|]. split; [lia|].
    intros y Hy. destruct (Hput y Hy); [now left | right; simpl in *; lia].
Qed.

Lemma room_run (pol : policy) (sched : list event) :
  forall s, room s -> room (run pol s sched).
Proof.
  induction sched as [|e sched IH]; intros s Hs; [exact Hs|].
  apply IH. now apply room_step.
Qed.

Lemma in_order_step (pol : policy) (s : state) (e : event) :
  in_order s -> in_order (step pol s e).
Proof.
  intros Hs. destruct e as [x|]; simpl.
  - destruct (producer s) as [|v|v] eqn:Hpc.
    + destruct x as [v|]; [|exact Hs].
      unfold in_order, pending in Hs |- *. rewrite Hpc, app_nil_r in Hs. simpl.
      replace (taken s ++ items (q s) ++
               match (if stale pol (q s) then Dropping v else Putting v) with
               | Idle => []
               | Dropping x => [x]
               | Putting x => [x]
               end)
        with ((taken s ++ items (q s)) ++ [v])
        by (destruct (stale pol (q s)); now rewrite <- app_assoc).
      now apply sublist_app.
    + unfold in_order, pending in Hs |- *. rewrite Hpc in Hs. simpl.
      etransitivity; [|exact Hs].
      apply sublist_app; [reflexivity|].
      destruct (items (q s)) as [|h rest]; simpl; [reflexivity|].
      now apply sublist_cons.
    + destruct (full (q s)).
      * unfold in_order, pending in Hs |- *. rewrite Hpc in Hs. exact Hs.
      * unfold in_order, pending in Hs |- *. rewrite Hpc in Hs. simpl.
        now rewrite app_nil_r.
  - destruct (items (q s)) as [|x rest] eqn:Hi; [exact Hs|].
    unfold in_order, pending in Hs |- *. rewrite Hi in Hs. simpl.
    now rewrite <- app_assoc.
Qed.

Lemma in_order_run (pol : policy) (sched : list event) :
  forall s, in_order s -> in_order (run pol s sched).
Proof.
  induction sched as [|e sched IH]; intros s Hs; [exact Hs|].
  apply IH. now apply in_order_step.
Qed.

End Channel.

(** Under every interleaving of the capture (or detection) thread with the
    thread that calls [get], for both ways of testing for a stale entry
    and every queue size: the producer's [put] never finds the queue full,
    so it never waits for the consumer, and a bounded queue never holds
    more than [maxsize] entries. *)
Theorem producer_never_waits {A : Type} (pol : policy) (m : nat) (sched : list (@event A)) :
  let s := run pol (init m) sched in
  blocked s = 0%nat /\ (0 < m -> length (items (q s)) <= m)%nat.
Proof.
  intros s.
  assert (Hm : maxsize (q s) = m).
  { unfold s. generalize (eq_refl : maxsize (q (@init A m)) = m).
    generalize (@init A m). induction sched as [|e sched IH]; intros s0 H0; [exact H0|].
    simpl. apply IH. rewrite <- H0.
    destruct e as [x|]; simpl.
    - destruct (producer s0); [destruct x| |destruct (full (q s0))]; reflexivity.
    - destruct (items (q s0)); reflexivity. }
  destruct (room_run pol sched (init m) (room_init m)) as (Hb & Hlen & _).
  fold s in Hb, Hlen. rewrite Hm in Hlen. split; assumption.
Qed.

(** Under every interleaving, what the consumer has received so far is a
    subsequence of what the producer published, in the same order: frames
    may be skipped, but none arrives twice or out of order. *)
Theorem consumer_sees_frames_in_order
    {A : Type} (pol : policy) (m : nat) (sched : list (@event A)) :
  let s := run pol (init m) sched in
  sublist (taken s) (produced s).
Proof.
  intros s.
  assert (H : in_order s).
  { apply in_order_run. unfold in_order, init; simpl. constructor. }
  unfold in_order in H. etransitivity; [|exact H].
  apply sublist_inserts_r. reflexivity.
Qed.

End Handoff.

(** ** Decoding a saved vector and recording it again *)

Module CodecFacts.

Import Codec.

(** Decoding followed by encoding. *)
Definition decoded_then_saved {T} (zero : T) (add sub : T -> T -> T) (offset : T)
    (vec : list T) : option (list T) :=
  match _decode_saved zero add offset vec with
  | Some pos => _get_current_leap_pos sub offset pos
  | None => None
  end.

Lemma decoded_then_saved_generic {T} (zero : T) (add sub : T -> T -> T) (offset : T)
    (vec : list T) :
  length vec = 16%nat ->
  decoded_then_saved zero add sub offset vec =
  Some (map (fun x => sub (add x offset) offset) vec).
Proof.
  intros H. apply length_16_inv in H.
  destruct H as (x0&x1&x2&x3&x4&x5&x6&x7&x8&x9&x10&x11&x12&x13&x14&x15&->).
  reflexivity.
Qed.

(** A saved vector that is decoded for the hand and recorded again from
    that pose comes back entry by entry: every value returns to its own
    place carrying [(v_i + 3.14159) - 3.14159], for any kind of number, and
    in exact arithmetic that is the saved vector itself.  A vector that
    has neither 16 entries nor one cannot be decoded at all. *)
Theorem decoded_then_saved_roundtrip {T} (zero : T) (add sub : T -> T -> T) (offset : T)
    (vec : list T) (saved : list Q) :
  length vec = 16%nat -> length saved = 16%nat ->
  decoded_then_saved zero add sub offset vec =
    Some (map (fun x => sub (add x offset) offset) vec) /\
  (exists back, decoded_then_saved 0 Qplus Qminus offsetQ saved = Some back /\
                Forall2 Qeq back saved) /\
  (forall other : list T,
     length other <> 16%nat -> length other <> 1%nat ->
     _decode_saved zero add offset other = None).
Proof.
  intros Hv Hs. split; [|split].
  - now apply decoded_then_saved_generic.
  - eexists. split; [now apply decoded_then_saved_generic|].
    clear Hs. induction saved as [|x saved IH]; simpl; constructor; [ring | exact IH].
  - intros other H16 H1. unfold _decode_saved.
    destruct other as [|a [|b other]]; simpl in *; try congruence.
    destruct (length other =? 14)%nat eqn:E; [|reflexivity].
    apply Nat.eqb_eq in E. lia.
Qed.

Lemma decoded_then_saved_roundtrip_witness :
  decoded_then_saved 0%float PrimFloat.add PrimFloat.sub 3.14159%float
                     (repeat 0.5%float 16) =
    Some (map (fun x => PrimFloat.sub (PrimFloat.add x 3.14159%float) 3.14159%float)
              (repeat 0.5%float 16)) /\
  (exists back, decoded_then_saved 0 Qplus Qminus offsetQ (repeat (1 # 2) 16) = Some back /\
                Forall2 Qeq back (repeat (1 # 2) 16)) /\
  (forall other : list float,
     length other <> 16%nat -> length other <> 1%nat ->
     _decode_saved 0%float PrimFloat.add 3.14159%float other = None).
Proof.
  apply (decoded_then_saved_roundtrip 0%float PrimFloat.add PrimFloat.sub 3.14159%float
           (repeat 0.5%float 16) (repeat (1 # 2) 16)); reflexivity.
Defined.

End CodecFacts.

(** ** [RealTimeRunner.main_loop]: one pass *)

Module MainLoop.

Import Runner.

(** What a pass of [main_loop] works on, with the keyboard source as
    [self.asr] (the [typing] configuration of [run_leap]); [detector] is
    the result queue of the finger detector, the ratios of each entry. *)
Record rig : Type := mkRig {
  runner : RealTimeRunner;
  asr : Mailbox.keyboard_box;
  retriever : RetrieveFacts.worker;
  detector : list ratios;
  leap_node : LeapNode.node
}.

(** How a pass ends: the loop goes on, [break], or an exception leaves
    [main_loop] (its handler catches [KeyboardInterrupt] only). *)
Inductive flow : Type :=
| Next
| Break
| Raised (e : exn).

Section Pass.

Variable float : string -> option Q.
Variable files : gmap string (list string).

(** Step 1, ASR to retriever.  The flag says whether [continue] was
    reached. *)
Definition asr_to_retriever (g : rig) : rig * bool :=
  if Mailbox.kb_have_new_result (asr g) then
    let '(new_query, asr') := Mailbox.keyboard_get (asr g) in
    if Retrieve.truthy new_query then
      match on_query float files (runner g) (Retrieve.or_empty new_query) with
      | (r', None) => (mkRig r' asr' (retriever g) (detector g) (leap_node g), true)
      | (r', Some query) =>
          (mkRig r' asr' (RetrieveFacts.retrieve (retriever g) query)
                 (detector g) (leap_node g), false)
      end
    else (mkRig (runner g) asr' (retriever g) (detector g) (leap_node g), false)
  else (g, false).

(** Step 2, retriever result to gesture switch; an exception of
    [change_type] is not caught here. *)
Definition result_to_switch (g : rig) : rig * outcome unit :=
  let w := retriever g in
  if Mailbox.retrieve_has_new_result (RetrieveFacts.results w) then
    let '(result, box) := Mailbox.retrieve_get (RetrieveFacts.results w) in
    let w' := RetrieveFacts.mkWorker (RetrieveFacts.input w) (RetrieveFacts.have_new_input w)
                                     box (RetrieveFacts.catalog w) in
    if Retrieve.truthy result
       && negb (String.eqb (Retrieve.or_empty result) (curr_type (runner g)))
    then
      let '(r', out) := change_type float files (runner g) (Retrieve.or_empty result) in
      (mkRig r' (asr g) w' (detector g) (leap_node g), out)
    else (mkRig (runner g) (asr g) w' (detector g) (leap_node g), Returns tt)
  else (g, Returns tt).

(** Step 3, hand detection to robot control; [key_q] tells whether the
    window reports the key [q]. *)
Definition detection_to_hand (g : rig) (key_q : bool) : rig * flow :=
  match detector g with
  | [] => (g, Next)
  | ratio :: rest =>
      let pose := type_pos (open_pos (runner g)) (close_pos (runner g)) ratio in
      (mkRig (runner g) (asr g) (retriever g) rest (LeapNode.set_leap (leap_node g) pose),
       if key_q then Break else Next)
  end.

(** The body of the [while True] loop. *)
Definition pass (g : rig) (key_q : bool) : rig * flow :=
  let '(g1, continue) := asr_to_retriever g in
  if continue then (g1, Next)
  else
    match result_to_switch g1 with
    | (g2, Raises e) => (g2, Raised e)
    | (g2, Returns _) => detection_to_hand g2 key_q
    end.

End Pass.

(** The hand with gesture [box] loaded, a typed line waiting, a retriever
    result waiting and a detected hand waiting. *)
Definition typed (line : string) : Mailbox.keyboard_box :=
  Mailbox.KeyboardBox (Mailbox.Queue 1 [line]) true.
Definition silent : Mailbox.keyboard_box := Mailbox.keyboard_init.
Definition answered (result : option string) : RetrieveFacts.worker :=
  RetrieveFacts.mkWorker "" false (Mailbox.RetrieveBox true result)
                         RetrieveFacts.described_catalog.
Definition idle : RetrieveFacts.worker :=
  RetrieveFacts.mkWorker "" false Mailbox.retrieve_init RetrieveFacts.described_catalog.
Definition half_closed : ratios := mkRatios (1 # 2) (1 # 2) (1 # 2) (1 # 2) (1 # 2).
Definition demo_rig (a : Mailbox.keyboard_box) (w : RetrieveFacts.worker) : rig :=
  mkRig box_runner a w [half_closed] Player.demo_hand.

(** A second gesture file, identical in content, under the name [cup]. *)
Definition two_files : gmap string (list string) :=
  <[ "TypeLibrary/leap/cup.txt"%string := [box_line; box_line] ]> box_library.

Lemma change_type_raises (float : string -> option Q) (files : gmap string (list string))
    (r : RealTimeRunner) (t : string) (e : exn) :
  load_type float files r t = Raises e ->
  change_type float files r t =
    (mkRunner (category r) t (open_pos r) (close_pos r), Raises e).
Proof.
  intros H. unfold change_type. simpl.
  replace (load_type float files (mkRunner (category r) t (open_pos r) (close_pos r)) t)
    with (load_type float files r t) by reflexivity.
  now rewrite H.
Qed.

Lemma change_type_returns (float : string -> option Q) (files : gmap string (list string))
    (r : RealTimeRunner) (t : string) (o c : list Q) :
  load_type float files r t = Returns (o, c) ->
  change_type float files r t = (mkRunner (category r) t o c, Returns tt).
Proof.
  intros H. unfold change_type. simpl.
  replace (load_type float files (mkRunner (category r) t (open_pos r) (close_pos r)) t)
    with (load_type float files r t) by reflexivity.
  now rewrite H.
Qed.

(** A gesture id delivered by the retriever that cannot be loaded ends
    the main loop: the exception of [change_type] leaves [main_loop], the
    hand gets no command in that pass and the waiting detection is left in
    its queue; the runner is left with the new name and the old poses. *)
Theorem unloadable_result_ends_main_loop
    (float : string -> option Q) (files : gmap string (list string))
    (g : rig) (t : string) (e : exn) (key_q : bool) :
  Mailbox.kb_have_new_result (asr g) = false ->
  RetrieveFacts.results (retriever g) = Mailbox.RetrieveBox true (Some t) ->
  t <> ""%string -> t <> curr_type (runner g) ->
  load_type float files (runner g) t = Raises e ->
  exists g',
    pass float files g key_q = (g', Raised e) /\
    runner g' = mkRunner (category (runner g)) t (open_pos (runner g)) (close_pos (runner g)) /\
    leap_node g' = leap_node g /\ detector g' = detector g /\
    Mailbox.have_new_result (RetrieveFacts.results (retriever g')) = false.
Proof.
  intros Hasr Hbox Ht Hne Hload.
  unfold pass, asr_to_retriever. rewrite Hasr.
  unfold result_to_switch, Mailbox.retrieve_has_new_result, Mailbox.retrieve_get.
  rewrite Hbox. simpl.
  assert (E1 : String.eqb t "" = false) by now apply String.eqb_neq.
  assert (E2 : String.eqb t (curr_type (runner g)) = false) by now apply String.eqb_neq.
  rewrite E1, E2. cbv [andb negb].
  rewrite (change_type_raises float files (runner g) t e Hload).
  eexists. split; [reflexivity|]. simpl. repeat split.
Qed.

Lemma unloadable_result_ends_main_loop_witness :
  exists g',
    pass Str.float_of_decimal box_library (demo_rig silent (answered (Some "cup"%string))) false
      = (g', Raised FileNotFoundError) /\
    runner g' = mkRunner "leap" "cup" (open_pos box_runner) (close_pos box_runner) /\
    leap_node g' = Player.demo_hand /\ detector g' = [half_closed] /\
    Mailbox.have_new_result (RetrieveFacts.results (retriever g')) = false.
Proof.
  apply (unloadable_result_ends_main_loop Str.float_of_decimal box_library
           (demo_rig silent (answered (Some "cup"%string))) "cup" FileNotFoundError false).
  - reflexivity.
  - reflexivity.
  - discriminate.
  - vm_compute. discriminate.
  - vm_compute. reflexivity.
Defined.

(** A typed [/name] whose gesture cannot be loaded does not end the loop:
    with no retriever result waiting, the pass goes on, the whole line
    (slash included) is handed to the retriever as a query, the runner
    carries the new name with the old poses, and a waiting detection is
    turned into a hand command computed from those old poses. *)
Theorem rejected_command_goes_to_retriever
    (float : string -> option Q) (files : gmap string (list string))
    (g : rig) (query : string) (asr' : Mailbox.keyboard_box) (e : exn) (key_q : bool) :
  Mailbox.kb_have_new_result (asr g) = true ->
  Mailbox.keyboard_get (asr g) = (Some query, asr') ->
  String.prefix "/" query = true ->
  load_type float files (runner g) (Str.tail query) = Raises e ->
  Mailbox.have_new_result (RetrieveFacts.results (retriever g)) = false ->
  let old_pose := type_pos (open_pos (runner g)) (close_pos (runner g)) in
  exists g' f,
    pass float files g key_q = (g', f) /\ (forall e', f <> Raised e') /\
    runner g' = mkRunner (category (runner g)) (Str.tail query)
                         (open_pos (runner g)) (close_pos (runner g)) /\
    RetrieveFacts.input (retriever g') = query /\
    RetrieveFacts.have_new_input (retriever g') = true /\
    leap_node g' =
      match detector g with
      | [] => leap_node g
      | ratio :: _ => LeapNode.set_leap (leap_node g) (old_pose ratio)
      end.
Proof.
  intros Hflag Hget Hslash Hload Hres old_pose.
  assert (Hq : Retrieve.truthy (Some query) = true).
  { destruct query; [discriminate Hslash | reflexivity]. }
  unfold pass, asr_to_retriever. rewrite Hflag, Hget, Hq.
  unfold on_query. simpl Retrieve.or_empty. rewrite Hslash.
  rewrite (change_type_raises float files (runner g) (Str.tail query) e Hload).
  unfold result_to_switch, Mailbox.retrieve_has_new_result. simpl.
  rewrite Hres. unfold detection_to_hand. simpl.
  destruct (detector g) as [|ratio rest].
  - eexists _, _. split; [reflexivity|]. simpl. repeat split. discriminate.
  - eexists _, _. split; [reflexivity|]. simpl. repeat split.
    destruct key_q; discriminate.
Qed.

Lemma rejected_command_goes_to_retriever_witness :
  exists g' f,
    pass Str.float_of_decimal box_library (demo_rig (typed "/cup") idle) false = (g', f) /\
    (forall e', f <> Raised e') /\
    runner g' = mkRunner "leap" "cup" (open_pos box_runner) (close_pos box_runner) /\
    RetrieveFacts.input (retriever g') = "/cup"%string /\
    RetrieveFacts.have_new_input (retriever g') = true /\
    leap_node g' =
      LeapNode.set_leap Player.demo_hand
        (type_pos (open_pos box_runner) (close_pos box_runner) half_closed).
Proof.
  apply (rejected_command_goes_to_retriever Str.float_of_decimal box_library
           (demo_rig (typed "/cup") idle) "/cup" silent FileNotFoundError false).
  - reflexivity.
  - reflexivity.
  - reflexivity.
  - vm_compute. reflexivity.
  - reflexivity.
Defined.

(** A typed [/name] whose gesture loads ends the pass at once: the runner
    holds the new gesture, nothing is handed to the retriever, and a
    waiting retriever result and a waiting detection both stay where they
    are, so the hand gets no command in that pass. *)
Theorem accepted_command_ends_the_pass
    (float : string -> option Q) (files : gmap string (list string))
    (g : rig) (query : string) (asr' : Mailbox.keyboard_box) (o c : list Q) (key_q : bool) :
  Mailbox.kb_have_new_result (asr g) = true ->
  Mailbox.keyboard_get (asr g) = (Some query, asr') ->
  String.prefix "/" query = true ->
  load_type float files (runner g) (Str.tail query) = Returns (o, c) ->
  pass float files g key_q =
    (mkRig (mkRunner (category (runner g)) (Str.tail query) o c) asr'
           (retriever g) (detector g) (leap_node g),
     Next).
Proof.
  intros Hflag Hget Hslash Hload.
  assert (Hq : Retrieve.truthy (Some query) = true).
  { destruct query; [discriminate Hslash | reflexivity]. }
  unfold pass, asr_to_retriever. rewrite Hflag, Hget, Hq.
  unfold on_query. simpl Retrieve.or_empty. rewrite Hslash.
  rewrite (change_type_returns float files (runner g) (Str.tail query) o c Hload).
  reflexivity.
Qed.

Lemma accepted_command_ends_the_pass_witness :
  pass Str.float_of_decimal two_files
       (demo_rig (typed "/cup") (answered (Some "box"%string))) true =
    (mkRig (mkRunner "leap" "cup" (open_pos box_runner) (close_pos box_runner)) silent
           (answered (Some "box"%string)) [half_closed] Player.demo_hand,
     Next).
Proof.
  apply (accepted_command_ends_the_pass Str.float_of_decimal two_files
           (demo_rig (typed "/cup") (answered (Some "box"%string))) "/cup" silent
           (open_pos box_runner) (close_pos box_runner) true).
  - reflexivity.
  - reflexivity.
  - reflexivity.
  - vm_compute. reflexivity.
Defined.

End MainLoop.

(** ** [KeyboardAsrServer.on_release]: the character queue *)

Module KeyListener.

Import KeyboardInput.

(** A key as the listener reports it. *)
Inductive key : Type :=
| Printable (c : ascii)   (* [key.char] is a character *)
| NoChar                  (* [key.char] is [None] *)
| KeyEnter
| KeyBackspace
| KeyEsc
| Special.                (* any other key without the attribute [char] *)

(** The value of [char] before the test [char is not None]. *)
Definition char_of (k : key) : option ascii :=
  match k with
  | Printable c => Some c
  | NoChar => None
  | KeyEnter => Some enter
  | KeyBackspace => Some backspace
  | KeyEsc => Some escape
  | Special => None
  end.

(** How the call ends: it returns, or [queue.Full] leaves it (the handler
    around [put_nowait] names [Empty]). *)
Inductive ended : Type :=
| Returned
| RaisedFull.

(** [Queue(maxsize=10)]. *)
Definition char_queue_size : nat := 10.

(** [on_release] for a server whose [is_running] is [running] and whose
    [pynput_char_queue] holds [pending], oldest first. *)
Definition on_release (running : bool) (pending : list ascii) (k : key)
  : list ascii * ended :=
  if negb running then (pending, Returned)
  else
    match char_of k with
    | Some char =>
        if (char_queue_size <=? length pending)%nat then (pending, RaisedFull)
        else (pending ++ [char], Returned)
    | None => (pending, Returned)
    end.

(** Ten letters waiting. *)
Definition ten_pending : list ascii := list_ascii_of_string "grab a cup".

(** A key released while the character queue holds its ten entries is not
    dropped silently: [queue.Full] leaves [on_release] and the queue is as
    before.  That is the only way the call raises; in every other case it
    returns, and the queue never grows beyond ten entries. *)
Theorem key_release_on_full_queue_raises (running : bool) (pending : list ascii) (k : key) :
  (length pending <= char_queue_size)%nat ->
  let '(pending', how) := on_release running pending k in
  (how = RaisedFull <->
     running = true /\ char_of k <> None /\ length pending = char_queue_size) /\
  (how = RaisedFull -> pending' = pending) /\
  (length pending' <= char_queue_size)%nat.
Proof.
  intros Hlen. unfold on_release.
  destruct running; cbv [negb]; cbv iota.
  - destruct (char_of k) as [char|] eqn:Hk.
    + destruct (char_queue_size <=? length pending)%nat eqn:Hfull; cbv iota beta.
      * apply Nat.leb_le in Hfull. split; [|split; [reflexivity | exact Hlen]].
        split; [intros _ | reflexivity].
        split; [reflexivity|]. split; [discriminate | lia].
      * apply Nat.leb_gt in Hfull. split; [|split].
        -- split; [discriminate | intros (_ & _ & H); lia].
        -- discriminate.
        -- rewrite length_app. simpl. lia.
    + split; [|split; [discriminate | exact Hlen]].
      split; [discriminate | intros (_ & H & _); congruence].
  - split; [|split; [discriminate | exact Hlen]].
    split; [discriminate | intros (H & _); discriminate H].
Qed.

Lemma key_release_on_full_queue_raises_witness :
  on_release true ten_pending (Printable "s"%char) = (ten_pending, RaisedFull).
Proof.
  pose proof (key_release_on_full_queue_raises true ten_pending (Printable "s"%char)) as H.
  destruct (on_release true ten_pending (Printable "s"%char)) as [pending' how].
  destruct H as (Hiff & Hsame & _); [vm_compute; lia|].
  assert (Hhow : how = RaisedFull).
  { apply Hiff. split; [reflexivity|]. split; [discriminate | reflexivity]. }
  now rewrite (Hsame Hhow), Hhow.
Defined.

End KeyListener.
